(** * TSI: a shallow embedding of the resolution-and-build engine

    The development follows the Python sources under [src/tsi]:
    [package.py], [repository.py], [resolver.py], [database.py],
    [fetcher.py] and [manager.py].  Python dictionaries are finite maps
    ([gmap]), Python sets that are only tested for membership are finite
    sets ([gset]), Python lists are lists.  Exceptions are an explicit
    [Raise] outcome; mutable objects are threaded as explicit state, and
    the state reached when an exception escapes is kept, as in Python. *)

From Stdlib Require Import ZArith.
From stdpp Require Import base option list sets gmap strings relations.

Local Open Scope string_scope.
Local Open Scope list_scope.
Local Open Scope nat_scope.

Set Warnings "-clear-no-such-hyp".

(** ** Exceptions and outcomes *)

(** The exceptions the modelled code raises.  Each constructor stands for
    one [raise] statement (or one family of library failures); the only
    class distinction the code tests is [except ValueError] versus
    [except Exception], see [is_ValueError]. *)
Inductive exn : Type :=
  | CircularDependency (pkg_name : string)
      (* ValueError(f"Circular dependency detected involving {pkg_name}") *)
  | CouldNotFind (pkg_name : string) (cause : exn)
      (* ValueError(f"Could not find package {pkg_name}: {e}") *)
  | PackageNotFound (name : string)
      (* ValueError(f"Package not found: {name}") *)
  | MissingName
      (* ValueError("Package manifest must include a 'name' field") *)
  | JSONDecodeError
      (* json.load on malformed text; a subclass of ValueError *)
  | CircularBuildOrder
      (* ValueError("Circular dependency detected in build order") *)
  | UnknownSourceType (source_type : string)
      (* ValueError(f"Unknown source type: {source_type}") *)
  | MissingUrl
      (* ValueError("... source must include 'url'") *)
  | LocalPathMissing (path : string)
      (* ValueError(f"Local source path does not exist: {path}") *)
  | GitRequired
      (* RuntimeError("Git is required for git sources. ...") *)
  | DownloadFailed (url : string)
      (* RuntimeError(f"Failed to download {url}: {e}") *)
  | CalledProcessError (argv : list string)
      (* subprocess.run(..., check=True) with a non-zero exit status *)
  | FileNotFoundError
      (* subprocess.run when the program cannot be started *)
  | OSError
      (* file-system and archive failures *)
  | RecursionError.
      (* the interpreter's recursion limit was reached *)

Definition is_ValueError (e : exn) : bool :=
  match e with
  | CircularDependency _ | CouldNotFind _ _ | PackageNotFound _
  | MissingName | JSONDecodeError | CircularBuildOrder
  | UnknownSourceType _ | MissingUrl | LocalPathMissing _ => true
  | GitRequired | DownloadFailed _ | CalledProcessError _
  | FileNotFoundError | OSError | RecursionError => false
  end.

Inductive outcome (A : Type) : Type :=
  | Ok (a : A)
  | Raise (e : exn).
Arguments Ok {A} a.
Arguments Raise {A} e.

(** ** Iteration order of Python sets

    [list(set(xs))] and [for x in s] enumerate the elements of a set in an
    order the language leaves unspecified (it depends on the hashes, which
    are salted per process for strings).  The model takes the order as a
    parameter: a set that is iterated is represented by the list of the
    values added to it, and [set_iter] lists each of them once, in some
    order. *)
Class PySetOrder : Type := {
  set_iter : list string → list string;
  set_iter_NoDup : ∀ l, NoDup (set_iter l);
  elem_of_set_iter : ∀ l x, x ∈ set_iter l ↔ x ∈ l
}.

(** Two possible orders: first insertion first, and the reverse. *)
Definition insertion_order : PySetOrder :=
  {| set_iter := remove_dups;
     set_iter_NoDup := NoDup_remove_dups;
     elem_of_set_iter := λ l x, elem_of_remove_dups l x |}.

Definition reverse_order : PySetOrder :=
  {| set_iter := λ l, reverse (remove_dups l);
     set_iter_NoDup := λ l,
       proj2 (NoDup_Permutation_proper _ _ (reverse_Permutation (remove_dups l)))
             (NoDup_remove_dups l);
     elem_of_set_iter := λ l x,
       iff_trans (elem_of_reverse x (remove_dups l)) (elem_of_remove_dups l x) |}.

(** ** Path and URL helpers of the standard library, and its call stack

    [path_suffix] is [pathlib]'s [Path(p).suffix], [url_file_name] is
    [Path(urlparse(url).path).name] and [expanduser] is
    [Path(p).expanduser()]; the code only compares their results, so they
    are parameters of the model.

    The interpreter counts every call against its recursion limit, the
    calls that a lookup makes into [pathlib] and [json] included.
    [lookup_frames name] is the number of frames that
    [get_package(name)] needs below its own when it has to read files;
    [max_lookup_frames] bounds what one lookup needs, its own frame
    included. *)
Class Platform : Type := {
  path_suffix : string → string;
  url_file_name : string → string;
  expanduser : string → string;
  lookup_frames : string → nat;
  max_lookup_frames : nat;
  lookup_frames_lt : ∀ name, lookup_frames name < max_lookup_frames
}.

(** [a / b] on paths, for a relative [b]. *)
Definition join (a b : string) : string := a +:+ "/" +:+ b.

(** ** package.py *)
Module Package.

(** [package.source] is a dictionary read with [source.get(key)]: every
    key may be absent. *)
Record Source : Type := {
  type : option string;
  url : option string;
  branch : option string;
  tag : option string;
  commit : option string;
  path : option string
}.

Definition no_source : Source :=
  {| type := None; url := None; branch := None; tag := None;
     commit := None; path := None |}.

(** The manifest dictionary as parsed from JSON, restricted to the keys
    the resolver, the fetcher and the database read. *)
Record Manifest : Type := {
  m_name : option string;
  m_version : option string;
  m_source : option Source;
  m_dependencies : option (list string);
  m_build_dependencies : option (list string)
}.

Record t : Type := {
  name : string;
  version : string;
  source : Source;
  dependencies : list string;
  build_dependencies : list string
}.

(** [Package.__init__]: defaults from [manifest.get(key, default)], then
    [if not self.name: raise ValueError(...)]. *)
Definition __init__ (manifest : Manifest) : outcome t :=
  match m_name manifest with
  | None => Raise MissingName
  | Some n =>
      if decide (n = "") then Raise MissingName
      else Ok {| name := n;
                 version := default "latest" (m_version manifest);
                 source := default no_source (m_source manifest);
                 dependencies := default [] (m_dependencies manifest);
                 build_dependencies := default [] (m_build_dependencies manifest) |}
  end.

(** What a path holds, as far as [Package.from_file] can tell: JSON text
    of a manifest, or something on which [open]/[json.load] raises [e]. *)
Inductive file : Type :=
  | Json (manifest : Manifest)
  | Unreadable (e : exn).

Definition from_file (f : file) : outcome t :=
  match f with
  | Json manifest => __init__ manifest
  | Unreadable e => Raise e
  end.

(** [list(set(self.dependencies + self.build_dependencies))] *)
Definition get_all_dependencies `{!PySetOrder} (p : t) : list string :=
  set_iter (dependencies p ++ build_dependencies p).

(** [Package.to_dict], restricted to the same keys: each of them is
    written, with the value the object holds. *)
Definition to_dict (p : t) : Manifest :=
  {| m_name := Some (name p);
     m_version := Some (version p);
     m_source := Some (source p);
     m_dependencies := Some (dependencies p);
     m_build_dependencies := Some (build_dependencies p) |}.

End Package.

(** ** repository.py *)
Module Repository.

(** The repository object and the part of the file system it reads:
    [catalog] maps [name] to the content of [repo_dir / f"{name}.json"]
    when that file exists, [paths] maps a path string to the content of
    the file at that path, [_cache] is the lookup cache.  [lookups] is
    not a field of the Python object: it records the arguments of the
    calls of [get_package], oldest first, so that one can say which
    names were looked up. *)
Record t : Type := {
  catalog : gmap string Package.file;
  paths : gmap string Package.file;
  _cache : gmap string Package.t;
  lookups : list string
}.

Definition called (name : string) (r : t) : t :=
  {| catalog := catalog r; paths := paths r; _cache := _cache r;
     lookups := lookups r ++ [name] |}.

Definition cache_store (name : string) (p : Package.t) (r : t) : t :=
  {| catalog := catalog r; paths := paths r;
     _cache := <[name := p]> (_cache r); lookups := lookups r |}.

(** [package = Package.from_file(path); self._cache[name] = package;
     return package] *)
Definition load (name : string) (f : Package.file) (r : t)
    : outcome Package.t * t :=
  match Package.from_file f with
  | Ok p => (Ok p, cache_store name p r)
  | Raise e => (Raise e, r)
  end.

(** [Repository.get_package] *)
Definition get_package `{!Platform} (name : string) (r : t)
    : outcome Package.t * t :=
  let r := called name r in
  match _cache r !! name with
  | Some p => (Ok p, r)
  | None =>
      match catalog r !! name with
      | Some f => load name f r
      | None =>
          match paths r !! name with
          | Some f =>
              if decide (path_suffix name = ".json") then load name f r
              else (Raise (PackageNotFound name), r)
          | None => (Raise (PackageNotFound name), r)
          end
      end
  end.

(** The frames that the call [get_package(name)] needs, its own
    included: one when the cache answers, since the dictionary test and
    the dictionary read are no Python calls. *)
Definition frames `{!Platform} (name : string) (r : t) : nat :=
  match _cache r !! name with
  | Some _ => 1
  | None => S (lookup_frames name)
  end.

End Repository.

(** ** Control flow shared by the modules *)

(** [for x in xs: body(x)], where [body] may raise: the first exception
    ends the loop and escapes with the state reached. *)
Fixpoint for_each {S : Type} (body : string → S → outcome () * S)
    (xs : list string) (st : S) : outcome () * S :=
  match xs with
  | [] => (Ok (), st)
  | x :: xs' =>
      match body x st with
      | (Ok _, st') => for_each body xs' st'
      | (Raise e, st') => (Raise e, st')
      end
  end.

(** ** resolver.py *)
Module Resolver.

(** The variables [visit] closes over, with the repository object it
    reads through [self.repository]. *)
Record frame : Type := {
  resolved : list string;
  visited : gset string;
  processing : gset string;
  repository : Repository.t
}.

Definition set_repository (r : Repository.t) (st : frame) : frame :=
  {| resolved := resolved st; visited := visited st;
     processing := processing st; repository := r |}.

(** [processing.add(pkg_name)] *)
Definition enter (pkg_name : string) (st : frame) : frame :=
  {| resolved := resolved st; visited := visited st;
     processing := {[pkg_name]} ∪ processing st;
     repository := repository st |}.

(** [processing.remove(pkg_name); visited.add(pkg_name);
     if pkg_name not in resolved: resolved.append(pkg_name)] *)
Definition leave (pkg_name : string) (st : frame) : frame :=
  {| resolved := if decide (pkg_name ∈ resolved st) then resolved st
                 else resolved st ++ [pkg_name];
     visited := {[pkg_name]} ∪ visited st;
     processing := processing st ∖ {[pkg_name]};
     repository := repository st |}.

(** The nested function [visit].  [frames] is the number of frames the
    interpreter has left when [visit] is called.  With none left the
    call itself raises [RecursionError]: [visit(dep)] stands outside the
    [try], so that exception leaves every enclosing [visit] as it is.
    Otherwise the call takes one frame and leaves [below] for what it
    calls.  The lookup stands inside [try: ... except Exception as e:
    raise ValueError(...)]: when it does not fit in [below], the
    [RecursionError] it raises is caught there and leaves [visit] as the
    "Could not find package" error, after [processing.add(pkg_name)].
    The nested calls of [visit] start from [below] again, and
    [get_all_dependencies] needs one frame, which a lookup that fitted
    has shown to be there. *)
Fixpoint visit `{!PySetOrder, !Platform}
    (installed : gset string) (frames : nat) (pkg_name : string)
    (st : frame) : outcome () * frame :=
  match frames with
  | 0 => (Raise RecursionError, st)
  | S below =>
      if decide (pkg_name ∈ installed) then (Ok (), st)
      else if decide (pkg_name ∈ processing st)
      then (Raise (CircularDependency pkg_name), st)
      else if decide (pkg_name ∈ visited st) then (Ok (), st)
      else
        let st := enter pkg_name st in
        if decide (below < Repository.frames pkg_name (repository st))
        then (Raise (CouldNotFind pkg_name RecursionError),
              set_repository (Repository.called pkg_name (repository st)) st)
        else
          match Repository.get_package pkg_name (repository st) with
          | (Raise e, r) =>
              (Raise (CouldNotFind pkg_name e), set_repository r st)
          | (Ok package, r) =>
              match for_each (visit installed below)
                      (Package.get_all_dependencies package)
                      (set_repository r st) with
              | (Raise e, st) => (Raise e, st)
              | (Ok _, st) => (Ok (), leave pkg_name st)
              end
          end
  end.

(** [DependencyResolver.resolve]; [installed = None] stands for the
    empty set.  [limit] measures the stack at the call [visit(package_name)]
    in nested calls of [visit]: it is the number of frames left there
    beyond the [max_lookup_frames] that the lookup of the innermost call
    may need.  A chain of dependencies longer than [limit] therefore
    ends in the lookup that does not fit, never in a call of [visit]
    that does not. *)
Definition resolve `{!PySetOrder, !Platform} (limit : nat)
    (package_name : string) (installed : option (gset string))
    (r : Repository.t) : outcome (list string) * Repository.t :=
  let installed := default ∅ installed in
  let st := {| resolved := []; visited := ∅; processing := ∅;
               repository := r |} in
  match visit installed (limit + max_lookup_frames) package_name st with
  | (Ok _, st) => (Ok (resolved st), repository st)
  | (Raise e, st) => (Raise e, repository st)
  end.

(** The two dictionaries of [get_build_order].  A value of [graph] is a
    set that is iterated later, so it is kept as the list of the names
    added to it. *)
Record tables : Type := {
  graph : gmap string (list string);
  in_degree : gmap string Z
}.

(** [graph[dep].add(pkg_name); in_degree[pkg_name] += 1].  Both keys are
    present when this runs ([dep in packages], [pkg_name] from
    [packages]), so no [KeyError] is modelled. *)
Definition add_edge (dep pkg_name : string) (k : tables) : tables :=
  {| graph := <[dep := (graph k !!! dep) ++ [pkg_name]]> (graph k);
     in_degree := <[pkg_name := (in_degree k !!! pkg_name + 1)%Z]> (in_degree k) |}.

(** [for dep in package.get_all_dependencies(): if dep in packages: ...] *)
Definition add_edges (packages : list string) (pkg_name : string)
    (deps : list string) (k : tables) : tables :=
  foldl (λ k dep, if decide (dep ∈ packages) then add_edge dep pkg_name k
                  else k) k deps.

(** The first loop: a package whose lookup raises is skipped. *)
Fixpoint build_graph `{!PySetOrder, !Platform}
    (packages todo : list string) (k : tables) (r : Repository.t)
    : tables * Repository.t :=
  match todo with
  | [] => (k, r)
  | pkg_name :: todo' =>
      match Repository.get_package pkg_name r with
      | (Ok package, r') =>
          build_graph packages todo'
            (add_edges packages pkg_name
               (Package.get_all_dependencies package) k) r'
      | (Raise _, r') => build_graph packages todo' k r'
      end
  end.

(** [in_degree[dependent] -= 1; if in_degree[dependent] == 0:
     queue.append(dependent)] *)
Definition relax (s : gmap string Z * list string) (dependent : string)
    : gmap string Z * list string :=
  let d := (s.1 !!! dependent - 1)%Z in
  (<[dependent := d]> s.1,
   if decide (d = 0%Z) then s.2 ++ [dependent] else s.2).

(** [while queue: ...], at most [fuel] iterations; [None] when the queue
    is not empty after them. *)
Fixpoint drain `{!PySetOrder} (fuel : nat) (graph : gmap string (list string))
    (in_degree : gmap string Z) (queue result : list string)
    : option (list string) :=
  match queue with
  | [] => Some result
  | pkg :: queue' =>
      match fuel with
      | 0 => None
      | S fuel' =>
          let s := foldl relax (in_degree, queue') (set_iter (graph !!! pkg)) in
          drain fuel' graph s.1 s.2 (result ++ [pkg])
      end
  end.

(** The dictionary comprehensions [{pkg: set() for pkg in packages}] and
    [{pkg: 0 for pkg in packages}]. *)
Definition empty_tables (packages : list string) : tables :=
  {| graph := list_to_map ((λ pkg, (pkg, [])) <$> packages);
     in_degree := list_to_map ((λ pkg, (pkg, 0%Z)) <$> packages) |}.

(** [DependencyResolver.get_build_order], the loop run for at most
    [fuel] iterations. *)
Definition get_build_order_within `{!PySetOrder, !Platform}
    (fuel : nat) (packages : list string) (r : Repository.t)
    : option (outcome (list string) * Repository.t) :=
  let '(k, r) := build_graph packages packages (empty_tables packages) r in
  let queue := filter (λ pkg, in_degree k !!! pkg = 0%Z) packages in
  match drain fuel (graph k) (in_degree k) queue [] with
  | None => None
  | Some result =>
      if decide (length result ≠ length packages)
      then Some (Raise CircularBuildOrder, r)
      else Some (Ok result, r)
  end.

(** The loop dequeues at most one name per element of [packages]
    ([get_build_order_total] below), so that many iterations are
    enough. *)
Definition get_build_order `{!PySetOrder, !Platform}
    (packages : list string) (r : Repository.t)
    : option (outcome (list string) * Repository.t) :=
  get_build_order_within (length packages) packages r.

End Resolver.

(** ** database.py *)
Module Database.

Record record : Type := {
  name : string;
  version : string;
  install_path : string;
  installed_at : string;
  dependencies : list string
}.

(** What [installed.json] holds, as far as [json.load] can tell: a
    document mapping names to records, or text on which opening or
    parsing raises [e]. *)
Inductive content : Type :=
  | Document (d : gmap string record)
  | Unparsable (e : exn).

(** The database object with its backing file ([None]: no such file). *)
Record t : Type := {
  db_file : option content;
  _installed : gmap string record
}.

(** [Database._load]: [{}] when the file does not exist, and [{}] again
    when [open] or [json.load] raises ([except Exception]). *)
Definition _load (db_file : option content) : gmap string record :=
  match db_file with
  | None => ∅
  | Some (Document d) => d
  | Some (Unparsable _) => ∅
  end.

(** [Database.__init__], once the directory exists. *)
Definition __init__ (db_file : option content) : t :=
  {| db_file := db_file; _installed := _load db_file |}.

(** [Database._save]: the whole document is rewritten. *)
Definition _save (db : t) : t :=
  {| db_file := Some (Document (_installed db)); _installed := _installed db |}.

Definition is_installed (package_name : string) (db : t) : bool :=
  bool_decide (package_name ∈ dom (_installed db)).

(** [now] is [datetime.now().isoformat()]. *)
Definition add_package (package : Package.t) (install_path now : string)
    (db : t) : t :=
  _save {| db_file := db_file db;
           _installed :=
             <[Package.name package :=
                 {| name := Package.name package;
                    version := Package.version package;
                    install_path := install_path;
                    installed_at := now;
                    dependencies := Package.dependencies package |}]>
               (_installed db) |}.

Definition remove_package (package_name : string) (db : t) : t :=
  if is_installed package_name db
  then _save {| db_file := db_file db;
                _installed := delete package_name (_installed db) |}
  else db.

Definition get_package_info (package_name : string) (db : t) : option record :=
  _installed db !! package_name.

Definition get_all_installed (db : t) : gset string := dom (_installed db).

End Database.

(** ** The machine the fetcher and the builder act on *)

(** A file-system object.  An archive is a file whose extraction yields
    [members] as the top-level entries. *)
#[warnings="-register-all"]
Inductive node : Type :=
  | File (data : string)
  | Tarball (members : list (string * node))
  | Zip (members : list (string * node))
  | Dir (entries : list (string * node)).

(** An external step: a child process, a request of the built-in network
    client, or one of the two entry points of the builder (which is
    outside the claims and is not opened up). *)
Inductive event : Type :=
  | Command (argv : list string) (cwd : option string)
  | Urlopen (url : string)
  | Build (pkg : string)
  | Install (pkg : string).

Record machine : Type := {
  fs : gmap string node;       (* the paths that exist, with their content *)
  remote : gmap string node;   (* what a URL serves; absent: it cannot be had *)
  exec : event → bool;         (* does this step exit with status 0? *)
  absent : event → bool;       (* if not: is it that it cannot be started,
                                  for want of the program or of the
                                  working directory? *)
  trace : list event           (* the steps taken so far, oldest first *)
}.

(** State-and-exception monad over the machine. *)
Definition action (S A : Type) : Type := S → outcome A * S.

Definition ret {S A : Type} (a : A) : action S A := λ s, (Ok a, s).
Definition raise {S A : Type} (e : exn) : action S A := λ s, (Raise e, s).
Definition bind {S A B : Type} (m : action S A) (k : A → action S B)
    : action S B :=
  λ s, match m s with
       | (Ok a, s') => k a s'
       | (Raise e, s') => (Raise e, s')
       end.

Notation "'let*' x := m 'in' k" := (bind m (λ x, k))
  (at level 10, x pattern, m at level 100, k at level 200,
   format "'[v' 'let*'  x  :=  m  'in' '/' k ']'").
Notation "m ;; k" := (bind m (λ _, k))
  (at level 100, k at level 200, right associativity).

(** [if c: body] *)
Definition when {S : Type} (c : bool) (body : action S ()) : action S () :=
  if c then body else ret ().

(** A string tested as a condition: [None] and [""] are false. *)
Definition truthy (o : option string) : option string :=
  match o with
  | Some s => if decide (s = "") then None else Some s
  | None => None
  end.

Definition set_fs (f : gmap string node) (w : machine) : machine :=
  {| fs := f; remote := remote w; exec := exec w; absent := absent w;
     trace := trace w |}.

Definition log (e : event) (w : machine) : machine :=
  {| fs := fs w; remote := remote w; exec := exec w; absent := absent w;
     trace := trace w ++ [e] |}.

(** [path.exists()] *)
Definition exists_ (path : string) (w : machine) : bool :=
  bool_decide (is_Some (fs w !! path)).

(** [subprocess.run(argv, cwd=cwd, check=True, capture_output=True)]:
    a child process that ends with another status than 0 raises
    [CalledProcessError]; one that cannot be started raises
    [FileNotFoundError] from [subprocess.run] itself. *)
Definition run (argv : list string) (cwd : option string) : action machine () :=
  λ w, let w' := log (Command argv cwd) w in
       if exec w (Command argv cwd) then (Ok (), w')
       else if absent w (Command argv cwd) then (Raise FileNotFoundError, w')
       else (Raise (CalledProcessError argv), w').

(** [shutil.rmtree(path)]: the directory goes with all that it holds,
    which is the value kept at [path].  The machine is taken to keep no
    path inside a directory under a key of its own; such a key would
    stay. *)
Definition rmtree (path : string) : action machine () :=
  λ w, match fs w !! path with
       | Some (Dir _) => (Ok (), set_fs (delete path (fs w)) w)
       | _ => (Raise OSError, w)
       end.

(** [shutil.copytree(src, dst)] *)
Definition copytree (src dst : string) : action machine () :=
  λ w, match fs w !! src, fs w !! dst with
       | Some (Dir entries), None =>
           (Ok (), set_fs (<[dst := Dir entries]> (fs w)) w)
       | _, _ => (Raise OSError, w)
       end.

(** [path.mkdir(parents=True, exist_ok=True)] *)
Definition mkdir (path : string) : action machine () :=
  λ w, match fs w !! path with
       | None => (Ok (), set_fs (<[path := Dir []]> (fs w)) w)
       | Some (Dir _) => (Ok (), w)
       | Some _ => (Raise OSError, w)
       end.

(** ** fetcher.py *)
Module Fetcher.

(** [SourceFetcher._download_file]: one [curl] invocation; when it does
    not end with status 0 (or is absent, or times out), one request with
    [urllib]; a failure there is a [RuntimeError]. *)
Definition _download_file (url target_path : string) : action machine () :=
  λ w,
    let curl := Command ["curl"; "-L"; "-f"; "-o"; target_path; url] None in
    let w1 := log curl w in
    match exec w curl, remote w !! url with
    | true, Some n => (Ok (), set_fs (<[target_path := n]> (fs w1)) w1)
    | _, served =>
        let w2 := log (Urlopen url) w1 in
        match served with
        | Some n => (Ok (), set_fs (<[target_path := n]> (fs w2)) w2)
        | None => (Raise (DownloadFailed url), w2)
        end
    end.

(** [git clone --depth 1 url target_dir]; on success the checkout is at
    [target_dir]. *)
Definition clone (url target_dir : string) : action machine () :=
  run ["git"; "clone"; "--depth"; "1"; url; target_dir] None ;;
  λ w, let tree := match remote w !! url with
                   | Some (Dir entries) => Dir entries
                   | _ => Dir []
                   end in
       (Ok (), set_fs (<[target_dir := tree]> (fs w)) w).

Definition checkout (ref target_dir : string) : action machine () :=
  run ["git"; "checkout"; ref] (Some target_dir).

(** [SourceFetcher._fetch_git] *)
Definition _fetch_git (source : Package.Source) (target_dir : string)
    (force : bool) : action machine string :=
  match truthy (Package.url source) with
  | None => raise MissingUrl
  | Some url =>
      (λ w, match run ["git"; "--version"] None w with
            | (Ok _, w') => (Ok (), w')
            | (Raise _, w') => (Raise GitRequired, w')
            end) ;;
      let branch := default "main" (Package.branch source) in
      let tag := truthy (Package.tag source) in
      let commit := truthy (Package.commit source) in
      let fresh : action machine string :=
        clone url target_dir ;;
        match tag, commit with
        | Some t, _ => checkout t target_dir
        | None, Some c => checkout c target_dir
        | None, None =>
            when (negb (bool_decide (branch = "main")))
                 (checkout branch target_dir)
        end ;;
        ret target_dir in
      λ w,
        if exists_ target_dir w then
          if force then (rmtree target_dir ;; fresh) w
          else
            (* Update existing repo *)
            (run ["git"; "fetch"; "origin"] (Some target_dir) ;;
             match tag, commit with
             | Some t, _ => checkout t target_dir
             | None, Some c => checkout c target_dir
             | None, None => checkout branch target_dir
             end ;;
             ret target_dir) w
        else fresh w
  end.

(** The second half of the hoisting in [_fetch_tarball]: the single
    top-level directory has been renamed to [target_dir / "temp"], and
    each of its items is renamed to [target_dir / item.name].  The
    rename of an item called ["temp"] has the directory being emptied as
    destination and raises.  The result lists the entries of
    [target_dir]. *)
Fixpoint hoist_items (temp moved : list (string * node))
    : outcome () * list (string * node) :=
  match temp with
  | [] => (Ok (), moved)
  | (item_name, item) :: temp' =>
      if decide (item_name = "temp")
      then (Raise OSError, moved ++ [("temp", Dir temp)])
      else hoist_items temp' (moved ++ [(item_name, item)])
  end.

(** "Move contents if archive has a single top-level directory" *)
Definition hoist (target_dir : string) : action machine () :=
  λ w, match fs w !! target_dir with
       | Some (Dir [(_, Dir inner)]) =>
           let '(r, entries) := hoist_items inner [] in
           (r, set_fs (<[target_dir := Dir entries]> (fs w)) w)
       | _ => (Ok (), w)
       end.

(** [with tarfile.open(tarball_path) as tar: tar.extractall(target_dir)] *)
Definition untar (tarball_path target_dir : string) : action machine () :=
  λ w, match fs w !! tarball_path with
       | Some (Tarball members) =>
           (Ok (), set_fs (<[target_dir := Dir members]> (fs w)) w)
       | _ => (Raise OSError, w)
       end.

(** [with zipfile.ZipFile(zip_path) as zip_file: zip_file.extractall(target_dir)] *)
Definition unzip (zip_path target_dir : string) : action machine () :=
  λ w, match fs w !! zip_path with
       | Some (Zip members) =>
           (Ok (), set_fs (<[target_dir := Dir members]> (fs w)) w)
       | _ => (Raise OSError, w)
       end.

(** The file name under which an archive is kept in [source_dir]. *)
Definition archive_name `{!Platform} (url fallback : string) : string :=
  let filename := url_file_name url in
  if decide (filename = "" ∨ filename = "/") then fallback else filename.

(** [SourceFetcher._fetch_tarball] *)
Definition _fetch_tarball `{!Platform} (source_dir : string)
    (source : Package.Source) (target_dir : string) (force : bool)
    : action machine string :=
  match truthy (Package.url source) with
  | None => raise MissingUrl
  | Some url =>
      let tarball_path := join source_dir (archive_name url "source.tar.gz") in
      (λ w, when (negb (exists_ tarball_path w) || force)
                 (_download_file url tarball_path) w) ;;
      (λ w, when (exists_ target_dir w && force) (rmtree target_dir) w) ;;
      (λ w, when (negb (exists_ target_dir w))
                 (mkdir target_dir ;;
                  untar tarball_path target_dir ;;
                  hoist target_dir) w) ;;
      ret target_dir
  end.

(** [SourceFetcher._fetch_zip] *)
Definition _fetch_zip `{!Platform} (source_dir : string)
    (source : Package.Source) (target_dir : string) (force : bool)
    : action machine string :=
  match truthy (Package.url source) with
  | None => raise MissingUrl
  | Some url =>
      let zip_path := join source_dir (archive_name url "source.zip") in
      (λ w, when (negb (exists_ zip_path w) || force)
                 (_download_file url zip_path) w) ;;
      (λ w, when (exists_ target_dir w && force) (rmtree target_dir) w) ;;
      (λ w, when (negb (exists_ target_dir w))
                 (mkdir target_dir ;;
                  unzip zip_path target_dir) w) ;;
      ret target_dir
  end.

(** [SourceFetcher._fetch_local] *)
Definition _fetch_local `{!Platform} (source : Package.Source)
    (target_dir : string) : action machine string :=
  let path := expanduser (default "" (Package.path source)) in
  λ w,
    if negb (exists_ path w) then (Raise (LocalPathMissing path), w)
    else ((λ w, when (exists_ target_dir w) (rmtree target_dir) w) ;;
          copytree path target_dir ;;
          ret target_dir) w.

(** [SourceFetcher.fetch] *)
Definition fetch `{!Platform} (source_dir : string) (package : Package.t)
    (force : bool) : action machine string :=
  let source := Package.source package in
  let source_type := default "git" (Package.type source) in
  let package_source_dir := join source_dir (Package.name package) in
  λ w,
    if exists_ package_source_dir w && negb force
    then (Ok package_source_dir, w)
    else if decide (source_type = "git")
    then _fetch_git source package_source_dir force w
    else if decide (source_type = "tarball")
    then _fetch_tarball source_dir source package_source_dir force w
    else if decide (source_type = "zip")
    then _fetch_zip source_dir source package_source_dir force w
    else if decide (source_type = "local")
    then _fetch_local source package_source_dir w
    else (Raise (UnknownSourceType source_type), w).

End Fetcher.

(** ** builder.py, as far as the orchestrator sees it

    [Builder.build] and [Builder.install] run external tools; each is one
    step of the machine that either succeeds or raises. *)
Module Builder.

Definition step (e : event) : action machine () :=
  λ w, let w' := log e w in
       if exec w e then (Ok (), w') else (Raise (CalledProcessError []), w').

Definition build (package : Package.t) (source_dir build_dir : string)
    : action machine string :=
  step (Build (Package.name package)) ;; ret build_dir.

Definition install (package : Package.t) (source_dir build_dir : string)
    : action machine () :=
  step (Install (Package.name package)).

End Builder.

(** ** manager.py *)
Module Manager.

(** [config.py]: the directories derived from the prefix. *)
Record Config : Type := {
  build_dir : string;
  install_dir : string;
  source_dir : string
}.

(** The [PackageManager] object with the machine it runs on; [clock] is
    what [datetime.now().isoformat()] returns. *)
Record t : Type := {
  config : Config;
  repository : Repository.t;
  database : Database.t;
  host : machine;
  clock : string
}.

Definition set_repository (r : Repository.t) (m : t) : t :=
  {| config := config m; repository := r; database := database m;
     host := host m; clock := clock m |}.

Definition set_database (d : Database.t) (m : t) : t :=
  {| config := config m; repository := repository m; database := d;
     host := host m; clock := clock m |}.

Definition set_host (w : machine) (m : t) : t :=
  {| config := config m; repository := repository m;
     database := database m; host := w; clock := clock m |}.

(** Lifting the components' operations to the manager's state. *)
Definition on_repository {A : Type} (f : Repository.t → outcome A * Repository.t)
    : action t A :=
  λ m, let '(a, r) := f (repository m) in (a, set_repository r m).

Definition on_host {A : Type} (f : action machine A) : action t A :=
  λ m, let '(a, w) := f (host m) in (a, set_host w m).

(** The "Get package" block of [install] and [build]: a catalog lookup,
    and when it raises [ValueError], the specification as a file path. *)
Definition find_package `{!Platform} (package_spec : string)
    : action t Package.t :=
  λ m,
    match Repository.get_package package_spec (repository m) with
    | (Ok package, r) => (Ok package, set_repository r m)
    | (Raise e, r) =>
        if is_ValueError e then
          match Repository.paths r !! package_spec with
          | Some f => (Package.from_file f, set_repository r m)
          | None => (Raise (PackageNotFound package_spec), set_repository r m)
          end
        else (Raise e, set_repository r m)
    end.

(** [PackageManager._install_package] *)
Definition _install_package `{!Platform} (package_name : string)
    (force : bool) : action t () :=
  let* package := on_repository (Repository.get_package package_name) in
  λ m,
    (let* source_dir :=
       on_host (Fetcher.fetch (source_dir (config m)) package force) in
     let build_dir := join (build_dir (config m)) (Package.name package) in
     on_host (Builder.build package source_dir build_dir) ;;
     on_host (Builder.install package source_dir build_dir) ;;
     λ m, (Ok (), set_database
                    (Database.add_package package (install_dir (config m))
                       (clock m) (database m)) m)) m.

(** The body of "Install dependencies first". *)
Definition install_dependency `{!Platform} (package : Package.t)
    (force : bool) (dep_name : string) : action t () :=
  λ m,
    if decide (dep_name = Package.name package) then (Ok (), m)
    else if Database.is_installed dep_name (database m) && negb force
    then (Ok (), m)
    else _install_package dep_name force m.

(** [PackageManager.install]; [None] only if the loop of
    [get_build_order] does not end. *)
Definition install `{!PySetOrder, !Platform} (limit : nat)
    (package_spec : string) (force : bool) (m : t)
    : option (outcome () * t) :=
  match find_package package_spec m with
  | (Raise e, m) => Some (Raise e, m)
  | (Ok package, m) =>
      if Database.is_installed (Package.name package) (database m)
         && negb force
      then Some (Ok (), m)
      else
        let installed := Database.get_all_installed (database m) in
        match Resolver.resolve limit (Package.name package)
                (Some installed) (repository m) with
        | (Raise e, r) => Some (Raise e, set_repository r m)
        | (Ok dependencies, r) =>
            match Resolver.get_build_order dependencies r with
            | None => None
            | Some (Raise e, r) => Some (Raise e, set_repository r m)
            | Some (Ok build_order, r) =>
                Some ((for_each (install_dependency package force) build_order ;;
                       _install_package (Package.name package) force)
                        (set_repository r m))
            end
        end
  end.

(** [PackageManager.remove]: the record is deleted when there is one;
    nothing else is touched. *)
Definition remove (package_name : string) (m : t) : t :=
  if Database.is_installed package_name (database m)
  then set_database (Database.remove_package package_name (database m)) m
  else m.

(** [PackageManager.build]: the package is found as in [install], its
    source is fetched without force, and it is built. *)
Definition build `{!Platform} (package_spec : string) : action t () :=
  let* package := find_package package_spec in
  λ m,
    (let* source_dir :=
       on_host (Fetcher.fetch (source_dir (config m)) package false) in
     let build_dir := join (build_dir (config m)) (Package.name package) in
     on_host (Builder.build package source_dir build_dir) ;;
     ret ()) m.

End Manager.

(** ** builder.py, statement by statement

    The module [Builder] above is the builder as [PackageManager] sees
    it.  This one follows [builder.py] itself: the attributes of the
    package that only the builder reads, the dispatch on the build
    system and the commands each build system runs.  A child process is
    a step of the machine, as in the fetcher; the environment that is
    passed to it is computed by [_prepare_environment] and is not part
    of the recorded step. *)

(** [str.lower()]; the code only compares its result with six names, so
    it is a parameter, as the path helpers are. *)
Class Casing : Type := {
  lower : string → string
}.

Module BuildSystems.

(** An element of [build_commands] or [install_commands]: a string is
    run through the shell, a list is run as it is. *)
Inductive command : Type :=
  | Shell (line : string)
  | Argv (argv : list string).

(** The attributes of a [Package] that the builder reads. *)
Record Recipe : Type := {
  build_system : string;
  build_commands : list command;
  configure_args : list string;
  cmake_args : list string;
  make_args : list string;
  install_commands : list command;
  env : gmap string string;
  patches : list string
}.

(** What the builder reads of the configuration and of the process:
    [config.install_dir], [config.env], [os.environ] and
    [sys.executable]. *)
Record Settings : Type := {
  install_dir : string;
  config_env : gmap string string;
  environ : gmap string string;
  executable : string
}.

(** What [Builder.build] gives: the build directory, the [ValueError]
    for a build system it does not know, or an exception of one of the
    operations it performs. *)
Inductive result : Type :=
  | Built (build_dir : string)
  | UnknownBuildSystem (build_system : string)
  | Failed (e : exn).

Definition of_outcome (r : outcome string * machine) : result * machine :=
  match r with
  | (Ok build_dir, w) => (Built build_dir, w)
  | (Raise e, w) => (Failed e, w)
  end.

(** [Builder._prepare_environment]: [os.environ.copy()], updated with
    [config.env], updated with [package.env]. *)
Definition _prepare_environment (config : Settings) (package : Recipe)
    : gmap string string :=
  env package ∪ (config_env config ∪ environ config).

(** [subprocess.run(line, shell=True, cwd=cwd, check=True)]: the
    program that is started is the shell, so [FileNotFoundError] is for
    a missing working directory, and a command that is not found is a
    status of the shell. *)
Definition shell (line : string) (cwd : option string) : action machine () :=
  λ w, let e := Command ["/bin/sh"; "-c"; line] cwd in
       if exec w e then (Ok (), log e w)
       else if absent w e then (Raise FileNotFoundError, log e w)
       else (Raise (CalledProcessError [line]), log e w).

(** The body of the loops over [build_commands] and
    [install_commands]. *)
Definition run_command (cwd : string) (cmd : command) : action machine () :=
  match cmd with
  | Shell line => shell line (Some cwd)
  | Argv argv => run argv (Some cwd)
  end.

Fixpoint run_commands (cwd : string) (cmds : list command)
    : action machine () :=
  match cmds with
  | [] => ret ()
  | cmd :: cmds' => run_command cwd cmd ;; run_commands cwd cmds'
  end.

(** The body of the loop of [Builder._apply_patches]: a patch file that
    does not exist is skipped with a warning. *)
Definition apply_patch `{!Platform} (source_dir patch : string)
    : action machine () :=
  let patch_path := expanduser patch in
  λ w, if negb (exists_ patch_path w) then (Ok (), w)
       else run ["patch"; "-p1"; "-i"; patch_path] (Some source_dir) w.

Definition _apply_patches `{!Platform} (source_dir : string)
    (patches : list string) : action machine () :=
  for_each (apply_patch source_dir) patches.

Definition _build_custom (package : Recipe) (source_dir build_dir : string)
    : action machine string :=
  run_commands source_dir (build_commands package) ;; ret build_dir.

(** [(dir / name).exists()]: the path is one the machine holds, or an
    entry of the directory it holds at [dir]. *)
Definition has_entry (dir name : string) (w : machine) : bool :=
  exists_ (join dir name) w
  || match fs w !! dir with
     | Some (Dir entries) => bool_decide (name ∈ entries.*1)
     | _ => false
     end.

Definition _build_autotools (config : Settings) (package : Recipe)
    (source_dir build_dir : string) : action machine string :=
  (λ w, when (negb (has_entry source_dir "configure" w)
              && (has_entry source_dir "configure.ac" w
                  || has_entry source_dir "configure.in" w))
          (run ["autoreconf"; "-fiv"] (Some source_dir)) w) ;;
  run (["./configure"; "--prefix=" +:+ install_dir config]
         ++ configure_args package) (Some source_dir) ;;
  run ("make" :: make_args package) (Some source_dir) ;;
  ret build_dir.

Definition _build_cmake (config : Settings) (package : Recipe)
    (source_dir build_dir : string) : action machine string :=
  run (["cmake"; "-S"; source_dir; "-B"; build_dir;
        "-DCMAKE_INSTALL_PREFIX=" +:+ install_dir config]
         ++ cmake_args package) None ;;
  run (["cmake"; "--build"; build_dir] ++ make_args package) None ;;
  ret build_dir.

Definition _build_make (package : Recipe) (source_dir build_dir : string)
    : action machine string :=
  run ("make" :: make_args package) (Some source_dir) ;;
  ret build_dir.

Definition _build_meson (config : Settings) (source_dir build_dir : string)
    : action machine string :=
  run ["meson"; "setup"; build_dir; source_dir;
       "--prefix=" +:+ install_dir config] None ;;
  run ["meson"; "compile"; "-C"; build_dir] None ;;
  ret build_dir.

Definition _build_cargo (source_dir build_dir : string)
    : action machine string :=
  run ["cargo"; "build"; "--release"] (Some source_dir) ;;
  ret build_dir.

Definition _build_python (config : Settings) (source_dir build_dir : string)
    : action machine string :=
  run [executable config; "-m"; "pip"; "install"; "--prefix";
       install_dir config; "."] (Some source_dir) ;;
  ret build_dir.

(** [Builder.build] *)
Definition build `{!Platform, !Casing} (config : Settings) (package : Recipe)
    (source_dir build_dir : string) : machine → result * machine :=
  λ w,
    match (mkdir build_dir ;;
           when (bool_decide (patches package ≠ []))
             (_apply_patches source_dir (patches package))) w with
    | (Raise e, w) => (Failed e, w)
    | (Ok _, w) =>
        if bool_decide (build_commands package ≠ [])
        then of_outcome (_build_custom package source_dir build_dir w)
        else
          let build_system := lower (build_system package) in
          if decide (build_system = "autotools")
          then of_outcome (_build_autotools config package source_dir build_dir w)
          else if decide (build_system = "cmake")
          then of_outcome (_build_cmake config package source_dir build_dir w)
          else if decide (build_system = "make")
          then of_outcome (_build_make package source_dir build_dir w)
          else if decide (build_system = "meson")
          then of_outcome (_build_meson config source_dir build_dir w)
          else if decide (build_system = "cargo")
          then of_outcome (_build_cargo source_dir build_dir w)
          else if decide (build_system = "python")
          then of_outcome (_build_python config source_dir build_dir w)
          else (UnknownBuildSystem build_system, w)
    end.

(** [Builder.install]: the custom install commands if there are any,
    else the install command of the build system; for python, and for a
    build system that is none of the six, no branch is taken. *)
Definition install `{!Casing} (config : Settings) (package : Recipe)
    (source_dir build_dir : string) : action machine () :=
  if bool_decide (install_commands package ≠ [])
  then run_commands source_dir (install_commands package)
  else
    let build_system := lower (build_system package) in
    if decide (build_system = "autotools")
    then run ["make"; "install"] (Some source_dir)
    else if decide (build_system = "cmake")
    then run ["cmake"; "--install"; build_dir] None
    else if decide (build_system = "meson")
    then run ["meson"; "install"; "-C"; build_dir] None
    else if decide (build_system = "make")
    then run ["make"; "install"; "PREFIX=" +:+ install_dir config]
           (Some source_dir)
    else if decide (build_system = "cargo")
    then run ["cargo"; "install"; "--path"; "."; "--root"; install_dir config]
           (Some source_dir)
    else ret ().

End BuildSystems.

(** * Vocabulary of the statements *)

(** What a lookup of [name] gives in repository state [r]. *)
Definition lookup_result `{!Platform} (r : Repository.t) (name : string)
    : outcome Package.t :=
  (Repository.get_package name r).1.

(** [a] has a manifest that lists [b] under [dependencies] or
    [build_dependencies]. *)
Definition depends `{!Platform} (r : Repository.t) (a b : string) : Prop :=
  ∃ p, lookup_result r a = Ok p
       ∧ b ∈ Package.dependencies p ++ Package.build_dependencies p.

(** The edges the resolver follows: a dependency that is not installed. *)
Definition needs `{!Platform} (r : Repository.t) (installed : gset string)
    (a b : string) : Prop :=
  depends r a b ∧ b ∉ installed.

(** [b] occurs in [l] at a smaller index than [a]. *)
Definition before (l : list string) (b a : string) : Prop :=
  ∃ i j, l !! i = Some b ∧ l !! j = Some a ∧ i < j.

(** Every name with a manifest is one of these. *)
Definition known (r : Repository.t) : gset string :=
  dom (Repository._cache r) ∪ dom (Repository.catalog r)
  ∪ dom (Repository.paths r).


(** The dependencies of [pkg] that [get_build_order packages] counts. *)
Definition preds `{!PySetOrder, !Platform} (r : Repository.t)
    (packages : list string) (pkg : string) : list string :=
  match lookup_result r pkg with
  | Ok p => filter (λ dep, dep ∈ packages) (Package.get_all_dependencies p)
  | Raise _ => []
  end.

(** How many of them are not in [result] yet. *)
Definition pending `{!PySetOrder, !Platform} (r : Repository.t)
    (packages result : list string) (x : string) : nat :=
  length (filter (λ d, d ∉ result) (preds r packages x)).

(** [pkg] and [dep] are both in [packages], and [pkg] depends on [dep]. *)
Definition build_edge `{!Platform} (r : Repository.t) (packages : list string)
    (pkg dep : string) : Prop :=
  pkg ∈ packages ∧ dep ∈ packages ∧ depends r pkg dep.

(** The statements about the traversal of [resolve]. *)
Section visit_vocabulary.
Context `{!PySetOrder, !Platform}.
Variables (installed : gset string) (r0 : Repository.t).

Local Abbreviation R := (needs r0 installed).

(** What holds of the variables of [resolve] between two calls of
    [visit], for a traversal that started in repository state [r0]. *)
Record inv (st : Resolver.frame) : Prop := {
  inv_repo : ∀ n, lookup_result (Resolver.repository st) n = lookup_result r0 n;
  inv_nodup : NoDup (Resolver.resolved st);
  inv_visited : ∀ n, n ∈ Resolver.visited st ↔ n ∈ Resolver.resolved st;
  inv_order : ∀ a b, a ∈ Resolver.resolved st → R a b →
                     before (Resolver.resolved st) b a;
  inv_disjoint : ∀ n, n ∈ Resolver.visited st → n ∉ Resolver.processing st;
  inv_processing : Resolver.processing st ⊆ known r0;
  inv_fresh : ∀ n, n ∈ Resolver.resolved st → n ∉ installed
}.

(** The result of [visit n] from [st]. *)
Definition visit_post (n : string) (st : Resolver.frame)
    (res : outcome () * Resolver.frame) : Prop :=
  match res with
  | (Ok _, st') =>
      inv st'
      ∧ Resolver.processing st' = Resolver.processing st
      ∧ (∃ l, Resolver.resolved st' = Resolver.resolved st ++ l
              ∧ ∀ x, x ∈ l → (n ∉ installed) ∧ rtc R n x)
      ∧ (n ∉ installed → n ∈ Resolver.resolved st')
  | (Raise (CircularDependency m), _) =>
      (n ∉ installed) ∧ rtc R n m ∧ tc R m m
  | (Raise (CouldNotFind m e), _) =>
      (n ∉ installed) ∧ rtc R n m ∧ lookup_result r0 m = Raise e
  | (Raise _, _) => False
  end.

(** The result of the loop over the dependencies [deps] of [n]. *)
Definition deps_post (n : string) (deps : list string) (st : Resolver.frame)
    (res : outcome () * Resolver.frame) : Prop :=
  match res with
  | (Ok _, st') =>
      inv st'
      ∧ Resolver.processing st' = Resolver.processing st
      ∧ (∃ l, Resolver.resolved st' = Resolver.resolved st ++ l
              ∧ ∀ x, x ∈ l → rtc R n x)
      ∧ (∀ d, d ∈ deps → d ∉ installed → d ∈ Resolver.resolved st')
  | (Raise (CircularDependency m), _) => rtc R n m ∧ tc R m m
  | (Raise (CouldNotFind m e), _) =>
      rtc R n m ∧ lookup_result r0 m = Raise e
  | (Raise _, _) => False
  end.

Definition visit_pre (frames : nat) (n : string) (st : Resolver.frame) : Prop :=
  inv st
  ∧ size (known r0) + max_lookup_frames < size (Resolver.processing st) + frames
  ∧ (n ∉ installed → ∀ m, m ∈ Resolver.processing st → tc R m n).

(** [st'] extends [st] by lookups and results that are not installed
    names. *)
Definition frame_ext (st st' : Resolver.frame) : Prop :=
  (∃ l, Repository.lookups (Resolver.repository st')
        = Repository.lookups (Resolver.repository st) ++ l
        ∧ ∀ x, x ∈ l → x ∉ installed)
  ∧ (∃ l, Resolver.resolved st' = Resolver.resolved st ++ l
          ∧ ∀ x, x ∈ l → x ∉ installed).

End visit_vocabulary.

(** What holds of the variables of the loop of [get_build_order] each time
    its condition is tested, for duplicate-free [packages]. *)
Record drain_inv `{!PySetOrder, !Platform} (r : Repository.t)
    (packages : list string) (in_degree : gmap string Z)
    (queue result : list string) : Prop := {
  di_nodup : NoDup (result ++ queue);
  di_sub : ∀ x, x ∈ result ++ queue → x ∈ packages;
  di_deg : ∀ x, x ∈ packages →
                in_degree !!! x = Z.of_nat (pending r packages result x);
  di_zero : ∀ x, x ∈ packages →
                 (x ∈ result ++ queue ↔ pending r packages result x = 0);
  di_order : ∀ x d, x ∈ result → d ∈ preds r packages x → before result d x
}.

(** The number of input names whose counter is positive: with the length
    of the queue, the quantity that each iteration of the loop of
    [get_build_order] decreases by one. *)
Definition positive (packages : list string) (in_degree : gmap string Z) : nat :=
  length (filter (λ x, (0 < in_degree !!! x)%Z) (remove_dups packages)).

(** [walk E x l]: [l] lists the successive nodes of a walk that leaves
    [x]. *)
Fixpoint walk (E : relation string) (x : string) (l : list string) : Prop :=
  match l with
  | [] => True
  | y :: l' => E x y ∧ walk E y l'
  end.



(** * Example data *)

(** A stand-in for the path helpers: the suffix starts at the last dot,
    the file name of a URL follows its last slash, and no path starts
    with a tilde.  A lookup that reads files needs seven frames below
    its own. *)
Fixpoint from_last (c : string) (s : string) : option string :=
  match s with
  | EmptyString => None
  | String a s' =>
      match from_last c s' with
      | Some t => Some t
      | None => if decide (String a EmptyString = c) then Some s else None
      end
  end.

Definition example_platform : Platform :=
  {| path_suffix := λ p, default "" (from_last "." p);
     url_file_name := λ u, match from_last "/" u with
                           | Some (String _ name) => name
                           | _ => u
                           end;
     expanduser := λ p, p;
     lookup_frames := λ _, 7;
     max_lookup_frames := 8;
     lookup_frames_lt := λ _, le_n 8 |}.

(** A manifest file with a name and its two dependency lists. *)
Definition manifest (name : string) (deps build_deps : list string)
    : Package.file :=
  Package.Json {| Package.m_name := Some name;
                  Package.m_version := None;
                  Package.m_source := None;
                  Package.m_dependencies := Some deps;
                  Package.m_build_dependencies := Some build_deps |}.

(** A freshly constructed repository over a directory with these
    manifest files. *)
Definition catalog_of (entries : list (string * Package.file)) : Repository.t :=
  {| Repository.catalog := list_to_map entries;
     Repository.paths := ∅;
     Repository._cache := ∅;
     Repository.lookups := [] |}.

(** libB depends on libA. *)
Definition chain : Repository.t :=
  catalog_of [("libA", manifest "libA" [] []);
              ("libB", manifest "libB" ["libA"] [])].


(** A and B depend on each other. *)
Definition cyclic : Repository.t :=
  catalog_of [("A", manifest "A" ["B"] []);
              ("B", manifest "B" ["A"] [])].

(** app depends on ghost, which has no manifest, and on A, which is on a
    cycle. *)
Definition cyclic_dangling : Repository.t :=
  catalog_of [("app", manifest "app" ["ghost"; "A"] []);
              ("A", manifest "A" ["B"] []);
              ("B", manifest "B" ["A"] [])].

(** libB depends on libA, whose manifest cannot be parsed. *)
Definition orphaned : Repository.t :=
  catalog_of [("libA", Package.Unreadable JSONDecodeError);
              ("libB", manifest "libB" ["libA"] [])].

(** A repository state in which the cache holds nothing but what the
    files give: the state of a new [Repository], and of every state that
    lookups lead to from there. *)
Definition uncached (r : Repository.t) : Repository.t :=
  {| Repository.catalog := Repository.catalog r;
     Repository.paths := Repository.paths r;
     Repository._cache := ∅;
     Repository.lookups := Repository.lookups r |}.

Definition coherent `{!Platform} (r : Repository.t) : Prop :=
  ∀ n p, Repository._cache r !! n = Some p → lookup_result (uncached r) n = Ok p.

(** A machine on which every external step succeeds and nothing has
    happened yet. *)
Definition machine_with (files served : list (string * node)) : machine :=
  {| fs := list_to_map files; remote := list_to_map served;
     exec := λ _, true; absent := λ _, false; trace := [] |}.

Definition source_of (kind : string) (url path : option string)
    : Package.Source :=
  {| Package.type := Some kind; Package.url := url; Package.branch := None;
     Package.tag := None; Package.commit := None; Package.path := path |}.

Definition package_of (name : string) (source : Package.Source) : Package.t :=
  {| Package.name := name; Package.version := "latest";
     Package.source := source; Package.dependencies := [];
     Package.build_dependencies := [] |}.


Definition stale_copy : machine :=
  machine_with [("/home/dev/tool", Dir [("main.c", File "new")]);
                ("/srv/sources/tool", Dir [("main.c", File "old")])] [].

(** A package under version control, already cloned. *)
Definition lib : Package.t :=
  package_of "lib" (source_of "git" (Some "https://example.org/lib.git") None).

Definition cloned : machine :=
  machine_with [("/srv/sources/lib", Dir [("README", File "v1")])] [].

(** The same project tree, once packed as a tarball and once as a zip
    file, each with the single top-level directory proj-1.0. *)
Definition project : list (string * node) :=
  [("proj-1.0", Dir [("configure", File "#!/bin/sh"); ("src", Dir [])])].

Definition proj_tar : Package.t :=
  package_of "proj"
    (source_of "tarball" (Some "https://example.org/proj-1.0.tar.gz") None).

Definition proj_zip : Package.t :=
  package_of "proj"
    (source_of "zip" (Some "https://example.org/proj-1.0.zip") None).

Definition mirror : machine :=
  machine_with []
    [("https://example.org/proj-1.0.tar.gz", Tarball project);
     ("https://example.org/proj-1.0.zip", Zip project)].

(** A manager over a repository, with the named packages recorded as
    installed. *)
Definition installed_record (name : string) : Database.record :=
  {| Database.name := name; Database.version := "latest";
     Database.install_path := "/tsi/install";
     Database.installed_at := "2024-01-01T00:00:00";
     Database.dependencies := [] |}.

Definition manager_with (r : Repository.t) (installed : list string)
    : Manager.t :=
  {| Manager.config := {| Manager.build_dir := "/tsi/build";
                          Manager.install_dir := "/tsi/install";
                          Manager.source_dir := "/tsi/sources" |};
     Manager.repository := r;
     Manager.database :=
       Database.__init__
         (Some (Database.Document
                  (list_to_map ((λ n, (n, installed_record n)) <$> installed))));
     Manager.host := machine_with [] [];
     Manager.clock := "2024-06-01T12:00:00" |}.

(** A manifest for a package named hello, kept outside the catalog in a
    file that does not end in .json. *)
Definition hello_only : Repository.t :=
  {| Repository.catalog := ∅;
     Repository.paths := {["pkgs/hello.manifest" := manifest "hello" [] []]};
     Repository._cache := ∅;
     Repository.lookups := [] |}.

(** ** Vocabulary for the machine *)

(** A child process or a request, as opposed to an entry point of the
    builder. *)
Definition transfer (e : event) : Prop :=
  match e with
  | Command _ _ | Urlopen _ => True
  | Build _ | Install _ => False
  end.

(** [w'] is reached from [w] by child processes and requests: what the
    URLs serve and which steps succeed are unchanged, and the steps
    taken are appended to the ones before. *)
Definition reaches (w w' : machine) : Prop :=
  remote w' = remote w
  ∧ exec w' = exec w
  ∧ ∃ l, trace w' = trace w ++ l ∧ Forall transfer l.

(** Every run of [m] is of that kind. *)
Definition confined {A : Type} (m : action machine A) : Prop :=
  ∀ w, reaches w (m w).2.

(** An action whose outcome and effect are determined by the files: it
    takes no step, and it reads nothing else of the machine. *)
Definition files_only {A : Type} (m : action machine A) : Prop :=
  ∀ w, ∃ o f, ∀ w0, fs w0 = fs w → m w0 = (o, set_fs f w0).

(** ** Vocabulary for the orchestrator *)

(** [m'] is a state the orchestrator reaches from [m]: the configuration
    and the clock are the same, every lookup gives the same result, no
    record has gone from the database, and the steps taken on the
    machine are appended to the ones before. *)
Definition advances `{!Platform} (m m' : Manager.t) : Prop :=
  Manager.config m' = Manager.config m
  ∧ Manager.clock m' = Manager.clock m
  ∧ (∀ n, lookup_result (Manager.repository m') n
          = lookup_result (Manager.repository m) n)
  ∧ Database.get_all_installed (Manager.database m)
    ⊆ Database.get_all_installed (Manager.database m')
  ∧ ∃ l, trace (Manager.host m') = trace (Manager.host m) ++ l.

(** ** Vocabulary for the builder *)

(** The steps that are taken when [steps] are run in order on [w] and
    the first one that fails ends the run. *)
Fixpoint attempts (w : machine) (steps : list event) : list event :=
  match steps with
  | [] => []
  | e :: steps' => if exec w e then e :: attempts w steps' else [e]
  end.

(** A run of [m] on [w] takes the steps [steps] up to the first one that
    fails, succeeds exactly when none fails, and writes no file
    itself. *)
Definition takes {A : Type} (m : action machine A) (steps : list event)
    (w : machine) : Prop :=
  exec (m w).2 = exec w
  ∧ fs (m w).2 = fs w
  ∧ trace (m w).2 = trace w ++ attempts w steps
  ∧ ((∃ a, (m w).1 = Ok a) ↔ ∀ e, e ∈ steps → exec w e = true).

(** The step as which a custom command is run in [cwd]. *)
Definition command_step (cwd : string) (cmd : BuildSystems.command) : event :=
  match cmd with
  | BuildSystems.Shell line => Command ["/bin/sh"; "-c"; line] (Some cwd)
  | BuildSystems.Argv argv => Command argv (Some cwd)
  end.

(** The step as which a patch is applied in [source_dir]. *)
Definition patch_step `{!Platform} (source_dir patch : string) : event :=
  Command ["patch"; "-p1"; "-i"; expanduser patch] (Some source_dir).

(** ** More example data *)

(** A package whose source type is none of the four, named like the one
    with the stale copy. *)
Definition odd : Package.t :=
  package_of "tool" (source_of "svn" None None).

(** A server that answers the tarball's URL with an error page. *)
Definition error_page : machine :=
  machine_with []
    [("https://example.org/proj-1.0.tar.gz", File "<html>Not Found</html>")].

(** A machine that holds the tarball in the source directory and serves
    nothing. *)
Definition offline : machine :=
  machine_with [("/srv/sources/proj-1.0.tar.gz", Tarball project)] [].

(** The package [lib] pinned to a tag, and a machine that has no clone
    of it yet. *)
Definition lib_tagged : Package.t :=
  package_of "lib"
    {| Package.type := None;
       Package.url := Some "https://example.org/lib.git";
       Package.branch := Some "develop";
       Package.tag := Some "v1.2";
       Package.commit := None;
       Package.path := None |}.

Definition upstream : machine :=
  machine_with [] [("https://example.org/lib.git", Dir [("README", File "v1")])].

(** Lower case for the letters A to Z. *)
Definition ascii_lower (a : Ascii.ascii) : Ascii.ascii :=
  let n := Ascii.nat_of_ascii a in
  if (65 <=? n) && (n <=? 90) then Ascii.ascii_of_nat (n + 32) else a.

Fixpoint string_lower (s : string) : string :=
  match s with
  | EmptyString => EmptyString
  | String a s' => String (ascii_lower a) (string_lower s')
  end.

Definition example_casing : Casing := {| lower := string_lower |}.

Definition settings : BuildSystems.Settings :=
  {| BuildSystems.install_dir := "/tsi/install";
     BuildSystems.config_env := ∅;
     BuildSystems.environ := ∅;
     BuildSystems.executable := "/usr/bin/python3" |}.

(** A recipe for the named build system, with nothing else set. *)
Definition recipe_of (build_system : string) : BuildSystems.Recipe :=
  {| BuildSystems.build_system := build_system;
     BuildSystems.build_commands := [];
     BuildSystems.configure_args := [];
     BuildSystems.cmake_args := [];
     BuildSystems.make_args := [];
     BuildSystems.install_commands := [];
     BuildSystems.env := ∅;
     BuildSystems.patches := [] |}.

(** A recipe with two build commands, the first through the shell. *)
Definition scripted : BuildSystems.Recipe :=
  {| BuildSystems.build_system := "none";
     BuildSystems.build_commands :=
       [BuildSystems.Shell "./bootstrap && ./configure";
        BuildSystems.Argv ["make"; "-j4"]];
     BuildSystems.configure_args := [];
     BuildSystems.cmake_args := [];
     BuildSystems.make_args := [];
     BuildSystems.install_commands := [];
     BuildSystems.env := ∅;
     BuildSystems.patches := [] |}.

(** A machine that holds an unpacked source tree with a configure
    script, and one patch file out of two. *)
Definition unpacked : machine :=
  machine_with
    [("/tsi/sources/zlib", Dir [("configure", File "#!/bin/sh"); ("src", Dir [])]);
     ("/patches/fix-a.patch", File "--- a")] [].

(** * Proofs *)

(** ** Lists and the order of their elements *)

Lemma before_app_l (l k : list string) (b a : string) :
  before l b a → before (l ++ k) b a.
Proof.
  intros (i & j & Hi & Hj & Hij). exists i, j.
  split_and!; [by apply lookup_app_l_Some | by apply lookup_app_l_Some | done].
Qed.

Lemma before_snoc (l : list string) (b a : string) :
  b ∈ l → before (l ++ [a]) b a.
Proof.
  intros [i Hi]%list_elem_of_lookup. exists i, (length l).
  split_and!.
  - by apply lookup_app_l_Some.
  - by rewrite list_lookup_middle.
  - by eapply lookup_lt_Some.
Qed.

Lemma before_elem_of (l : list string) (b a : string) :
  before l b a → b ∈ l ∧ a ∈ l.
Proof.
  intros (i & j & Hi & Hj & _). split; eapply list_elem_of_lookup_2; eauto.
Qed.

Lemma before_trans (l : list string) (c b a : string) :
  NoDup l → before l c b → before l b a → before l c a.
Proof.
  intros Hnd (i & j & Hi & Hj & Hij) (i' & j' & Hi' & Hj' & Hij').
  assert (j = i') as -> by (eapply NoDup_lookup; eauto).
  exists i, j'. split_and!; [done | done | lia].
Qed.

Lemma before_irrefl (l : list string) (a : string) :
  NoDup l → ¬ before l a a.
Proof.
  intros Hnd (i & j & Hi & Hj & Hij).
  assert (i = j) by (eapply NoDup_lookup; eauto). lia.
Qed.

(** ** The repository *)
Section repository.
Context `{!Platform}.

Lemma get_package_lookups name r :
  Repository.lookups (Repository.get_package name r).2
  = Repository.lookups r ++ [name].
Proof.
  unfold Repository.get_package, Repository.load. cbn.
  repeat (case_match; cbn; try done).
Qed.

Lemma get_package_files name r :
  Repository.catalog (Repository.get_package name r).2 = Repository.catalog r
  ∧ Repository.paths (Repository.get_package name r).2 = Repository.paths r.
Proof.
  unfold Repository.get_package, Repository.load. cbn.
  repeat (case_match; cbn; try done).
Qed.

Lemma get_package_cases name r :
  (Repository.get_package name r).2 = Repository.called name r
  ∨ ∃ p, (Repository.get_package name r).1 = Ok p
         ∧ (Repository.get_package name r).2
           = Repository.cache_store name p (Repository.called name r).
Proof.
  unfold Repository.get_package, Repository.load. cbn.
  repeat (case_match; cbn; eauto).
Qed.

Lemma lookup_result_called name r n :
  lookup_result (Repository.called name r) n = lookup_result r n.
Proof.
  unfold lookup_result, Repository.get_package, Repository.load. cbn.
  repeat (case_match; cbn; try done).
Qed.

Lemma lookup_result_cache_store name p r n :
  lookup_result r name = Ok p →
  lookup_result (Repository.cache_store name p r) n = lookup_result r n.
Proof.
  intros Hp. destruct (decide (n = name)) as [->|Hne].
  - rewrite Hp. unfold lookup_result, Repository.get_package. cbn.
    by rewrite lookup_insert_eq.
  - unfold lookup_result, Repository.get_package, Repository.load. cbn.
    rewrite lookup_insert_ne by done.
    repeat (case_match; cbn; try done).
Qed.

(** The cache only ever stores what the lookup returns, so a lookup
    gives the same result before and after any other lookup. *)
Lemma get_package_stable name r n :
  lookup_result (Repository.get_package name r).2 n = lookup_result r n.
Proof.
  destruct (get_package_cases name r) as [->|(p & Hp & ->)].
  - apply lookup_result_called.
  - rewrite lookup_result_cache_store, lookup_result_called; [done|].
    by rewrite lookup_result_called.
Qed.

Lemma lookup_result_known r n p :
  lookup_result r n = Ok p → n ∈ known r.
Proof.
  unfold lookup_result, Repository.get_package, Repository.load, known. cbn.
  destruct (Repository._cache r !! n) eqn:Hc; cbn.
  { intros _. apply elem_of_union_l, elem_of_union_l, elem_of_dom. eauto. }
  destruct (Repository.catalog r !! n) eqn:Hcat; cbn.
  { intros _. apply elem_of_union_l, elem_of_union_r, elem_of_dom. eauto. }
  destruct (Repository.paths r !! n) eqn:Hp; cbn; [|done].
  intros _. apply elem_of_union_r, elem_of_dom. eauto.
Qed.

Lemma get_package_fst name r :
  (Repository.get_package name r).1 = lookup_result r name.
Proof. done. Qed.

(** No lookup needs more than [max_lookup_frames]. *)
Lemma frames_le name r : Repository.frames name r ≤ max_lookup_frames.
Proof.
  unfold Repository.frames. pose proof (lookup_frames_lt name).
  case_match; lia.
Qed.

End repository.

(** ** The depth-first traversal of [resolve] *)
Section visit.
Context `{!PySetOrder, !Platform}.
Variables (installed : gset string) (r0 : Repository.t).

Local Abbreviation R := (needs r0 installed).

Lemma elem_of_get_all_dependencies (p : Package.t) (d : string) :
  d ∈ Package.get_all_dependencies p
  ↔ d ∈ Package.dependencies p ++ Package.build_dependencies p.
Proof. apply elem_of_set_iter. Qed.

Lemma deps_loop (limit : nat) (n : string) :
  (∀ d st, visit_pre installed r0 limit d st →
           visit_post installed r0 d st (Resolver.visit installed limit d st)) →
  ∀ deps st,
    (∀ d, d ∈ deps → depends r0 n d) →
    inv installed r0 st →
    size (known r0) + max_lookup_frames < size (Resolver.processing st) + limit →
    (∀ m, m ∈ Resolver.processing st → rtc R m n) →
    deps_post installed r0 n deps st (for_each (Resolver.visit installed limit) deps st).
Proof.
  intros IHvisit deps.
  induction deps as [|d deps IH]; intros st Hdeps Hinv Hsize Hstack;
    cbn [for_each].
  { split_and!; [done | done | | by intros ? ?%elem_of_nil].
    exists []. split; [by rewrite app_nil_r | by intros ? ?%elem_of_nil]. }
  assert (d ∉ installed → R n d) as Hnd.
  { intros ?. split; [|done]. apply Hdeps. left. }
  assert (visit_pre installed r0 limit d st) as Hpre.
  { split_and!; [done | done |].
    intros Hd m Hm. eapply tc_rtc_l; [by apply Hstack | by apply tc_once, Hnd]. }
  pose proof (IHvisit d st Hpre) as Hpost.
  destruct (Resolver.visit installed limit d st) as [[[]|e] st'].
  - destruct Hpost as (Hinv' & Hproc & (l & Hl & Hreach) & Hd).
    assert (deps_post installed r0 n deps st'
              (for_each (Resolver.visit installed limit) deps st')) as Hrest.
    { apply IH; [| done | by rewrite Hproc | by rewrite Hproc].
      intros ??. apply Hdeps. by right. }
    destruct (for_each (Resolver.visit installed limit) deps st')
      as [[[]|e] st'']; [|exact Hrest].
    destruct Hrest as (Hinv'' & Hproc' & (l' & Hl' & Hreach') & Hds).
    split_and!; [done | congruence | |].
    + exists (l ++ l'). split; [by rewrite Hl', Hl, (assoc_L (++))|].
      intros x [Hx|Hx]%elem_of_app; [|by apply Hreach'].
      destruct (Hreach x Hx) as [Hdi Hdx].
      eapply rtc_l; [by apply Hnd | done].
    + intros d' [->|Hd']%elem_of_cons Hd'i; [|by apply Hds].
      rewrite Hl'. apply elem_of_app. left. by apply Hd.
  - cbn in Hpost |- *. destruct e; try done.
    + destruct Hpost as (Hdi & Hr & Hc). split; [|done].
      eapply rtc_l; [by apply Hnd | done].
    + destruct Hpost as (Hdi & Hr & Hc). split; [|done].
      eapply rtc_l; [by apply Hnd | done].
Qed.

Lemma inv_leave (n : string) (p : Package.t) (st : Resolver.frame) :
  inv installed r0 st →
  n ∉ installed →
  n ∈ Resolver.processing st →
  lookup_result r0 n = Ok p →
  (∀ d, d ∈ Package.dependencies p ++ Package.build_dependencies p →
        d ∉ installed → d ∈ Resolver.resolved st) →
  inv installed r0 (Resolver.leave n st)
  ∧ Resolver.resolved (Resolver.leave n st) = Resolver.resolved st ++ [n].
Proof.
  intros Hinv Hni Hproc Hp Hdeps.
  assert (n ∉ Resolver.resolved st) as Hfresh.
  { intros Hn%(inv_visited _ _ _ Hinv). by apply (inv_disjoint _ _ _ Hinv) in Hn. }
  assert (Resolver.resolved (Resolver.leave n st) = Resolver.resolved st ++ [n])
    as Hres by (cbn; by rewrite decide_False).
  split; [|done]. split; rewrite ?Hres; cbn.
  - apply Hinv.
  - apply NoDup_app. split_and!; [apply Hinv | | apply NoDup_singleton].
    intros x Hx ->%list_elem_of_singleton. done.
  - intros x. rewrite elem_of_union, elem_of_singleton, elem_of_app,
      list_elem_of_singleton, (inv_visited _ _ _ Hinv). tauto.
  - intros a b [Ha| ->%list_elem_of_singleton]%elem_of_app HR.
    + apply before_app_l. by apply (inv_order _ _ _ Hinv).
    + apply before_snoc. destruct HR as [(p' & Hp' & Hb) Hbi].
      apply Hdeps; [congruence | done].
  - intros x [->%elem_of_singleton|Hx]%elem_of_union.
    + set_solver.
    + apply (inv_disjoint _ _ _ Hinv) in Hx. set_solver.
  - pose proof (inv_processing _ _ _ Hinv). set_solver.
  - intros x [Hx| ->%list_elem_of_singleton]%elem_of_app; [|done].
    by apply (inv_fresh _ _ _ Hinv).
Qed.

Lemma visit_spec (limit : nat) :
  ∀ n st, visit_pre installed r0 limit n st →
          visit_post installed r0 n st (Resolver.visit installed limit n st).
Proof.
  induction limit as [|limit IH]; intros n st (Hinv & Hsize & Hstack).
  { exfalso. pose proof (subseteq_size _ _ (inv_processing _ _ _ Hinv)). lia. }
  cbn [Resolver.visit].
  destruct (decide (n ∈ installed)) as [Hi|Hi].
  { split_and!; [done | done | | done].
    exists []. split; [by rewrite app_nil_r | by intros ? ?%elem_of_nil]. }
  destruct (decide (n ∈ Resolver.processing st)) as [Hp|Hp].
  { split_and!; [done | done | by apply Hstack]. }
  destruct (decide (n ∈ Resolver.visited st)) as [Hv|Hv].
  { split_and!; [done | done | | intros _; by apply (inv_visited _ _ _ Hinv)].
    exists []. split; [by rewrite app_nil_r | by intros ? ?%elem_of_nil]. }
  cbv zeta. rewrite decide_False.
  2:{ pose proof (frames_le n (Resolver.repository (Resolver.enter n st))).
      pose proof (subseteq_size _ _ (inv_processing _ _ _ Hinv)). lia. }
  pose proof (get_package_stable n (Resolver.repository (Resolver.enter n st)))
    as Hstable.
  pose proof (get_package_fst n (Resolver.repository (Resolver.enter n st)))
    as Hfst.
  destruct (Repository.get_package n (Resolver.repository (Resolver.enter n st)))
    as [[package|e] r] eqn:Hget; cbn in Hstable, Hfst.
  2:{ cbn. split_and!; [done | done |].
      rewrite <- (inv_repo _ _ _ Hinv). done. }
  assert (lookup_result r0 n = Ok package) as Hpkg.
  { by rewrite <- (inv_repo _ _ _ Hinv). }
  set (st1 := Resolver.set_repository r (Resolver.enter n st)).
  assert (inv installed r0 st1) as Hinv1.
  { split; cbn.
    - intros m. rewrite Hstable. apply Hinv.
    - apply Hinv.
    - apply Hinv.
    - apply Hinv.
    - intros x Hx [->%elem_of_singleton|Hx']%elem_of_union; [done|].
      by apply (inv_disjoint _ _ _ Hinv) in Hx.
    - pose proof (inv_processing _ _ _ Hinv).
      apply lookup_result_known in Hpkg. set_solver.
    - apply Hinv. }
  assert (size (Resolver.processing st1) = S (size (Resolver.processing st)))
    as Hsz.
  { cbn. rewrite size_union by set_solver. by rewrite size_singleton. }
  assert (deps_post installed r0 n (Package.get_all_dependencies package) st1
            (for_each (Resolver.visit installed limit)
               (Package.get_all_dependencies package) st1)) as Hloop.
  { apply deps_loop.
    - done.
    - intros d Hd. exists package. split; [done|].
      by apply elem_of_get_all_dependencies in Hd.
    - done.
    - lia.
    - intros m [->%elem_of_singleton|Hm]%elem_of_union; [done|].
      by apply tc_rtc, Hstack. }
  destruct (for_each (Resolver.visit installed limit)
              (Package.get_all_dependencies package) st1)
    as [[[]|e] st2] eqn:Hfor.
  - destruct Hloop as (Hinv2 & Hproc2 & (l & Hl & Hreach) & Hds).
    destruct (inv_leave n package st2) as [Hinv3 Hres3]; try done.
    { rewrite Hproc2. cbn. set_solver. }
    { intros d Hd. apply Hds. by apply elem_of_get_all_dependencies. }
    split_and!.
    + done.
    + cbn. rewrite Hproc2. cbn. set_solver.
    + exists (l ++ [n]). rewrite Hres3, Hl. cbn. split; [by rewrite (assoc_L (++))|].
      intros x [Hx| ->%list_elem_of_singleton]%elem_of_app; [|done].
      split; [done | by apply Hreach].
    + intros _. rewrite Hres3. apply elem_of_app. right. by left.
  - cbn in Hloop |- *. destruct e; try done; by split.
Qed.

End visit.

(** A chain of edges inside a list in which every edge goes down in index
    goes down in index. *)
Lemma tc_before (E : relation string) (l : list string) (a b : string) :
  NoDup l →
  (∀ a b, a ∈ l → E a b → before l b a) →
  a ∈ l → tc E a b → before l b a.
Proof.
  intros Hnd Hord Ha Htc. induction Htc as [a b Hab|a b c Hab Hbc IH].
  - by apply Hord.
  - pose proof (Hord _ _ Ha Hab) as Hba.
    apply (before_trans l c b a Hnd); [|done].
    apply IH. by apply before_elem_of in Hba as [? ?].
Qed.

(** ** [resolve] as a whole *)
Section resolve.
Context `{!PySetOrder, !Platform}.

(** What [resolve] returns, for any installed set, once the stack has
    room for more nested calls of [visit], each with its lookup, than
    there are names that have a manifest. *)
Lemma resolve_spec (limit : nat) (root : string) (installed : gset string)
    (r : Repository.t) :
  size (known r) < limit →
  match (Resolver.resolve limit root (Some installed) r).1 with
  | Ok l =>
      NoDup l
      ∧ (∀ x, x ∈ l ↔ (root ∉ installed) ∧ rtc (needs r installed) root x)
      ∧ (∀ a b, a ∈ l → needs r installed a b → before l b a)
  | Raise (CircularDependency m) =>
      (root ∉ installed) ∧ rtc (needs r installed) root m
      ∧ tc (needs r installed) m m
  | Raise (CouldNotFind m e) =>
      (root ∉ installed) ∧ rtc (needs r installed) root m
      ∧ lookup_result r m = Raise e
  | Raise _ => False
  end.
Proof.
  intros Hlimit. unfold Resolver.resolve.
  change (default ∅ (Some installed)) with installed. cbv zeta.
  set (st0 := {| Resolver.resolved := []; Resolver.visited := ∅;
                 Resolver.processing := ∅; Resolver.repository := r |}).
  assert (visit_pre installed r (limit + max_lookup_frames) root st0) as Hpre.
  { split_and!.
    - split; cbn; try done.
      + apply NoDup_nil_2.
      + intros n. rewrite elem_of_nil. set_solver.
      + by intros ?? ?%elem_of_nil.
      + by intros ? ?%elem_of_nil.
    - cbn. rewrite size_empty. lia.
    - cbn. set_solver. }
  pose proof (visit_spec installed r _ root st0 Hpre) as Hpost.
  destruct (Resolver.visit installed _ root st0) as [[[]|e] st'];
    cbn in Hpost |- *.
  - destruct Hpost as (Hinv & _ & (l & Hl & Hreach) & Hroot).
    cbn in Hl. subst l. split_and!.
    + apply Hinv.
    + intros x. split; [by apply Hreach|].
      intros [Hri Hrx]. revert x Hrx.
      apply (rtc_ind_r (λ x, x ∈ Resolver.resolved st')); [by apply Hroot|].
      intros y z _ Hyz Hy.
      pose proof (inv_order _ _ _ Hinv y z Hy Hyz) as Hb.
      by apply before_elem_of in Hb as [? ?].
    + apply Hinv.
  - destruct e; done.
Qed.




(** The names looked up and the names appended by [visit] are not
    installed ones, whatever the recursion limit and the outcome. *)
Lemma frame_ext_refl installed st : frame_ext installed st st.
Proof.
  split; exists []; (split; [by rewrite app_nil_r | by intros ? ?%elem_of_nil]).
Qed.

Lemma frame_ext_trans installed st1 st2 st3 :
  frame_ext installed st1 st2 → frame_ext installed st2 st3 →
  frame_ext installed st1 st3.
Proof.
  intros [(l1 & H1 & F1) (k1 & G1 & E1)] [(l2 & H2 & F2) (k2 & G2 & E2)].
  split.
  - exists (l1 ++ l2). split; [by rewrite H2, H1, (assoc_L (++))|].
    intros x [?|?]%elem_of_app; eauto.
  - exists (k1 ++ k2). split; [by rewrite G2, G1, (assoc_L (++))|].
    intros x [?|?]%elem_of_app; eauto.
Qed.

Lemma for_each_frame_ext installed
    (body : string → Resolver.frame → outcome () * Resolver.frame) :
  (∀ x st, frame_ext installed st (body x st).2) →
  ∀ xs st, frame_ext installed st (for_each body xs st).2.
Proof.
  intros Hbody xs. induction xs as [|x xs IH]; intros st; cbn.
  { apply frame_ext_refl. }
  specialize (Hbody x st). destruct (body x st) as [[?|e] st']; cbn in *.
  - eapply frame_ext_trans; [done | apply IH].
  - done.
Qed.

Lemma leave_frame_ext installed n st :
  n ∉ installed → frame_ext installed st (Resolver.leave n st).
Proof.
  intros Hn. unfold Resolver.leave, frame_ext.
  cbn [Resolver.resolved Resolver.repository].
  split; [exists []; split; [by rewrite app_nil_r
                             | by intros ? ?%elem_of_nil]|].
  case_decide.
  - exists []. split; [by rewrite app_nil_r | by intros ? ?%elem_of_nil].
  - exists [n]. split; [done|]. by intros ? ->%list_elem_of_singleton.
Qed.

Lemma visit_frame_ext installed (limit : nat) :
  ∀ n st, frame_ext installed st (Resolver.visit installed limit n st).2.
Proof.
  induction limit as [|limit IH]; intros n st; cbn [Resolver.visit].
  { apply frame_ext_refl. }
  do 3 (case_decide; [apply frame_ext_refl|]).
  cbv zeta. case_decide.
  { cbn. split; [|exists []; split; [by rewrite app_nil_r
                                      | by intros ? ?%elem_of_nil]].
    exists [n]. split; [done|]. by intros ? ->%list_elem_of_singleton. }
  pose proof (get_package_lookups n (Resolver.repository (Resolver.enter n st)))
    as Hlook.
  destruct (Repository.get_package n (Resolver.repository (Resolver.enter n st)))
    as [[package|e] r]; cbn in Hlook.
  2:{ cbn. split; [|exists []; split; [by rewrite app_nil_r
                                        | by intros ? ?%elem_of_nil]].
      exists [n]. split; [done|]. by intros ? ->%list_elem_of_singleton. }
  assert (frame_ext installed st
            (Resolver.set_repository r (Resolver.enter n st))) as Hext.
  { split; [|exists []; split; [by rewrite app_nil_r
                                | by intros ? ?%elem_of_nil]].
    exists [n]. split; [done|]. by intros ? ->%list_elem_of_singleton. }
  pose proof (for_each_frame_ext installed (Resolver.visit installed limit) IH
                (Package.get_all_dependencies package)
                (Resolver.set_repository r (Resolver.enter n st))) as Hloop.
  destruct (for_each (Resolver.visit installed limit)
              (Package.get_all_dependencies package)
              (Resolver.set_repository r (Resolver.enter n st)))
    as [[[]|e] st2]; cbn [snd] in Hloop |- *.
  - eapply frame_ext_trans; [done|]. eapply frame_ext_trans; [done|].
    by apply leave_frame_ext.
  - by eapply frame_ext_trans.
Qed.

End resolve.

(** ** The tables of [get_build_order] *)
Section build_graph.
Context `{!PySetOrder, !Platform}.

Lemma elem_of_preds r packages pkg d :
  d ∈ preds r packages pkg ↔ d ∈ packages ∧ depends r pkg d.
Proof.
  unfold preds, depends.
  destruct (lookup_result r pkg) as [p|e] eqn:Hp.
  - rewrite list_elem_of_filter, elem_of_get_all_dependencies.
    split; [intros [??]; eauto|].
    intros (? & p' & [= <-] & ?). done.
  - rewrite elem_of_nil. split; [done|]. by intros (_ & ? & ? & _).
Qed.

Lemma NoDup_preds r packages pkg : NoDup (preds r packages pkg).
Proof.
  unfold preds. destruct (lookup_result r pkg); [|apply NoDup_nil_2].
  apply NoDup_filter, set_iter_NoDup.
Qed.

Lemma preds_stable r r' packages :
  (∀ n, lookup_result r' n = lookup_result r n) →
  ∀ pkg, preds r' packages pkg = preds r packages pkg.
Proof. intros Heq pkg. unfold preds. by rewrite Heq. Qed.

Lemma add_edges_in_degree packages pkg deps k x :
  Resolver.in_degree (Resolver.add_edges packages pkg deps k) !!! x
  = (Resolver.in_degree k !!! x
     + if decide (x = pkg)
       then Z.of_nat (length (filter (λ d, d ∈ packages) deps)) else 0)%Z.
Proof.
  unfold Resolver.add_edges. revert k.
  induction deps as [|d deps IH]; intros k; cbn [foldl].
  { case_decide; cbn; lia. }
  rewrite IH. rewrite filter_cons.
  destruct (decide (d ∈ packages)); [|done].
  cbn [Resolver.add_edge Resolver.in_degree length].
  destruct (decide (x = pkg)) as [->|Hne].
  - rewrite lookup_total_insert_eq. lia.
  - rewrite lookup_total_insert_ne by done. lia.
Qed.

Lemma add_edges_graph packages pkg deps k d y :
  y ∈ Resolver.graph (Resolver.add_edges packages pkg deps k) !!! d
  ↔ y ∈ Resolver.graph k !!! d ∨ (y = pkg ∧ d ∈ deps ∧ d ∈ packages).
Proof.
  unfold Resolver.add_edges. revert k.
  induction deps as [|d' deps IH]; intros k; cbn [foldl].
  { rewrite elem_of_nil. tauto. }
  rewrite IH, elem_of_cons.
  destruct (decide (d' ∈ packages)) as [Hd'|Hd'].
  - cbn [Resolver.add_edge Resolver.graph].
    destruct (decide (d = d')) as [->|Hne].
    + rewrite lookup_total_insert_eq, elem_of_app, list_elem_of_singleton.
      tauto.
    + rewrite lookup_total_insert_ne by done. intuition congruence.
  - intuition congruence.
Qed.

Lemma build_graph_spec packages todo :
  NoDup todo →
  ∀ k r,
    (∀ n, lookup_result (Resolver.build_graph packages todo k r).2 n
          = lookup_result r n)
    ∧ (∀ x, Resolver.in_degree (Resolver.build_graph packages todo k r).1 !!! x
            = (Resolver.in_degree k !!! x
               + if decide (x ∈ todo)
                 then Z.of_nat (length (preds r packages x)) else 0)%Z)
    ∧ (∀ d y, y ∈ Resolver.graph (Resolver.build_graph packages todo k r).1 !!! d
              ↔ y ∈ Resolver.graph k !!! d
                ∨ (y ∈ todo ∧ d ∈ preds r packages y)).
Proof.
  induction 1 as [|pkg todo Hpkg Hnd IH]; intros k r; cbn [Resolver.build_graph].
  { cbn [fst snd]. split_and!; [done | |].
    - intros x. rewrite decide_False by (by intros ?%elem_of_nil). lia.
    - intros. rewrite elem_of_nil. tauto. }
  pose proof (get_package_stable pkg r) as Hstable.
  pose proof (get_package_fst pkg r) as Hfst.
  destruct (Repository.get_package pkg r) as [[p|e] r'];
    cbn [fst snd] in Hstable, Hfst.
  - destruct (IH (Resolver.add_edges packages pkg
                    (Package.get_all_dependencies p) k) r')
      as (Hlook & Hdeg & Hgraph).
    split_and!.
    + intros n. by rewrite Hlook.
    + intros x. rewrite Hdeg, add_edges_in_degree.
      rewrite (preds_stable r r') by done.
      destruct (decide (x = pkg)) as [->|Hne].
      * rewrite decide_False by done. rewrite decide_True by left.
        unfold preds. rewrite <- Hfst. lia.
      * destruct (decide (x ∈ todo)).
        -- rewrite decide_True by (by right). lia.
        -- rewrite decide_False; [lia|]. by intros [?|?]%elem_of_cons.
    + intros d y. rewrite Hgraph, add_edges_graph, elem_of_cons.
      rewrite (preds_stable r r') by done.
      assert (d ∈ preds r packages pkg
              ↔ d ∈ Package.get_all_dependencies p ∧ d ∈ packages) as Hp.
      { unfold preds. rewrite <- Hfst, list_elem_of_filter. tauto. }
      split.
      * intros [[?|(-> & ? & ?)]|[? ?]]; [by left | right | right]; [|tauto].
        split; [by left | by apply Hp].
      * intros [?|[[->|?] ?]]; [by left; left | | by right].
        left. right. split; [done|]. by apply Hp.
  - destruct (IH k r') as (Hlook & Hdeg & Hgraph).
    assert (preds r packages pkg = []) as Hnil.
    { unfold preds. by rewrite <- Hfst. }
    split_and!.
    + intros n. by rewrite Hlook.
    + intros x. rewrite Hdeg. rewrite (preds_stable r r') by done.
      destruct (decide (x = pkg)) as [->|Hne].
      * rewrite decide_False by done. rewrite decide_True by left.
        rewrite Hnil. done.
      * destruct (decide (x ∈ todo)).
        -- by rewrite decide_True by (by right).
        -- rewrite decide_False; [done|]. by intros [?|?]%elem_of_cons.
    + intros d y. rewrite Hgraph, elem_of_cons.
      rewrite (preds_stable r r') by done.
      split; [intros [?|[??]]; [by left | right; tauto]|].
      intros [?|[[->|?] Hd]]; [by left | | right; tauto].
      rewrite Hnil in Hd. by apply elem_of_nil in Hd.
Qed.

Lemma list_to_map_const {A : Type} (v : A) (l : list string) (x : string) (z : A) :
  (list_to_map ((λ pkg, (pkg, v)) <$> l) : gmap string A) !! x = Some z → z = v.
Proof.
  induction l as [|y l IH]; cbn.
  - by rewrite lookup_empty.
  - destruct (decide (y = x)) as [->|Hne].
    + rewrite lookup_insert_eq. congruence.
    + by rewrite lookup_insert_ne.
Qed.

Lemma empty_tables_in_degree packages x :
  x ∈ packages →
  Resolver.in_degree (Resolver.empty_tables packages) !!! x = 0%Z.
Proof.
  intros Hx.
  cbn [Resolver.empty_tables Resolver.in_degree]. rewrite lookup_total_alt.
  destruct (list_to_map _ !! x) as [z|] eqn:Hz.
  - by apply list_to_map_const in Hz as ->.
  - apply not_elem_of_list_to_map_2 in Hz. destruct Hz.
    rewrite <- list_fmap_compose. apply list_elem_of_fmap. by exists x.
Qed.

Lemma empty_tables_graph packages d :
  Resolver.graph (Resolver.empty_tables packages) !!! d = [].
Proof.
  cbn [Resolver.empty_tables Resolver.graph]. rewrite lookup_total_alt.
  destruct (list_to_map _ !! d) as [z|] eqn:Hz; [|done].
  by apply list_to_map_const in Hz as ->.
Qed.

End build_graph.

(** ** Lists: filters, repetitions and walks *)

Lemma filter_ext_elem_of {A : Type} (P1 P2 : A → Prop)
    `{!∀ x, Decision (P1 x), !∀ x, Decision (P2 x)} (l : list A) :
  (∀ x, x ∈ l → P1 x ↔ P2 x) → filter P1 l = filter P2 l.
Proof.
  induction l as [|a l IH]; intros Hiff; [done|].
  rewrite !filter_cons.
  rewrite IH by (intros; apply Hiff; by right).
  apply decide_ext, Hiff. left.
Qed.

Lemma length_filter_nil_elem_of {A : Type} (P : A → Prop)
    `{!∀ x, Decision (P x)} (l : list A) :
  length (filter P l) = 0 → ∀ x, x ∈ l → ¬ P x.
Proof.
  intros Hlen x Hx HP.
  assert (x ∈ filter P l) as Hin by (by apply list_elem_of_filter).
  destruct (filter P l); [by apply elem_of_nil in Hin | done].
Qed.

Lemma length_filter_pos_elem_of {A : Type} (P : A → Prop)
    `{!∀ x, Decision (P x)} (l : list A) :
  0 < length (filter P l) → ∃ x, x ∈ l ∧ P x.
Proof.
  destruct (filter P l) as [|x k] eqn:Hf; cbn; [lia|]. intros _.
  assert (x ∈ filter P l) as Hin by (rewrite Hf; left).
  apply list_elem_of_filter in Hin. exists x. tauto.
Qed.

(** Removing one more name from the count. *)
Lemma length_filter_not_in_snoc (res l : list string) (p : string) :
  NoDup l → p ∉ res →
  length (filter (λ d, d ∉ res ++ [p]) l) + (if decide (p ∈ l) then 1 else 0)
  = length (filter (λ d, d ∉ res) l).
Proof.
  intros Hnd Hp. induction Hnd as [|a l Ha Hnd IH]; [done|].
  rewrite !filter_cons.
  destruct (decide (a = p)) as [->|Hne].
  - rewrite (decide_True (P := p ∈ p :: l)) by left.
    rewrite (decide_False (P := p ∉ res ++ [p])) by set_solver.
    rewrite (decide_True (P := p ∉ res)) by done. cbn [length].
    rewrite (decide_False (P := p ∈ l)) in IH by done. lia.
  - assert ((a ∉ res ++ [p]) ↔ (a ∉ res)) as Hiff by set_solver.
    rewrite (decide_ext _ _ _ _ Hiff).
    assert (p ∈ a :: l ↔ p ∈ l) as Hiff' by set_solver.
    rewrite (decide_ext _ _ _ _ Hiff').
    destruct (decide (a ∉ res)); cbn [length]; lia.
Qed.

Lemma tc_subrel {A : Type} (R1 R2 : relation A) (x y : A) :
  (∀ a b, R1 a b → R2 a b) → tc R1 x y → tc R2 x y.
Proof.
  intros Hsub. induction 1 as [a b Hab|a b c Hab _ IH].
  - by apply tc_once, Hsub.
  - eapply tc_l; [by apply Hsub | done].
Qed.

Lemma repetition (l : list string) :
  ¬ NoDup l → ∃ l1 y l2 l3, l = l1 ++ y :: l2 ++ y :: l3.
Proof.
  induction l as [|a l IH]; intros Hnd.
  { destruct Hnd. apply NoDup_nil_2. }
  destruct (decide (a ∈ l)) as [Ha|Ha].
  - apply list_elem_of_split in Ha as (l2 & l3 & ->).
    by exists [], a, l2, l3.
  - destruct IH as (l1 & y & l2 & l3 & ->).
    { intros Hl. apply Hnd. by constructor. }
    by exists (a :: l1), y, l2, l3.
Qed.

Lemma walk_app E x l1 y l2 :
  walk E x (l1 ++ y :: l2) → walk E y l2.
Proof.
  revert x. induction l1 as [|a l1 IH]; intros x; cbn.
  - by intros [_ ?].
  - intros [_ ?]. eauto.
Qed.

Lemma walk_tc E x l y : walk E x l → y ∈ l → tc E x y.
Proof.
  revert x. induction l as [|a l IH]; intros x.
  { by intros _ ?%elem_of_nil. }
  cbn. intros [Hxa Hw] [->|Hy]%elem_of_cons.
  - by apply tc_once.
  - eapply tc_l; eauto.
Qed.

(** In a finite set of names where each one has a successor in the set,
    some name reaches itself. *)
Lemma cycle_of_successors (E : relation string) (V : list string) (x : string) :
  x ∈ V →
  (∀ y, y ∈ V → ∃ z, z ∈ V ∧ E y z) →
  ∃ c, c ∈ V ∧ tc E c c.
Proof.
  intros Hx Hsucc.
  assert (∀ n y, y ∈ V → ∃ l, length l = n ∧ walk E y l ∧ ∀ z, z ∈ l → z ∈ V)
    as Hwalk.
  { induction n as [|n IH]; intros y Hy.
    { exists []. split_and!; [done | done | by intros ? ?%elem_of_nil]. }
    destruct (Hsucc y Hy) as (z & Hz & Hyz).
    destruct (IH z Hz) as (l & Hlen & Hw & Hl).
    exists (z :: l). split_and!; [by rewrite <- Hlen | done |].
    intros ? [->|?]%elem_of_cons; eauto. }
  destruct (Hwalk (S (length V)) x Hx) as (l & Hlen & Hw & Hl).
  destruct (repetition l) as (l1 & y & l2 & l3 & ->).
  { intros Hnd.
    assert (l ⊆+ V) as Hsub by (by apply NoDup_submseteq).
    apply submseteq_length in Hsub. lia. }
  exists y. split.
  - apply Hl. apply elem_of_app. right. left.
  - apply walk_app in Hw. eapply walk_tc; [done|].
    apply elem_of_app. right. left.
Qed.

(** ** The loop of [get_build_order] *)
Section drain.
Context `{!PySetOrder, !Platform}.

Lemma foldl_relax (ds : list string) :
  NoDup ds →
  ∀ (in_degree : gmap string Z) (queue : list string),
    (∀ x, (foldl Resolver.relax (in_degree, queue) ds).1 !!! x
          = (in_degree !!! x - if decide (x ∈ ds) then 1 else 0)%Z)
    ∧ (foldl Resolver.relax (in_degree, queue) ds).2
      = queue ++ filter (λ x, in_degree !!! x = 1%Z) ds.
Proof.
  induction 1 as [|d ds Hd Hnd IH]; intros in_degree queue; cbn [foldl].
  { cbn [fst snd]. split; [|by rewrite app_nil_r].
    intros x. rewrite decide_False by (by intros ?%elem_of_nil). lia. }
  unfold Resolver.relax at 2 4. cbn [fst snd].
  destruct (IH (<[d:=(in_degree !!! d - 1)%Z]> in_degree)
              (if decide ((in_degree !!! d - 1)%Z = 0%Z)
               then queue ++ [d] else queue)) as [Hdeg Hq].
  split.
  - intros x. rewrite Hdeg.
    destruct (decide (x = d)) as [->|Hne].
    + rewrite lookup_total_insert_eq.
      rewrite decide_False by done. rewrite decide_True by left. lia.
    + rewrite lookup_total_insert_ne by done.
      assert (x ∈ d :: ds ↔ x ∈ ds) as Hiff by set_solver.
      by rewrite (decide_ext _ _ _ _ Hiff).
  - rewrite Hq. rewrite filter_cons.
    rewrite (filter_ext_elem_of _ (λ x, in_degree !!! x = 1%Z) ds).
    2:{ intros x Hx. rewrite lookup_total_insert_ne; [done|].
        intros ->. done. }
    destruct (decide (in_degree !!! d = 1%Z)) as [H1|H1].
    + rewrite decide_True by lia. by rewrite <- (assoc_L (++)).
    + by rewrite decide_False by lia.
Qed.

Variables (r : Repository.t) (packages : list string).
Variable graph : gmap string (list string).
Hypothesis Hgraph :
  ∀ d y, y ∈ graph !!! d ↔ y ∈ packages ∧ d ∈ preds r packages y.

Lemma pending_snoc result pkg x :
  pkg ∉ result →
  pending r packages (result ++ [pkg]) x
  + (if decide (pkg ∈ preds r packages x) then 1 else 0)
  = pending r packages result x.
Proof.
  intros Hpkg. unfold pending.
  apply length_filter_not_in_snoc; [apply NoDup_preds | done].
Qed.

Lemma drain_step in_degree pkg queue result :
  drain_inv r packages in_degree (pkg :: queue) result →
  drain_inv r packages
    (foldl Resolver.relax (in_degree, queue) (set_iter (graph !!! pkg))).1
    (foldl Resolver.relax (in_degree, queue) (set_iter (graph !!! pkg))).2
    (result ++ [pkg]).
Proof.
  intros Hinv.
  destruct (foldl_relax (set_iter (graph !!! pkg)) (set_iter_NoDup _)
              in_degree queue) as [Hdeg Hq].
  rewrite Hq. clear Hq.
  pose proof (di_nodup _ _ _ _ _ Hinv) as Hnd.
  apply NoDup_app in Hnd as (Hnd_res & Hdisj & Hnd_q).
  apply NoDup_cons in Hnd_q as [Hpkg_q Hnd_q].
  assert (pkg ∉ result) as Hpkg_res.
  { intros ?. eapply Hdisj; [done | left]. }
  assert (pkg ∈ packages) as Hpkg_in.
  { apply (di_sub _ _ _ _ _ Hinv). set_solver. }
  assert (∀ x, x ∈ set_iter (graph !!! pkg)
               ↔ x ∈ packages ∧ pkg ∈ preds r packages x) as Hds.
  { intros x. by rewrite elem_of_set_iter, Hgraph. }
  assert (∀ x, x ∈ packages →
               in_degree !!! x = 1%Z → pkg ∈ preds r packages x →
               x ∉ result ++ pkg :: queue) as Hnew.
  { intros x Hx H1 _ Hin. apply (di_zero _ _ _ _ _ Hinv) in Hin; [|done].
    rewrite (di_deg _ _ _ _ _ Hinv) in H1 by done. lia. }
  split.
  - rewrite <- (assoc_L (++)). cbn [app].
    apply NoDup_app. split_and!; [done | |].
    + intros x Hx [->|[Hxq|Hxn]%elem_of_app]%elem_of_cons.
      * done.
      * eapply Hdisj; [done | by right].
      * apply list_elem_of_filter in Hxn as [H1 [Hxp Hxpkg]%Hds].
        eapply Hnew; eauto. set_solver.
    + apply NoDup_cons. split.
      * intros [Hxq|Hxn]%elem_of_app; [done|].
        apply list_elem_of_filter in Hxn as [H1 [Hxp Hxpkg]%Hds].
        eapply Hnew; eauto. set_solver.
      * apply NoDup_app. split_and!; [done | | by apply NoDup_filter, set_iter_NoDup].
        intros x Hxq Hxn.
        apply list_elem_of_filter in Hxn as [H1 [Hxp Hxpkg]%Hds].
        eapply Hnew; eauto. set_solver.
  - intros x. rewrite !elem_of_app, list_elem_of_singleton, list_elem_of_filter.
    intros [[?| ->]|[?|[_ [? _]%Hds]]]; try done;
      apply (di_sub _ _ _ _ _ Hinv); set_solver.
  - intros x Hx. rewrite Hdeg.
    rewrite (di_deg _ _ _ _ _ Hinv) by done.
    pose proof (pending_snoc result pkg x Hpkg_res) as Hsnoc.
    assert (x ∈ set_iter (graph !!! pkg) ↔ pkg ∈ preds r packages x) as Hiff.
    { rewrite Hds. tauto. }
    rewrite (decide_ext _ _ _ _ Hiff).
    destruct (decide (pkg ∈ preds r packages x)); lia.
  - intros x Hx.
    pose proof (pending_snoc result pkg x Hpkg_res) as Hsnoc.
    pose proof (di_zero _ _ _ _ _ Hinv x Hx) as Hzero.
    pose proof (di_deg _ _ _ _ _ Hinv x Hx) as Hdegx.
    rewrite !elem_of_app, list_elem_of_singleton, list_elem_of_filter, Hds.
    rewrite elem_of_app, elem_of_cons in Hzero.
    destruct (decide (pkg ∈ preds r packages x)) as [Hin|Hin].
    + split.
      * intros [[?|?]|[?|(? & _ & _)]]; [| | |lia];
          (assert (pending r packages result x = 0) by (apply Hzero; tauto));
          lia.
      * intros ?. right. right. split_and!; [lia | done | done].
    + split.
      * intros [[?|?]|[?|(_ & _ & ?)]]; [| | |done];
          (assert (pending r packages result x = 0) by (apply Hzero; tauto));
          lia.
      * intros ?. assert (pending r packages result x = 0) as Hp0 by lia.
        apply Hzero in Hp0. tauto.
  - intros x d [Hx| ->%list_elem_of_singleton]%elem_of_app Hd.
    + apply before_app_l. by apply (di_order _ _ _ _ _ Hinv).
    + apply before_snoc.
      assert (pending r packages result pkg = 0) as Hp0.
      { apply (di_zero _ _ _ _ _ Hinv); [done | set_solver]. }
      destruct (decide (d ∈ result)) as [|Hdr]; [done|].
      by apply (length_filter_nil_elem_of _ _ Hp0) in Hd.
Qed.

Lemma drain_spec (fuel : nat) :
  ∀ in_degree queue result,
    drain_inv r packages in_degree queue result →
    (length packages ≤ fuel + length result)%nat →
    ∃ in_degree' result',
      Resolver.drain fuel graph in_degree queue result = Some result'
      ∧ drain_inv r packages in_degree' [] result'.
Proof.
  induction fuel as [|fuel IH]; intros in_degree queue result Hinv Hfuel.
  - destruct queue as [|pkg queue]; cbn; [by exists in_degree, result|].
    exfalso.
    assert (result ++ pkg :: queue ⊆+ packages) as Hsub.
    { apply NoDup_submseteq; [apply Hinv|].
      intros x Hx. by apply (di_sub _ _ _ _ _ Hinv). }
    apply submseteq_length in Hsub. rewrite length_app in Hsub. cbn in Hsub.
    lia.
  - destruct queue as [|pkg queue]; cbn [Resolver.drain];
      [by exists in_degree, result|].
    apply IH; [by apply drain_step|].
    rewrite length_app. cbn. lia.
Qed.

End drain.

(** ** [get_build_order] on a duplicate-free list *)
Section get_build_order.
Context `{!PySetOrder, !Platform}.

Lemma pending_nil r packages x :
  pending r packages [] x = length (preds r packages x).
Proof.
  unfold pending. f_equal.
  induction (preds r packages x) as [|d l IH]; [done|].
  rewrite filter_cons_True by (by intros ?%elem_of_nil). by rewrite IH.
Qed.

(** C2, as amended.  On a list of names without repetition,
    [get_build_order] returns.  When the result is a list, it is a
    rearrangement of the input (each input name once and nothing else),
    every edge between two input names has the dependency at a smaller
    index than the dependent, and no input name reaches itself through
    such edges; otherwise the error is the cycle error and some input
    name reaches itself through edges between input names. *)
Theorem get_build_order_topological (packages : list string)
    (r : Repository.t) :
  NoDup packages →
  ∃ res r',
    Resolver.get_build_order packages r = Some (res, r')
    ∧ (∀ n, lookup_result r' n = lookup_result r n)
    ∧ match res with
      | Ok l =>
          l ≡ₚ packages
          ∧ (∀ pkg dep, build_edge r packages pkg dep → before l dep pkg)
          ∧ (∀ c, ¬ tc (build_edge r packages) c c)
      | Raise e =>
          e = CircularBuildOrder
          ∧ ∃ c, c ∈ packages ∧ tc (build_edge r packages) c c
      end.
Proof.
  intros Hnd.
  unfold Resolver.get_build_order, Resolver.get_build_order_within.
  destruct (build_graph_spec packages packages Hnd
              (Resolver.empty_tables packages) r) as (Hlook & Hdeg & Hgraph).
  destruct (Resolver.build_graph packages packages
              (Resolver.empty_tables packages) r) as [k r'].
  cbn [fst snd] in Hlook, Hdeg, Hgraph.
  assert (∀ d y, y ∈ Resolver.graph k !!! d
                 ↔ y ∈ packages ∧ d ∈ preds r packages y) as Hgraph'.
  { intros d y. rewrite Hgraph, empty_tables_graph, elem_of_nil. tauto. }
  assert (∀ x, x ∈ packages →
               Resolver.in_degree k !!! x
               = Z.of_nat (pending r packages [] x)) as Hdeg'.
  { intros x Hx. rewrite Hdeg, empty_tables_in_degree by done.
    rewrite decide_True by done. rewrite pending_nil. lia. }
  set (queue := filter (λ pkg, Resolver.in_degree k !!! pkg = 0%Z) packages).
  assert (drain_inv r packages (Resolver.in_degree k) queue []) as Hinv.
  { split; cbn [app].
    - by apply NoDup_filter.
    - by intros x [_ ?]%list_elem_of_filter.
    - done.
    - intros x Hx. unfold queue. rewrite list_elem_of_filter, Hdeg' by done.
      split; [intros [? _]; lia | intros ->; done].
    - by intros ?? ?%elem_of_nil. }
  destruct (drain_spec r packages (Resolver.graph k) Hgraph' (length packages)
              (Resolver.in_degree k) queue [] Hinv) as (deg & result & -> & Hend).
  { cbn. lia. }
  assert (result ⊆+ packages) as Hsub.
  { apply NoDup_submseteq.
    - pose proof (di_nodup _ _ _ _ _ Hend) as Hn. by rewrite app_nil_r in Hn.
    - intros x Hx. apply (di_sub _ _ _ _ _ Hend). by rewrite app_nil_r. }
  pose proof (di_nodup _ _ _ _ _ Hend) as Hnd_res. rewrite app_nil_r in Hnd_res.
  case_decide as Hlen.
  - (* some name is missing from the result *)
    exists (Raise CircularBuildOrder), r'. split_and!; [done | done | done |].
    destruct (decide (Forall (λ x, x ∈ result) packages)) as [Hall|Hex].
    { exfalso. rewrite Forall_forall in Hall.
      assert (packages ⊆+ result) as Hsup by (by apply NoDup_submseteq).
      apply submseteq_length in Hsub, Hsup. lia. }
    apply not_Forall_Exists, Exists_exists in Hex as (x & Hx & Hxres);
      [|apply _].
    destruct (cycle_of_successors (build_edge r packages)
                (filter (λ y, y ∉ result) packages) x)
      as (c & [_ Hc]%list_elem_of_filter & Hcycle).
    + by apply list_elem_of_filter.
    + intros y [Hyres Hy]%list_elem_of_filter.
      assert (0 < pending r packages result y) as Hpos.
      { pose proof (di_zero _ _ _ _ _ Hend y Hy) as Hzero.
        rewrite app_nil_r in Hzero.
        destruct (pending r packages result y); [|lia].
        exfalso. by apply Hyres, Hzero. }
      apply length_filter_pos_elem_of in Hpos as (d & Hd & Hdres).
      pose proof Hd as [Hdp Hdep]%elem_of_preds.
      exists d. split; [by apply list_elem_of_filter|]. done.
    + by exists c.
  - assert (length result = length packages) as Hlen' by lia.
    assert (result ≡ₚ packages) as Hperm.
    { apply submseteq_length_Permutation; [done | lia]. }
    assert (∀ pkg dep, pkg ∈ result → build_edge r packages pkg dep →
                       before result dep pkg) as Hord.
    { intros pkg dep Hpkg (_ & Hdep & Hd).
      apply (di_order _ _ _ _ _ Hend); [done|].
      by apply elem_of_preds. }
    exists (Ok result), r'. split_and!; [done | done | done | |].
    + intros pkg dep Hedge. apply Hord; [|done].
      rewrite Hperm. by destruct Hedge.
    + intros c Hc.
      assert (c ∈ result) as Hcres.
      { rewrite Hperm. inversion Hc as [?? [? _]|??? [? _] _]; by subst. }
      eapply before_irrefl; [done|]. eapply tc_before; eauto.
Qed.

End get_build_order.

(** ** The loop of [get_build_order] ends, on every input *)
Section termination.
Context `{!PySetOrder, !Platform}.

Lemma length_filter_insert (ks : list string) (d : string) (w : Z)
    (in_degree : gmap string Z) :
  NoDup ks → d ∈ ks →
  length (filter (λ x, (0 < <[d:=w]> in_degree !!! x)%Z) ks)
  + (if decide (0 < in_degree !!! d)%Z then 1 else 0)
  = length (filter (λ x, (0 < in_degree !!! x)%Z) ks)
    + (if decide (0 < w)%Z then 1 else 0).
Proof.
  induction 1 as [|a ks Ha Hnd IH]; intros Hd.
  { by apply elem_of_nil in Hd. }
  rewrite !filter_cons.
  destruct (decide (a = d)) as [->|Hne].
  - rewrite lookup_total_insert_eq.
    rewrite (filter_ext_elem_of (λ x, (0 < <[d:=w]> in_degree !!! x)%Z)
               (λ x, (0 < in_degree !!! x)%Z) ks).
    2:{ intros x Hx. rewrite lookup_total_insert_ne; [done|]. by intros ->. }
    destruct (decide (0 < w)%Z), (decide (0 < in_degree !!! d)%Z);
      cbn [length]; lia.
  - rewrite lookup_total_insert_ne by done.
    apply elem_of_cons in Hd as [->|Hd]; [done|]. specialize (IH Hd).
    destruct (decide (0 < in_degree !!! a)%Z); cbn [length]; lia.
Qed.

Lemma relax_measure packages s d :
  d ∈ packages →
  length (Resolver.relax s d).2 + positive packages (Resolver.relax s d).1
  = length s.2 + positive packages s.1.
Proof.
  intros Hd. unfold Resolver.relax, positive. cbn [fst snd].
  pose proof (length_filter_insert (remove_dups packages) d
                (s.1 !!! d - 1)%Z s.1 (NoDup_remove_dups _)) as Hins.
  rewrite elem_of_remove_dups in Hins. specialize (Hins Hd).
  destruct (decide ((s.1 !!! d - 1)%Z = 0%Z)) as [H1|H1].
  - rewrite length_app. cbn [length].
    rewrite decide_True in Hins by lia. rewrite decide_False in Hins by lia.
    lia.
  - destruct (decide (0 < s.1 !!! d)%Z).
    + rewrite decide_True in Hins by lia. lia.
    + rewrite decide_False in Hins by lia. lia.
Qed.

Lemma foldl_relax_measure packages ds :
  (∀ d, d ∈ ds → d ∈ packages) →
  ∀ s, length (foldl Resolver.relax s ds).2
       + positive packages (foldl Resolver.relax s ds).1
       = length s.2 + positive packages s.1.
Proof.
  induction ds as [|d ds IH]; intros Hds s; [done|]. cbn [foldl].
  rewrite IH by (intros; apply Hds; by right).
  apply relax_measure, Hds. left.
Qed.

Lemma drain_total packages (graph : gmap string (list string)) (fuel : nat) :
  (∀ d y, y ∈ graph !!! d → y ∈ packages) →
  ∀ in_degree queue result,
    length queue + positive packages in_degree ≤ fuel →
    is_Some (Resolver.drain fuel graph in_degree queue result).
Proof.
  intros Hgraph. induction fuel as [|fuel IH]; intros in_degree queue result Hm.
  - destruct queue; cbn in *; [done | lia].
  - destruct queue as [|pkg queue]; cbn [Resolver.drain]; [done|].
    apply IH.
    rewrite (foldl_relax_measure packages).
    + cbn in *. lia.
    + intros d Hd. apply (proj1 (elem_of_set_iter _ _)) in Hd.
      eapply Hgraph, Hd.
Qed.

Lemma build_graph_members packages todo :
  (∀ y, y ∈ todo → y ∈ packages) →
  ∀ k r,
    (∀ d y, y ∈ Resolver.graph k !!! d → y ∈ packages) →
    ∀ d y, y ∈ Resolver.graph (Resolver.build_graph packages todo k r).1 !!! d →
           y ∈ packages.
Proof.
  induction todo as [|pkg todo IH]; intros Htodo k r Hk; cbn [Resolver.build_graph].
  { done. }
  destruct (Repository.get_package pkg r) as [[p|e] r'].
  - apply IH; [intros; apply Htodo; by right|].
    intros d y [Hy|(-> & _ & _)]%add_edges_graph; [eapply Hk, Hy|].
    apply Htodo. left.
  - apply IH; [intros; apply Htodo; by right | done].
Qed.

Lemma initial_measure packages (in_degree : gmap string Z) :
  length (filter (λ pkg, in_degree !!! pkg = 0%Z) packages)
  + positive packages in_degree ≤ length packages.
Proof.
  unfold positive.
  assert (filter (λ x, (0 < in_degree !!! x)%Z) (remove_dups packages)
            ⊆+ filter (λ x, (0 < in_degree !!! x)%Z) packages) as Hsub.
  { apply NoDup_submseteq; [apply NoDup_filter, NoDup_remove_dups|].
    intros x. rewrite !list_elem_of_filter, elem_of_remove_dups. done. }
  apply submseteq_length in Hsub.
  assert (length (filter (λ pkg, in_degree !!! pkg = 0%Z) packages)
          + length (filter (λ x, (0 < in_degree !!! x)%Z) packages)
          ≤ length packages) as Hle; [|lia].
  clear Hsub. induction packages as [|a l IH]; [done|].
  rewrite !filter_cons.
  destruct (decide (in_degree !!! a = 0%Z)), (decide (0 < in_degree !!! a)%Z);
    cbn [length]; lia.
Qed.

(** [get_build_order] gives a result on every list of names. *)
Lemma get_build_order_total (packages : list string) (r : Repository.t) :
  is_Some (Resolver.get_build_order packages r).
Proof.
  unfold Resolver.get_build_order, Resolver.get_build_order_within.
  pose proof (build_graph_members packages packages (λ _ H, H)
                (Resolver.empty_tables packages) r) as Hmem.
  destruct (Resolver.build_graph packages packages
              (Resolver.empty_tables packages) r) as [k r'].
  cbn [fst] in Hmem.
  destruct (drain_total packages (Resolver.graph k) (length packages))
    with (in_degree := Resolver.in_degree k)
         (queue := filter (λ pkg, Resolver.in_degree k !!! pkg = 0%Z) packages)
         (result := @nil string) as [result ->].
  - apply Hmem. intros d y. rewrite empty_tables_graph. by intros ?%elem_of_nil.
  - apply initial_measure.
  - case_decide; done.
Qed.

End termination.

(** ** Concrete catalogs *)

Lemma depends_catalog_of `{!Platform} entries a b :
  depends (catalog_of entries) a b →
  ∃ f p, (a, f) ∈ entries ∧ Package.from_file f = Ok p
         ∧ b ∈ Package.dependencies p ++ Package.build_dependencies p.
Proof.
  intros (p & Hp & Hb).
  unfold lookup_result, Repository.get_package, Repository.load in Hp.
  cbn in Hp. rewrite lookup_empty in Hp.
  destruct (list_to_map entries !! a) as [f|] eqn:Hf; [|done].
  apply elem_of_list_to_map_2 in Hf. exists f, p.
  destruct (Package.from_file f) as [p'|]; [|done]. cbn in Hp.
  by injection Hp as ->.
Qed.

(** Every edge of a concrete catalog is one of its listed dependencies. *)
Ltac catalog_edge H :=
  let f := fresh "f" in
  let p := fresh "p" in
  let Hin := fresh "Hin" in
  let Hf := fresh "Hf" in
  let Hb := fresh "Hb" in
  apply depends_catalog_of in H as (f & p & Hin & Hf & Hb);
  repeat (apply elem_of_cons in Hin as [Hin|Hin];
          [injection Hin as -> ->; cbn in Hf; injection Hf as <-; cbn in Hb|]);
  try (by apply elem_of_nil in Hin);
  repeat (apply elem_of_cons in Hb as [->|Hb]);
  try (by apply elem_of_nil in Hb).

Lemma acyclic_by_rank (E : relation string) (rank : string → nat) :
  (∀ a b, E a b → rank b < rank a) → ∀ n, ¬ tc E n n.
Proof.
  intros Hrank n Hn.
  assert (∀ a b, tc E a b → rank b < rank a) as Htc.
  { induction 1 as [a b Hab|a b c Hab _ IH]; [by apply Hrank|].
    apply Hrank in Hab. lia. }
  apply Htc in Hn. lia.
Qed.




Lemma cyclic_closed (root n : string) :
  root = "A" ∨ root = "B" →
  rtc (needs (H := example_platform) cyclic ∅) root n →
  ∃ p, @lookup_result example_platform cyclic n = Ok p.
Proof.
  intros Hroot Hn.
  assert (n = "A" ∨ n = "B") as [-> | ->]; [|by eexists..].
  revert n Hn. apply (rtc_ind_r (λ n, n = "A" ∨ n = "B")); [done|].
  intros a b _ [Hab _] _. catalog_edge Hab; first [by left | by right].
Qed.

Lemma cyclic_edges :
  needs (H := example_platform) cyclic ∅ "A" "B"
  ∧ needs (H := example_platform) cyclic ∅ "B" "A".
Proof.
  split; (split; [eexists; split; [reflexivity | cbn; set_solver]
                 | set_solver]).
Qed.

Lemma cyclic_dangling_edges :
  needs (H := example_platform) cyclic_dangling ∅ "app" "A"
  ∧ needs (H := example_platform) cyclic_dangling ∅ "A" "B"
  ∧ needs (H := example_platform) cyclic_dangling ∅ "B" "A".
Proof.
  split_and!; (split; [eexists; split; [reflexivity | cbn; set_solver]
                      | set_solver]).
Qed.

(** ** The claims about [resolve] *)
Section resolve_claims.
Context `{!PySetOrder, !Platform}.


(** C4, as amended.  When a dependency cycle among names that are not
    installed can be reached from [root], and every name reachable from
    [root] outside the installed set has a loadable manifest, [resolve]
    raises the cycle error, for every stack with room for more nested
    calls of [visit] than there are names that have a manifest
    ([size (known r) < limit]); the name in the error is reachable
    from [root] and lies on a cycle.  The error is raised by the call
    that finds its argument in progress, before anything else is done. *)
Theorem resolve_cycle_detected (limit : nat) (root : string)
    (installed : gset string) (r : Repository.t) (c : string) :
  root ∉ installed →
  rtc (needs r installed) root c →
  tc (needs r installed) c c →
  (∀ n, rtc (needs r installed) root n → ∃ p, lookup_result r n = Ok p) →
  size (known r) < limit →
  (∃ m, (Resolver.resolve limit root (Some installed) r).1
        = Raise (CircularDependency m)
        ∧ rtc (needs r installed) root m
        ∧ tc (needs r installed) m m)
  ∧ (∀ st n k, n ∉ installed → n ∈ Resolver.processing st →
               Resolver.visit installed (S k) n st
               = (Raise (CircularDependency n), st)).
Proof.
  intros Hroot Hreach Hcycle Hclosed Hlimit. split.
  - pose proof (resolve_spec limit root installed r Hlimit) as Hspec.
    destruct ((Resolver.resolve limit root (Some installed) r).1) as [l|e].
    + destruct Hspec as (Hnd & Hmem & Hord). exfalso.
      assert (c ∈ l) as Hc by (by apply Hmem).
      apply (before_irrefl l c Hnd).
      by apply (tc_before (needs r installed)).
    + destruct e; try done.
      * destruct Hspec as (_ & ? & ?). eauto.
      * destruct Hspec as (_ & Hm & Hmiss).
        apply Hclosed in Hm as [p Hp]. congruence.
  - intros st n k Hn Hp. cbn [Resolver.visit].
    rewrite decide_False by done. by rewrite decide_True.
Qed.

End resolve_claims.


(** On a stack too small for the chain, the call of [visit] for libA
    still fits and its lookup does not: the [RecursionError] of the
    lookup is caught by [except Exception] and leaves [resolve] as the
    lookup error for libA, although libA has a manifest.  With room for
    one more nested call the result is the post-order. *)
Lemma resolve_stack_exhausted :
  (@Resolver.resolve insertion_order example_platform 1 "libB"
     (Some ∅) chain).1
  = Raise (CouldNotFind "libA" RecursionError)
  ∧ @lookup_result example_platform chain "libA"
    = Ok {| Package.name := "libA"; Package.version := "latest";
            Package.source := Package.no_source;
            Package.dependencies := [];
            Package.build_dependencies := [] |}
  ∧ (@Resolver.resolve insertion_order example_platform 2 "libB"
       (Some ∅) chain).1
    = Ok ["libA"; "libB"].
Proof. split_and!; reflexivity. Qed.


(** C4 at the catalog [cyclic]. *)
Lemma resolve_cycle_detected_witness :
  (∃ m, (@Resolver.resolve insertion_order example_platform 1000 "A"
           (Some ∅) cyclic).1 = Raise (CircularDependency m)
        ∧ rtc (needs (H := example_platform) cyclic ∅) "A" m
        ∧ tc (needs (H := example_platform) cyclic ∅) m m)
  ∧ (∀ st n k, n ∉ (∅ : gset string) → n ∈ Resolver.processing st →
               @Resolver.visit insertion_order example_platform ∅ (S k) n st
               = (Raise (CircularDependency n), st)).
Proof.
  apply (@resolve_cycle_detected insertion_order example_platform 1000 "A" ∅
           cyclic "A").
  - set_solver.
  - done.
  - eapply tc_l; [apply cyclic_edges | apply tc_once, cyclic_edges].
  - intros n. apply cyclic_closed. by left.
  - vm_compute. lia.
Defined.

(** C4 as stated fails: in [cyclic_dangling] the cycle A, B is reachable
    from app and nothing is installed, and with the dependencies of app
    iterated in the order ghost, A the error is the lookup error. *)
Lemma resolve_cycle_not_reported :
  rtc (needs (H := example_platform) cyclic_dangling ∅) "app" "A"
  ∧ tc (needs (H := example_platform) cyclic_dangling ∅) "A" "A"
  ∧ (@Resolver.resolve insertion_order example_platform 1000 "app"
       (Some ∅) cyclic_dangling).1
    = Raise (CouldNotFind "ghost" (PackageNotFound "ghost")).
Proof.
  split_and!.
  - apply rtc_once, cyclic_dangling_edges.
  - eapply tc_l; [apply cyclic_dangling_edges | apply tc_once, cyclic_dangling_edges].
  - by vm_compute.
Qed.

(** The same call under the other iteration order meets the cycle first:
    which of the two errors is raised depends on the order in which the
    set of dependencies is iterated. *)
Lemma resolve_error_depends_on_order :
  (@Resolver.resolve reverse_order example_platform 1000 "app"
     (Some ∅) cyclic_dangling).1
  = Raise (CircularDependency "A").
Proof. by vm_compute. Qed.

Section installed_claims.
Context `{!PySetOrder, !Platform}.

Lemma for_each_installed (installed : gset string) (k : nat)
    (deps : list string) (st : Resolver.frame) :
  (∀ d, d ∈ deps → d ∈ installed) →
  for_each (Resolver.visit installed (S k)) deps st = (Ok (), st).
Proof.
  induction deps as [|d deps IH]; intros Hdeps; [done|].
  cbn [for_each Resolver.visit].
  rewrite decide_True by (apply Hdeps; left).
  apply IH. intros. apply Hdeps. by right.
Qed.

Lemma visit_S (installed : gset string) (limit : nat) (n : string)
    (st : Resolver.frame) :
  Resolver.visit installed (S limit) n st
  = if decide (n ∈ installed) then (Ok (), st)
    else if decide (n ∈ Resolver.processing st)
    then (Raise (CircularDependency n), st)
    else if decide (n ∈ Resolver.visited st) then (Ok (), st)
    else if decide (limit < Repository.frames n (Resolver.repository st))
    then (Raise (CouldNotFind n RecursionError),
          Resolver.set_repository
            (Repository.called n (Resolver.repository st))
            (Resolver.enter n st))
    else
      match Repository.get_package n
              (Resolver.repository (Resolver.enter n st)) with
      | (Raise e, r) =>
          (Raise (CouldNotFind n e),
           Resolver.set_repository r (Resolver.enter n st))
      | (Ok package, r) =>
          match for_each (Resolver.visit installed limit)
                  (Package.get_all_dependencies package)
                  (Resolver.set_repository r (Resolver.enter n st)) with
          | (Raise e, st) => (Raise e, st)
          | (Ok _, st) => (Ok (), Resolver.leave n st)
          end
      end.
Proof. done. Qed.

(** C3.  Whatever the catalog holds for them, [resolve] looks up no
    name of the installed set and lists none in its result, for every
    root, every recursion limit and every outcome; and when every
    dependency of a root that is not installed is installed, the result
    is the root alone, after the single lookup of the root. *)
Theorem resolve_trusts_installed (limit : nat) (root : string)
    (installed : gset string) (r : Repository.t) :
  (∃ l, Repository.lookups (Resolver.resolve limit root (Some installed) r).2
        = Repository.lookups r ++ l
        ∧ ∀ n, n ∈ l → n ∉ installed)
  ∧ (∀ l, (Resolver.resolve limit root (Some installed) r).1 = Ok l →
          ∀ n, n ∈ l → n ∉ installed)
  ∧ (∀ p, 1 < limit → root ∉ installed →
          lookup_result r root = Ok p →
          (∀ d, d ∈ Package.dependencies p ++ Package.build_dependencies p →
                d ∈ installed) →
          (Resolver.resolve limit root (Some installed) r).1 = Ok [root]
          ∧ Repository.lookups (Resolver.resolve limit root (Some installed) r).2
            = Repository.lookups r ++ [root]).
Proof.
  split_and!.
  - unfold Resolver.resolve.
    change (default ∅ (Some installed)) with installed. cbv zeta.
    match goal with |- context [Resolver.visit _ ?k _ ?st] =>
      destruct (visit_frame_ext installed k root st) as [Hl _];
      destruct (Resolver.visit installed k root st) as [[[]|e] st']
    end; exact Hl.
  - unfold Resolver.resolve.
    change (default ∅ (Some installed)) with installed. cbv zeta.
    match goal with |- context [Resolver.visit _ ?f _ ?st] =>
      destruct (visit_frame_ext installed f root st) as [_ (k & Hk & Hin)];
      destruct (Resolver.visit installed f root st) as [[[]|e] st']
    end; cbn in *; [|done].
    intros l [= <-]. by rewrite Hk.
  - intros p Hlimit Hroot Hp Hdeps.
    destruct limit as [|[|k]]; [lia | lia |].
    unfold Resolver.resolve.
    change (default ∅ (Some installed)) with installed. cbv zeta.
    change (S (S k) + max_lookup_frames) with (S (S (k + max_lookup_frames))).
    rewrite visit_S.
    rewrite decide_False by done.
    rewrite decide_False by set_solver. rewrite decide_False by set_solver.
    rewrite decide_False by (pose proof (frames_le root r); cbn; lia).
    pose proof (get_package_lookups root r) as Hlook.
    unfold lookup_result in Hp. cbn [Resolver.enter Resolver.repository].
    destruct (Repository.get_package root r) as [o r'].
    cbn [fst snd] in Hp, Hlook. subst o.
    rewrite for_each_installed.
    2:{ intros d Hd. apply Hdeps. by apply elem_of_get_all_dependencies. }
    cbn. done.
Qed.

End installed_claims.

(** C3 at the catalog [orphaned]: libA is installed and its manifest is
    never read, although it is broken. *)
Lemma resolve_trusts_installed_witness :
  (@Resolver.resolve insertion_order example_platform 1000 "libB"
     (Some {["libA"]}) orphaned).1 = Ok ["libB"]
  ∧ Repository.lookups
      (@Resolver.resolve insertion_order example_platform 1000 "libB"
         (Some {["libA"]}) orphaned).2
    = Repository.lookups orphaned ++ ["libB"].
Proof.
  eapply (proj2 (proj2 (@resolve_trusts_installed insertion_order
            example_platform 1000 "libB" {["libA"]} orphaned))).
  - lia.
  - by vm_compute.
  - reflexivity.
  - cbn. set_solver.
Defined.

(** ** The claims about [get_build_order] *)

(** C2 at the catalog [chain]. *)
Lemma get_build_order_topological_witness :
  ∃ res r',
    @Resolver.get_build_order insertion_order example_platform
      ["libB"; "libA"] chain = Some (res, r')
    ∧ (∀ n, @lookup_result example_platform r' n
            = @lookup_result example_platform chain n)
    ∧ match res with
      | Ok l =>
          l ≡ₚ ["libB"; "libA"]
          ∧ (∀ pkg dep,
               build_edge (H := example_platform) chain ["libB"; "libA"] pkg dep →
               before l dep pkg)
          ∧ (∀ c, ¬ tc (build_edge (H := example_platform) chain
                          ["libB"; "libA"]) c c)
      | Raise e =>
          e = CircularBuildOrder
          ∧ ∃ c, c ∈ ["libB"; "libA"]
                 ∧ tc (build_edge (H := example_platform) chain
                         ["libB"; "libA"]) c c
      end.
Proof.
  apply (@get_build_order_topological insertion_order example_platform
           ["libB"; "libA"] chain).
  apply (bool_decide_unpack _). by vm_compute.
Defined.

(** C2 as stated fails on a list with a repeated name: with libB named
    twice no input name reaches itself, and the cycle error is raised;
    with libA named twice the result lists libA twice. *)
Lemma get_build_order_repeated_name :
  (∀ c, ¬ tc (build_edge (H := example_platform) chain
                ["libB"; "libB"; "libA"]) c c)
  ∧ fst <$> @Resolver.get_build_order insertion_order example_platform
              ["libB"; "libB"; "libA"] chain
    = Some (Raise CircularBuildOrder)
  ∧ fst <$> @Resolver.get_build_order insertion_order example_platform
              ["libA"; "libA"] chain
    = Some (Ok ["libA"; "libA"]).
Proof.
  split_and!; [|by vm_compute..].
  intros c Hc.
  apply (acyclic_by_rank (@depends example_platform chain)
           (λ n, if decide (n = "libB") then 1 else 0) ) with (n := c).
  - intros a b Hab. catalog_edge Hab. vm_compute. lia.
  - eapply tc_subrel; [|exact Hc]. by intros a b (_ & _ & Hab).
Qed.

(** ** The claim about the database *)

(** C9.  When [installed.json] does not exist, or when opening or parsing
    it raises, [_load] returns the empty dictionary: the database object
    is built, holds no record, and [is_installed] answers false for every
    name. *)
Theorem load_degrades_to_empty (db_file : option Database.content) :
  db_file = None ∨ (∃ e, db_file = Some (Database.Unparsable e)) →
  Database._load db_file = ∅
  ∧ Database._installed (Database.__init__ db_file) = ∅
  ∧ Database.get_all_installed (Database.__init__ db_file) = ∅
  ∧ ∀ name, Database.is_installed name (Database.__init__ db_file) = false.
Proof.
  intros [-> | [e ->]]; cbn; (split_and!; [done | done | set_solver |]);
    intros name; apply bool_decide_eq_false; set_solver.
Qed.

Lemma load_degrades_to_empty_witness :
  Database._load (Some (Database.Unparsable JSONDecodeError)) = ∅
  ∧ Database._installed
      (Database.__init__ (Some (Database.Unparsable JSONDecodeError))) = ∅
  ∧ Database.get_all_installed
      (Database.__init__ (Some (Database.Unparsable JSONDecodeError))) = ∅
  ∧ ∀ name, Database.is_installed name
              (Database.__init__ (Some (Database.Unparsable JSONDecodeError)))
            = false.
Proof.
  apply (load_degrades_to_empty (Some (Database.Unparsable JSONDecodeError))).
  right. by exists JSONDecodeError.
Defined.

(** ** The claims about the fetcher *)
Section fetch_claims.
Context `{!Platform}.

(** The gate of [fetch]: an existing target directory is returned as it
    is when the fetch is not forced, whatever the kind of source. *)
Lemma fetch_existing_unforced (source_dir : string) (package : Package.t)
    (w : machine) :
  is_Some (fs w !! join source_dir (Package.name package)) →
  Fetcher.fetch source_dir package false w
  = (Ok (join source_dir (Package.name package)), w).
Proof.
  intros Hex. unfold Fetcher.fetch, exists_.
  by rewrite bool_decide_eq_true_2.
Qed.


(** C6, as amended.  A fetch that is not forced and finds the target
    directory returns it as it is, for every kind of source: no command
    is run.  The update in place is what [_fetch_git] does when it is
    entered with an existing target and without force, which [fetch]
    never does: when git is present and its commands succeed, it runs
    [git fetch origin] in the target and then checks out the tag if one
    is given, else the commit if one is given, else the branch, which
    defaults to main. *)
Theorem fetch_existing_checkout (source_dir : string) (package : Package.t)
    (w : machine) :
  is_Some (fs w !! join source_dir (Package.name package)) →
  Fetcher.fetch source_dir package false w
  = (Ok (join source_dir (Package.name package)), w)
  ∧ (∀ url, truthy (Package.url (Package.source package)) = Some url →
            (∀ e, exec w e = true) →
            let source := Package.source package in
            let target := join source_dir (Package.name package) in
            let ref := match truthy (Package.tag source),
                             truthy (Package.commit source) with
                       | Some t, _ => t
                       | None, Some c => c
                       | None, None => default "main" (Package.branch source)
                       end in
            Fetcher._fetch_git source target false w
            = (Ok target,
               log (Command ["git"; "checkout"; ref] (Some target))
                 (log (Command ["git"; "fetch"; "origin"] (Some target))
                    (log (Command ["git"; "--version"] None) w)))).
Proof.
  intros Hex. split; [by apply fetch_existing_unforced|].
  intros url Hurl Hexec. cbv zeta.
  unfold Fetcher._fetch_git. rewrite Hurl.
  unfold bind, run, Fetcher.checkout, run, ret, exists_.
  rewrite Hexec. cbn [fs log].
  rewrite bool_decide_eq_true_2 by done.
  cbn [exec log]. rewrite Hexec.
  destruct (truthy (Package.tag (Package.source package))) as [t|];
    [|destruct (truthy (Package.commit (Package.source package))) as [c|]];
    cbn [exec log]; by rewrite Hexec.
Qed.

End fetch_claims.



(** C6 on the machine [cloned]. *)
Lemma fetch_existing_checkout_witness :
  @Fetcher.fetch example_platform "/srv/sources" lib false cloned
  = (Ok (join "/srv/sources" (Package.name lib)), cloned)
  ∧ Fetcher._fetch_git (Package.source lib)
      (join "/srv/sources" (Package.name lib)) false cloned
    = (Ok (join "/srv/sources" (Package.name lib)),
       log (Command ["git"; "checkout"; "main"] (Some "/srv/sources/lib"))
         (log (Command ["git"; "fetch"; "origin"] (Some "/srv/sources/lib"))
            (log (Command ["git"; "--version"] None) cloned))).
Proof.
  destruct (@fetch_existing_checkout example_platform "/srv/sources" lib cloned)
    as [Hgate Hupdate].
  { by eexists. }
  split; [exact Hgate|].
  exact (Hupdate "https://example.org/lib.git" eq_refl (λ _, eq_refl)).
Defined.

(** C6 as stated fails: with the clone in place, a fetch without force
    runs no command at all, so no remote ref is retrieved and nothing is
    checked out. *)
Lemma fetch_git_runs_nothing :
  is_Some (fs cloned !! "/srv/sources/lib")
  ∧ Package.type (Package.source lib) = Some "git"
  ∧ trace (@Fetcher.fetch example_platform "/srv/sources" lib false cloned).2 = []
  ∧ (@Fetcher.fetch example_platform "/srv/sources" lib false cloned).2 = cloned.
Proof. split_and!; [by eexists | reflexivity..]. Qed.

(** C7 fails on the code for zip archives: the same tree with the single
    top-level directory proj-1.0 is lifted into the target when it comes
    from a tarball, and is left one level down when it comes from a zip
    file. *)
Theorem fetch_zip_keeps_top_directory :
  fs mirror !! "/srv/sources/proj" = None
  ∧ fs (@Fetcher.fetch example_platform "/srv/sources" proj_tar false mirror).2
      !! "/srv/sources/proj"
    = Some (Dir [("configure", File "#!/bin/sh"); ("src", Dir [])])
  ∧ (@Fetcher.fetch example_platform "/srv/sources" proj_zip false mirror).1
    = Ok "/srv/sources/proj"
  ∧ fs (@Fetcher.fetch example_platform "/srv/sources" proj_zip false mirror).2
      !! "/srv/sources/proj"
    = Some (Dir [("proj-1.0",
                  Dir [("configure", File "#!/bin/sh"); ("src", Dir [])])]).
Proof. split_and!; reflexivity. Qed.

(** ** The claims about the orchestrator *)
Section install_claims.
Context `{!PySetOrder, !Platform}.

Lemma coherent_new (r : Repository.t) :
  Repository._cache r = ∅ → coherent r.
Proof. intros Hc n p. by rewrite Hc, lookup_empty. Qed.

Lemma lookup_result_uncached (r : Repository.t) (n : string) :
  Repository._cache r !! n = None →
  lookup_result (uncached r) n = lookup_result r n.
Proof.
  intros Hc. unfold lookup_result, Repository.get_package, Repository.load.
  cbn. rewrite Hc, lookup_empty.
  repeat (case_match; cbn; try done).
Qed.

(** Lookups keep the cache coherent. *)
Lemma get_package_coherent (name : string) (r : Repository.t) :
  coherent r → coherent (Repository.get_package name r).2.
Proof.
  intros Hco.
  destruct (get_package_cases name r) as [->|(p & Hp & ->)].
  { intros n q Hc.
    change (lookup_result (Repository.called name (uncached r)) n = Ok q).
    rewrite lookup_result_called. by apply Hco. }
  intros n q.
  change (<[name:=p]> (Repository._cache r) !! n = Some q →
          lookup_result (Repository.called name (uncached r)) n = Ok q).
  rewrite lookup_result_called.
  destruct (decide (n = name)) as [->|Hne].
  - rewrite lookup_insert_eq. intros [= <-].
    destruct (Repository._cache r !! name) as [p'|] eqn:Hc.
    + rewrite (Hco _ _ Hc). unfold Repository.get_package in Hp.
      cbn in Hp. by rewrite Hc in Hp.
    + by rewrite lookup_result_uncached.
  - rewrite lookup_insert_ne by done. apply Hco.
Qed.

(** A name that is neither a catalog entry nor the path of an existing
    .json file cannot be looked up. *)
Lemma lookup_result_absent (r : Repository.t) (n : string) :
  coherent r →
  Repository.catalog r !! n = None →
  ¬ (is_Some (Repository.paths r !! n) ∧ path_suffix n = ".json") →
  lookup_result r n = Raise (PackageNotFound n).
Proof.
  intros Hco Hcat Hpath.
  assert (lookup_result (uncached r) n = Raise (PackageNotFound n)) as Hun.
  { unfold lookup_result, Repository.get_package, Repository.load. cbn.
    rewrite lookup_empty, Hcat.
    destruct (Repository.paths r !! n) eqn:Hp; [|done].
    rewrite decide_False; [done|]. intros ?. apply Hpath. eauto. }
  destruct (Repository._cache r !! n) as [p|] eqn:Hc.
  - apply Hco in Hc. congruence.
  - by rewrite <- lookup_result_uncached.
Qed.

(** "Get package" touches nothing but the repository. *)
Lemma find_package_frame (package_spec : string) (m : Manager.t) :
  ∃ r, (Manager.find_package package_spec m).2 = Manager.set_repository r m.
Proof.
  unfold Manager.find_package.
  destruct (Repository.get_package package_spec (Manager.repository m))
    as [[p|e] r]; [by exists r|].
  destruct (is_ValueError e); [|by exists r].
  destruct (Repository.paths r !! package_spec); by exists r.
Qed.

(** C8.  When the package that [install] finds for its argument is
    recorded in the database and the call is not forced, [install]
    returns at once: the result is the state reached by finding the
    package, in which the database with its file, the machine (its
    files and the list of the steps taken) and the configuration are
    the ones before the call. *)
Theorem install_already_installed (limit : nat) (package_spec : string)
    (m m' : Manager.t) (package : Package.t) :
  Manager.find_package package_spec m = (Ok package, m') →
  Database.is_installed (Package.name package) (Manager.database m) = true →
  Manager.install limit package_spec false m = Some (Ok (), m')
  ∧ Manager.database m' = Manager.database m
  ∧ Manager.host m' = Manager.host m
  ∧ Manager.config m' = Manager.config m.
Proof.
  intros Hfind Hinst.
  destruct (find_package_frame package_spec m) as [r Hr].
  rewrite Hfind in Hr. cbn in Hr. subst m'.
  split; [|done].
  unfold Manager.install. rewrite Hfind.
  cbn [Manager.database Manager.set_repository]. by rewrite Hinst.
Qed.

(** C10, as amended.  Let [install] load a valid manifest through the
    file-path fallback (the lookup of the argument raised a
    [ValueError], and the argument is the path of a readable manifest),
    and let the name in the manifest be neither a catalog entry nor the
    path of an existing .json file, and not recorded as installed.  Then
    [install], forced or not, raises the lookup error of the resolution
    step for that name, and the state it leaves differs from the one
    before the call in the repository object only: nothing was fetched,
    built, installed or recorded.  The repository is one whose cache
    holds only what its files give ([coherent]), as it does from
    construction on while the files do not change, and the interpreter
    allows at least one more nested call. *)
Theorem install_from_path_fails (limit : nat) (package_spec : string)
    (force : bool) (m : Manager.t) (e : exn) (f : Package.file)
    (package : Package.t) :
  coherent (Manager.repository m) →
  lookup_result (Manager.repository m) package_spec = Raise e →
  is_ValueError e = true →
  Repository.paths (Manager.repository m) !! package_spec = Some f →
  Package.from_file f = Ok package →
  Repository.catalog (Manager.repository m) !! Package.name package = None →
  ¬ (is_Some (Repository.paths (Manager.repository m) !! Package.name package)
     ∧ path_suffix (Package.name package) = ".json") →
  Database.is_installed (Package.name package) (Manager.database m) = false →
  0 < limit →
  ∃ r, Manager.install limit package_spec force m
       = Some (Raise (CouldNotFind (Package.name package)
                        (PackageNotFound (Package.name package))),
               Manager.set_repository r m).
Proof.
  intros Hco Hspec Hve Hpath Hfile Hcat Hnot Hinst Hlimit.
  pose proof (lookup_result_absent _ _ Hco Hcat Hnot) as Habs.
  unfold Manager.install, Manager.find_package.
  pose proof (get_package_stable package_spec (Manager.repository m)) as Hst.
  pose proof (get_package_files package_spec (Manager.repository m))
    as [_ Hpaths].
  unfold lookup_result in Hspec.
  destruct (Repository.get_package package_spec (Manager.repository m))
    as [o r1]. cbn [fst snd] in Hspec, Hst, Hpaths. subst o.
  rewrite Hve, Hpaths, Hpath, Hfile.
  cbn [Manager.database Manager.set_repository Manager.repository].
  rewrite Hinst. cbn [andb].
  destruct limit as [|k]; [lia|].
  unfold Resolver.resolve. cbn [default].
  change (S k + max_lookup_frames) with (S (k + max_lookup_frames)).
  rewrite visit_S.
  rewrite decide_False.
  2:{ unfold Database.is_installed, Database.get_all_installed in *.
      by apply bool_decide_eq_false in Hinst. }
  rewrite decide_False by set_solver. rewrite decide_False by set_solver.
  cbn [Resolver.enter Resolver.repository].
  rewrite decide_False
    by (pose proof (frames_le (Package.name package) r1); lia).
  specialize (Hst (Package.name package)). rewrite Habs in Hst.
  unfold lookup_result in Hst.
  destruct (Repository.get_package (Package.name package) r1) as [o r2].
  cbn [fst] in Hst. subst o. cbn. by exists r2.
Qed.

End install_claims.

(** C8 at the catalog [chain] with libA installed. *)
Lemma install_already_installed_witness :
  ∃ m', @Manager.install insertion_order example_platform 1000 "libA" false
          (manager_with chain ["libA"]) = Some (Ok (), m')
        ∧ Manager.database m' = Manager.database (manager_with chain ["libA"])
        ∧ Manager.host m' = Manager.host (manager_with chain ["libA"])
        ∧ Manager.config m' = Manager.config (manager_with chain ["libA"]).
Proof.
  eexists.
  eapply (@install_already_installed insertion_order example_platform 1000
            "libA" (manager_with chain ["libA"])).
  - reflexivity.
  - by vm_compute.
Defined.

(** C10 at a manifest outside the catalog, with nothing installed. *)
Lemma install_from_path_fails_witness :
  ∃ r, @Manager.install insertion_order example_platform 1000
         "pkgs/hello.manifest" false (manager_with hello_only [])
       = Some (Raise (CouldNotFind "hello" (PackageNotFound "hello")),
               Manager.set_repository r (manager_with hello_only [])).
Proof.
  eapply (@install_from_path_fails insertion_order example_platform 1000
            "pkgs/hello.manifest" false (manager_with hello_only [])
            (PackageNotFound "pkgs/hello.manifest")
            (manifest "hello" [] [])
            (package_of "hello" Package.no_source)).
  - by apply coherent_new.
  - by vm_compute.
  - reflexivity.
  - by vm_compute.
  - reflexivity.
  - by vm_compute.
  - intros [[? Hx] _]. by vm_compute in Hx.
  - by vm_compute.
  - lia.
Defined.

(** C10 as stated fails when the name in the manifest is recorded as
    installed: the call that is not forced returns without an error, and
    the forced one fails after the resolution step, which has nothing to
    look up, in the lookup of [_install_package]. *)
Lemma install_from_path_installed :
  Repository.catalog hello_only !! "hello" = None
  ∧ Repository.paths hello_only !! "hello" = None
  ∧ (@Manager.find_package example_platform "pkgs/hello.manifest"
       (manager_with hello_only ["hello"])).1
    = Ok (package_of "hello" Package.no_source)
  ∧ fst <$> @Manager.install insertion_order example_platform 1000
              "pkgs/hello.manifest" false (manager_with hello_only ["hello"])
    = Some (Ok ())
  ∧ fst <$> @Manager.install insertion_order example_platform 1000
              "pkgs/hello.manifest" true (manager_with hello_only ["hello"])
    = Some (Raise (PackageNotFound "hello")).
Proof. split_and!; by vm_compute. Qed.

(** * Further properties of the code *)

(** ** database.py: records, and the file behind them *)

(** X1.  [add_package] records the package under its name: the name is
    installed afterwards; its record holds the version and the run-time
    dependencies of the package (not its build dependencies), the
    install path and the time of the call; the set of installed names
    grows by this name, and the record of every other name is the one
    before the call. *)
Theorem add_package_recorded (package : Package.t) (install_path now : string)
    (db : Database.t) :
  let db' := Database.add_package package install_path now db in
  Database.is_installed (Package.name package) db' = true
  ∧ Database.get_package_info (Package.name package) db'
    = Some {| Database.name := Package.name package;
              Database.version := Package.version package;
              Database.install_path := install_path;
              Database.installed_at := now;
              Database.dependencies := Package.dependencies package |}
  ∧ Database.get_all_installed db'
    = {[Package.name package]} ∪ Database.get_all_installed db
  ∧ ∀ n, n ≠ Package.name package →
         Database.get_package_info n db' = Database.get_package_info n db
         ∧ Database.is_installed n db' = Database.is_installed n db.
Proof.
  cbv zeta.
  unfold Database.is_installed, Database.get_package_info,
    Database.get_all_installed, Database.add_package, Database._save.
  cbn [Database._installed].
  split_and!.
  - apply bool_decide_eq_true_2. rewrite dom_insert_L. set_solver.
  - by rewrite lookup_insert_eq.
  - by rewrite dom_insert_L.
  - intros n Hn. rewrite lookup_insert_ne by done. split; [done|].
    apply bool_decide_ext. rewrite dom_insert_L. set_solver.
Qed.

(** X2.  [remove_package] forgets the name and nothing else: the name is
    not installed afterwards and has no record, and the record of every
    other name is the one before the call.  For a name that is not
    installed the call changes nothing, neither in memory nor in the
    file, which is not rewritten. *)
Theorem remove_package_forgets (package_name : string) (db : Database.t) :
  let db' := Database.remove_package package_name db in
  Database.is_installed package_name db' = false
  ∧ Database.get_package_info package_name db' = None
  ∧ Database.get_all_installed db'
    = Database.get_all_installed db ∖ {[package_name]}
  ∧ (∀ n, n ≠ package_name →
          Database.get_package_info n db' = Database.get_package_info n db)
  ∧ (Database.is_installed package_name db = false → db' = db).
Proof.
  cbv zeta.
  unfold Database.remove_package.
  destruct (Database.is_installed package_name db) eqn:Hin.
  - unfold Database.is_installed, Database.get_package_info,
      Database.get_all_installed, Database._save.
    cbn [Database._installed].
    split_and!; [| | | |done].
    + apply bool_decide_eq_false_2. rewrite dom_delete_L. set_solver.
    + by rewrite lookup_delete_eq.
    + by rewrite dom_delete_L.
    + intros n Hn. by rewrite lookup_delete_ne.
  - pose proof Hin as Hnot. unfold Database.is_installed in Hnot.
    apply bool_decide_eq_false in Hnot.
    unfold Database.get_package_info, Database.get_all_installed.
    split_and!; [done | | | done | done].
    + by apply not_elem_of_dom.
    + set_solver.
Qed.

(** X3.  Every change is written through: after [add_package], and after
    [remove_package] of an installed name, the file holds the records in
    memory, so that a database object constructed from the file at that
    point is equal to the one that wrote it. *)
Theorem database_written_through (db : Database.t) :
  (∀ package install_path now,
     let db' := Database.add_package package install_path now db in
     Database.db_file db' = Some (Database.Document (Database._installed db'))
     ∧ Database.__init__ (Database.db_file db') = db')
  ∧ (∀ package_name,
       package_name ∈ Database.get_all_installed db →
       let db' := Database.remove_package package_name db in
       Database.db_file db' = Some (Database.Document (Database._installed db'))
       ∧ Database.__init__ (Database.db_file db') = db').
Proof.
  split.
  - intros package install_path now. cbv zeta. done.
  - intros package_name Hin. cbv zeta.
    unfold Database.remove_package, Database.is_installed.
    rewrite bool_decide_eq_true_2 by done. done.
Qed.

(** X4.  A store file that is missing or cannot be parsed is replaced
    without a trace by the first recording: after loading such a file,
    [add_package] leaves a file that holds the new record alone. *)
Theorem add_package_replaces_unreadable_store (db_file : option Database.content)
    (package : Package.t) (install_path now : string) :
  Database._load db_file = ∅ →
  Database.db_file
    (Database.add_package package install_path now (Database.__init__ db_file))
  = Some (Database.Document
            {[Package.name package :=
                {| Database.name := Package.name package;
                   Database.version := Package.version package;
                   Database.install_path := install_path;
                   Database.installed_at := now;
                   Database.dependencies := Package.dependencies package |}]}).
Proof.
  intros Hload. unfold Database.add_package, Database.__init__, Database._save.
  cbn [Database._installed Database.db_file]. rewrite Hload.
  by rewrite insert_empty.
Qed.

Lemma add_package_replaces_unreadable_store_witness :
  Database.db_file
    (Database.add_package (package_of "hello" Package.no_source)
       "/tsi/install" "2024-06-01T12:00:00"
       (Database.__init__ (Some (Database.Unparsable JSONDecodeError))))
  = Some (Database.Document
            {["hello" :=
                {| Database.name := "hello";
                   Database.version := "latest";
                   Database.install_path := "/tsi/install";
                   Database.installed_at := "2024-06-01T12:00:00";
                   Database.dependencies := [] |}]}).
Proof.
  apply (add_package_replaces_unreadable_store
           (Some (Database.Unparsable JSONDecodeError))
           (package_of "hello" Package.no_source)).
  reflexivity.
Defined.

(** X5.  Recording composes as dictionary assignment does.  Recording a
    name again replaces its record (the earlier version, path, time and
    dependencies are gone, nothing is merged); and recording a name that
    was not installed and then removing it leaves the records that were
    there before, with the file brought up to date. *)
Theorem add_package_then_change (db : Database.t) (p : Package.t)
    (install_path now : string) :
  (∀ q install_path' now',
     Package.name q = Package.name p →
     Database.add_package q install_path' now'
       (Database.add_package p install_path now db)
     = Database.add_package q install_path' now' db)
  ∧ (Package.name p ∉ Database.get_all_installed db →
     Database.remove_package (Package.name p)
       (Database.add_package p install_path now db)
     = Database._save db).
Proof.
  split.
  - intros q install_path' now' Hname.
    unfold Database.add_package, Database._save.
    cbn [Database._installed Database.db_file].
    rewrite Hname. by rewrite insert_insert_eq.
  - intros Hfresh. unfold Database.remove_package, Database.is_installed.
    rewrite bool_decide_eq_true_2.
    2:{ unfold Database.add_package, Database._save. cbn [Database._installed].
        rewrite dom_insert_L. set_solver. }
    unfold Database.add_package, Database._save.
    cbn [Database._installed Database.db_file].
    rewrite delete_insert_eq. rewrite delete_id; [done|].
    by apply not_elem_of_dom.
Qed.

(** ** package.py and repository.py: manifests, lookups and the cache *)

(** X6.  The constructor accepts a manifest exactly when it has a name
    that is not empty, and it raises nothing but the missing-name error.
    No package object has an empty name, and writing an object out with
    [to_dict] and constructing a package from the result gives the
    object back. *)
Theorem package_manifest_round_trip (manifest : Package.Manifest) :
  match Package.__init__ manifest with
  | Ok p =>
      Package.m_name manifest = Some (Package.name p)
      ∧ Package.name p ≠ ""
      ∧ Package.__init__ (Package.to_dict p) = Ok p
  | Raise e =>
      e = MissingName
      ∧ (Package.m_name manifest = None ∨ Package.m_name manifest = Some "")
  end.
Proof.
  unfold Package.__init__.
  destruct (Package.m_name manifest) as [n|]; [|by split; [|left]].
  destruct (decide (n = "")) as [->|Hn]; [by split; [|right]|].
  split_and!; [done | done |].
  unfold Package.to_dict. cbn. by rewrite decide_False.
Qed.

Section repository_extras.
Context `{!Platform}.

(** X8.  A lookup is repeatable.  [get_package] leaves the files as they
    are, adds at most the cache entry of its argument, and in whatever
    state it is called, cache coherent with the files or not, every
    name gives the same result after the call as before it: a lookup
    that succeeded keeps returning the same object, and one that raised
    keeps raising the same error. *)
Theorem get_package_repeatable (name : string) (r : Repository.t) :
  let r' := (Repository.get_package name r).2 in
  Repository.catalog r' = Repository.catalog r
  ∧ Repository.paths r' = Repository.paths r
  ∧ (∀ n, n ≠ name → Repository._cache r' !! n = Repository._cache r !! n)
  ∧ (∀ n, lookup_result r' n = lookup_result r n)
  ∧ (Repository.get_package name r').1 = (Repository.get_package name r).1.
Proof.
  cbv zeta. split_and!.
  - apply get_package_files.
  - apply get_package_files.
  - intros n Hn.
    destruct (get_package_cases name r) as [->|(p & _ & ->)]; [done|].
    cbn. by rewrite lookup_insert_ne.
  - apply get_package_stable.
  - apply (get_package_stable name r name).
Qed.

(** X9.  The cache is transparent.  In a repository whose cache holds
    only what the files give, as it does from construction on, every
    lookup returns what a new [Repository] over the same files returns,
    and lookups keep the cache that way. *)
Theorem cache_transparent (name : string) (r : Repository.t) :
  coherent r →
  (∀ n, lookup_result r n = lookup_result (uncached r) n)
  ∧ coherent (Repository.get_package name r).2.
Proof.
  intros Hco. split; [|by apply get_package_coherent].
  intros n. destruct (Repository._cache r !! n) as [p|] eqn:Hc.
  - rewrite (Hco _ _ Hc).
    unfold lookup_result, Repository.get_package. cbn. by rewrite Hc.
  - by rewrite lookup_result_uncached.
Qed.

End repository_extras.

(** X9 at the catalog [chain], after a lookup of libA has filled the
    cache. *)
Lemma cache_transparent_witness :
  (∀ n, @lookup_result example_platform
          (@Repository.get_package example_platform "libA" chain).2 n
        = @lookup_result example_platform
            (uncached (@Repository.get_package example_platform "libA" chain).2) n)
  ∧ @coherent example_platform
      (@Repository.get_package example_platform "libB"
         (@Repository.get_package example_platform "libA" chain).2).2.
Proof.
  apply (@cache_transparent example_platform "libB"
           (@Repository.get_package example_platform "libA" chain).2).
  apply get_package_coherent, coherent_new. reflexivity.
Defined.

(** ** fetcher.py: the steps of a fetch *)

Lemma reaches_refl (w : machine) : reaches w w.
Proof. split_and!; [done | done | exists []; by rewrite app_nil_r]. Qed.

Lemma reaches_trans (w1 w2 w3 : machine) :
  reaches w1 w2 → reaches w2 w3 → reaches w1 w3.
Proof.
  intros (Hr1 & He1 & (l1 & Hl1 & Ht1)) (Hr2 & He2 & (l2 & Hl2 & Ht2)).
  split_and!; [congruence | congruence |].
  exists (l1 ++ l2). split; [by rewrite Hl2, Hl1, (assoc_L (++))|].
  by apply Forall_app.
Qed.

Lemma confined_ret {A : Type} (a : A) : confined (ret a : action machine A).
Proof. intros w. apply reaches_refl. Qed.

Lemma confined_raise {A : Type} (e : exn) :
  confined (raise e : action machine A).
Proof. intros w. apply reaches_refl. Qed.

Lemma confined_bind {A B : Type} (m : action machine A)
    (k : A → action machine B) :
  confined m → (∀ a, confined (k a)) → confined (bind m k).
Proof.
  intros Hm Hk w. unfold bind. specialize (Hm w).
  destruct (m w) as [[a|e] w']; cbn [snd] in *; [|done].
  eapply reaches_trans; [done | apply Hk].
Qed.

Lemma confined_when (c : machine → bool) (body : action machine ()) :
  confined body → confined (λ w, when (c w) body w).
Proof.
  intros Hbody w. unfold when. destruct (c w); [apply Hbody | apply reaches_refl].
Qed.

Lemma confined_if {A : Type} (c : machine → bool) (m1 m2 : action machine A) :
  confined m1 → confined m2 → confined (λ w, if c w then m1 w else m2 w).
Proof. intros H1 H2 w. destruct (c w); [apply H1 | apply H2]. Qed.

Lemma reaches_log (e : event) (w : machine) :
  transfer e → reaches w (log e w).
Proof.
  intros He. split_and!; [done | done |].
  exists [e]. split; [done|]. by apply Forall_singleton.
Qed.

Lemma reaches_set_fs (f : gmap string node) (w : machine) :
  reaches w (set_fs f w).
Proof. split_and!; [done | done | exists []; by rewrite app_nil_r]. Qed.

Lemma confined_run (argv : list string) (cwd : option string) :
  confined (run argv cwd).
Proof. intros w. unfold run. by repeat case_match; apply reaches_log. Qed.

Lemma confined_rmtree (path : string) : confined (rmtree path).
Proof.
  intros w. unfold rmtree.
  repeat case_match; first [apply reaches_refl | apply reaches_set_fs].
Qed.

Lemma confined_copytree (src dst : string) : confined (copytree src dst).
Proof.
  intros w. unfold copytree.
  repeat case_match; first [apply reaches_refl | apply reaches_set_fs].
Qed.

Lemma confined_mkdir (path : string) : confined (mkdir path).
Proof.
  intros w. unfold mkdir.
  repeat case_match; first [apply reaches_refl | apply reaches_set_fs].
Qed.

Lemma confined_download_file (url target_path : string) :
  confined (Fetcher._download_file url target_path).
Proof.
  intros w. unfold Fetcher._download_file. cbv zeta.
  repeat case_match; cbn [snd];
    repeat first
      [ by apply reaches_log
      | eapply reaches_trans; [|apply reaches_set_fs] ];
    try (eapply reaches_trans; by apply reaches_log).
Qed.

Lemma confined_untar (tarball_path target_dir : string) :
  confined (Fetcher.untar tarball_path target_dir).
Proof.
  intros w. unfold Fetcher.untar.
  repeat case_match; first [apply reaches_refl | apply reaches_set_fs].
Qed.

Lemma confined_unzip (zip_path target_dir : string) :
  confined (Fetcher.unzip zip_path target_dir).
Proof.
  intros w. unfold Fetcher.unzip.
  repeat case_match; first [apply reaches_refl | apply reaches_set_fs].
Qed.

Lemma confined_hoist (target_dir : string) :
  confined (Fetcher.hoist target_dir).
Proof.
  intros w. unfold Fetcher.hoist.
  repeat case_match; cbn [snd];
    first [apply reaches_refl | apply reaches_set_fs].
Qed.

Lemma confined_clone (url target_dir : string) :
  confined (Fetcher.clone url target_dir).
Proof.
  unfold Fetcher.clone. apply confined_bind; [apply confined_run|].
  intros _ w. cbn [snd]. apply reaches_set_fs.
Qed.

Lemma confined_checkout (ref target_dir : string) :
  confined (Fetcher.checkout ref target_dir).
Proof. apply confined_run. Qed.

Section fetch_steps.
Context `{!Platform}.

Lemma confined_fetch_git (source : Package.Source) (target_dir : string)
    (force : bool) :
  confined (Fetcher._fetch_git source target_dir force).
Proof.
  unfold Fetcher._fetch_git.
  destruct (truthy (Package.url source)) as [url|]; [|apply confined_raise].
  apply confined_bind.
  { intros w. pose proof (confined_run ["git"; "--version"] None w) as Hrun.
    by destruct (run ["git"; "--version"] None w) as [[[]|e] w']. }
  intros _. cbv zeta.
  apply confined_if; [destruct force|].
  - apply confined_bind; [apply confined_rmtree|]. intros _.
    apply confined_bind; [apply confined_clone|]. intros _.
    apply confined_bind; [|intros; apply confined_ret].
    repeat case_match; try apply confined_checkout.
    unfold when. case_match; [apply confined_checkout | apply confined_ret].
  - apply confined_bind; [apply confined_run|]. intros _.
    apply confined_bind; [|intros; apply confined_ret].
    repeat case_match; apply confined_checkout.
  - apply confined_bind; [apply confined_clone|]. intros _.
    apply confined_bind; [|intros; apply confined_ret].
    repeat case_match; try apply confined_checkout.
    unfold when. case_match; [apply confined_checkout | apply confined_ret].
Qed.

Lemma confined_fetch_tarball (source_dir : string) (source : Package.Source)
    (target_dir : string) (force : bool) :
  confined (Fetcher._fetch_tarball source_dir source target_dir force).
Proof.
  unfold Fetcher._fetch_tarball.
  destruct (Package.url source) as [u|]; [|apply confined_raise].
  cbn [truthy default] in *.
  destruct (decide (u = "")); [apply confined_raise|]. cbv zeta.
  apply confined_bind.
  { apply (confined_when (λ w, negb (exists_ _ w) || force)).
    apply confined_download_file. }
  intros _. apply confined_bind.
  { apply (confined_when (λ w, exists_ _ w && force)).
    apply confined_rmtree. }
  intros _. apply confined_bind; [|intros; apply confined_ret].
  apply (confined_when (λ w, negb (exists_ _ w))).
  apply confined_bind; [apply confined_mkdir|]. intros _.
  apply confined_bind; [apply confined_untar|]. intros _.
  apply confined_hoist.
Qed.

Lemma confined_fetch_zip (source_dir : string) (source : Package.Source)
    (target_dir : string) (force : bool) :
  confined (Fetcher._fetch_zip source_dir source target_dir force).
Proof.
  unfold Fetcher._fetch_zip.
  destruct (Package.url source) as [u|]; [|apply confined_raise].
  cbn [truthy default] in *.
  destruct (decide (u = "")); [apply confined_raise|]. cbv zeta.
  apply confined_bind.
  { apply (confined_when (λ w, negb (exists_ _ w) || force)).
    apply confined_download_file. }
  intros _. apply confined_bind.
  { apply (confined_when (λ w, exists_ _ w && force)).
    apply confined_rmtree. }
  intros _. apply confined_bind; [|intros; apply confined_ret].
  apply (confined_when (λ w, negb (exists_ _ w))).
  apply confined_bind; [apply confined_mkdir|]. intros _.
  apply confined_unzip.
Qed.

Lemma confined_fetch_local (source : Package.Source) (target_dir : string) :
  confined (Fetcher._fetch_local source target_dir).
Proof.
  unfold Fetcher._fetch_local. cbv zeta.
  apply (confined_if (λ w, negb (exists_ _ w))); [apply confined_raise|].
  apply confined_bind.
  { apply (confined_when (λ w, exists_ _ w)). apply confined_rmtree. }
  intros _. apply confined_bind; [apply confined_copytree|].
  intros; apply confined_ret.
Qed.

(** Whatever the kind of source, the outcome and the force flag, the
    steps of a fetch are child processes and requests, appended to the
    ones taken before. *)
Lemma confined_fetch (source_dir : string) (package : Package.t)
    (force : bool) :
  confined (Fetcher.fetch source_dir package force).
Proof.
  unfold Fetcher.fetch. cbv zeta.
  apply (confined_if (λ w, exists_ _ w && negb force)); [apply confined_ret|].
  repeat case_decide.
  - apply confined_fetch_git.
  - apply confined_fetch_tarball.
  - apply confined_fetch_zip.
  - apply confined_fetch_local.
  - apply confined_raise.
Qed.

End fetch_steps.

(** ** fetcher.py: what a fetch leaves *)

Lemma bind_Ok {S A B : Type} (m : action S A) (k : A → action S B)
    (s s'' : S) (b : B) :
  bind m k s = (Ok b, s'') → ∃ a s', m s = (Ok a, s') ∧ k a s' = (Ok b, s'').
Proof. unfold bind. destruct (m s) as [[a|e] s']; [eauto | done]. Qed.

Lemma run_fs (argv : list string) (cwd : option string) (w : machine) :
  fs (run argv cwd w).2 = fs w.
Proof. unfold run. by repeat case_match. Qed.

Lemma exists_true (path : string) (w : machine) :
  exists_ path w = true ↔ is_Some (fs w !! path).
Proof. unfold exists_. apply bool_decide_eq_true. Qed.

Lemma exists_false (path : string) (w : machine) :
  exists_ path w = false ↔ fs w !! path = None.
Proof.
  unfold exists_. rewrite bool_decide_eq_false, eq_None_not_Some. done.
Qed.

Section fetch_lands.
Context `{!Platform}.

Lemma clone_lands (url target_dir : string) (w w' : machine) (u : ()) :
  Fetcher.clone url target_dir w = (Ok u, w') → is_Some (fs w' !! target_dir).
Proof.
  unfold Fetcher.clone. intros (? & w1 & _ & Hk)%bind_Ok.
  injection Hk as _ <-. cbn. rewrite lookup_insert_eq. eauto.
Qed.

Lemma checkout_fs (ref target_dir : string) (w w' : machine) (o : outcome ()) :
  Fetcher.checkout ref target_dir w = (o, w') → fs w' = fs w.
Proof.
  intros Hco. pose proof (run_fs ["git"; "checkout"; ref] (Some target_dir) w) as Hfs.
  unfold Fetcher.checkout in Hco. by rewrite Hco in Hfs.
Qed.

Lemma fetch_git_lands (source : Package.Source) (target_dir : string)
    (force : bool) (w w' : machine) (d : string) :
  Fetcher._fetch_git source target_dir force w = (Ok d, w') →
  d = target_dir ∧ is_Some (fs w' !! target_dir).
Proof.
  unfold Fetcher._fetch_git.
  destruct (truthy (Package.url source)) as [url|]; [|done].
  intros (? & w1 & Hgit & Hk)%bind_Ok. cbv zeta in Hk.
  assert (fs w1 = fs w) as Hfs1.
  { pose proof (run_fs ["git"; "--version"] None w) as Hrun.
    destruct (run ["git"; "--version"] None w) as [[[]|e] w0]; [|done].
    cbn [snd] in Hrun. by simplify_eq. }
  assert (∀ w2 : machine,
            (Fetcher.clone url target_dir ;;
             match truthy (Package.tag source), truthy (Package.commit source) with
             | Some t, _ => Fetcher.checkout t target_dir
             | None, Some c => Fetcher.checkout c target_dir
             | None, None =>
                 when (negb (bool_decide
                               (default "main" (Package.branch source) = "main")))
                   (Fetcher.checkout (default "main" (Package.branch source))
                      target_dir)
             end ;; ret target_dir) w2 = (Ok d, w') →
            d = target_dir ∧ is_Some (fs w' !! target_dir)) as Hfresh.
  { intros w2 (? & w3 & Hclone%clone_lands & (? & w4 & Hco & Hret)%bind_Ok)%bind_Ok.
    injection Hret as <- <-. split; [done|].
    assert (fs w4 = fs w3) as ->; [|done].
    revert Hco. unfold when, ret.
    repeat case_match; intros Hco;
      first [exact (checkout_fs _ _ _ _ _ Hco) | by simplify_eq]. }
  destruct (exists_ target_dir w1) eqn:Hex; [destruct force|].
  - apply bind_Ok in Hk as (? & w2 & _ & Hk). by apply Hfresh in Hk.
  - apply bind_Ok in Hk as (? & w2 & Hfetch & (? & w3 & Hco & Hret)%bind_Ok).
    injection Hret as <- <-. split; [done|].
    apply exists_true in Hex.
    assert (fs w2 = fs w1) as Hfs2.
    { pose proof (run_fs ["git"; "fetch"; "origin"] (Some target_dir) w1) as Hfs.
      by rewrite Hfetch in Hfs. }
    assert (fs w3 = fs w2) as Hfs3.
    { revert Hco. repeat case_match; intros Hco; exact (checkout_fs _ _ _ _ _ Hco). }
    by rewrite Hfs3, Hfs2.
  - by apply Hfresh in Hk.
Qed.

Lemma hoist_lands (target_dir : string) (w w' : machine) (o : outcome ()) :
  is_Some (fs w !! target_dir) →
  Fetcher.hoist target_dir w = (o, w') → is_Some (fs w' !! target_dir).
Proof.
  intros Hex. unfold Fetcher.hoist.
  repeat case_match; intros ?; simplify_eq; try done.
  cbn. rewrite lookup_insert_eq. eauto.
Qed.

Lemma fetch_tarball_lands (source_dir : string) (source : Package.Source)
    (target_dir : string) (force : bool) (w w' : machine) (d : string) :
  Fetcher._fetch_tarball source_dir source target_dir force w = (Ok d, w') →
  d = target_dir ∧ is_Some (fs w' !! target_dir).
Proof.
  unfold Fetcher._fetch_tarball.
  destruct (truthy (Package.url source)) as [url|]; [|done]. cbv zeta.
  intros (? & w1 & _ & (? & w2 & _ & (? & w3 & Hk & Hret)%bind_Ok)%bind_Ok)%bind_Ok.
  injection Hret as <- <-. split; [done|].
  destruct (exists_ target_dir w2) eqn:Hex; cbn [negb when] in Hk.
  - unfold ret in Hk. simplify_eq. by apply exists_true.
  - apply bind_Ok in Hk as (? & wa & _ & (? & wb & Huntar & Hhoist)%bind_Ok).
    eapply hoist_lands; [|done].
    revert Huntar. unfold Fetcher.untar. repeat case_match; intros ?; simplify_eq.
    cbn. rewrite lookup_insert_eq. eauto.
Qed.

Lemma fetch_zip_lands (source_dir : string) (source : Package.Source)
    (target_dir : string) (force : bool) (w w' : machine) (d : string) :
  Fetcher._fetch_zip source_dir source target_dir force w = (Ok d, w') →
  d = target_dir ∧ is_Some (fs w' !! target_dir).
Proof.
  unfold Fetcher._fetch_zip.
  destruct (truthy (Package.url source)) as [url|]; [|done]. cbv zeta.
  intros (? & w1 & _ & (? & w2 & _ & (? & w3 & Hk & Hret)%bind_Ok)%bind_Ok)%bind_Ok.
  injection Hret as <- <-. split; [done|].
  destruct (exists_ target_dir w2) eqn:Hex; cbn [negb when] in Hk.
  - unfold ret in Hk. simplify_eq. by apply exists_true.
  - apply bind_Ok in Hk as (? & wa & _ & Hunzip).
    revert Hunzip. unfold Fetcher.unzip. repeat case_match; intros ?; simplify_eq.
    cbn. rewrite lookup_insert_eq. eauto.
Qed.

Lemma fetch_local_lands (source : Package.Source) (target_dir : string)
    (w w' : machine) (d : string) :
  Fetcher._fetch_local source target_dir w = (Ok d, w') →
  d = target_dir ∧ is_Some (fs w' !! target_dir).
Proof.
  unfold Fetcher._fetch_local. cbv zeta. case_match; [done|].
  intros (? & w1 & _ & (? & w2 & Hcopy & Hret)%bind_Ok)%bind_Ok.
  injection Hret as <- <-. split; [done|].
  revert Hcopy. unfold copytree. repeat case_match; intros ?; simplify_eq.
  cbn. rewrite lookup_insert_eq. eauto.
Qed.

(** X11.  A fetch that returns leaves the package's directory in place
    and returns its path, whatever the kind of source and whether or not
    it was forced; a fetch without force that follows it returns the
    same path and takes no step at all. *)
Theorem fetch_lands_and_settles (source_dir : string) (package : Package.t)
    (force : bool) (w w' : machine) (d : string) :
  Fetcher.fetch source_dir package force w = (Ok d, w') →
  d = join source_dir (Package.name package)
  ∧ is_Some (fs w' !! d)
  ∧ Fetcher.fetch source_dir package false w' = (Ok d, w').
Proof.
  intros Hfetch.
  assert (d = join source_dir (Package.name package)
          ∧ is_Some (fs w' !! join source_dir (Package.name package)))
    as [-> Hex].
  { revert Hfetch. unfold Fetcher.fetch. cbv zeta.
    destruct (exists_ (join source_dir (Package.name package)) w && negb force)
      eqn:Hgate.
    { intros [= <- <-]. split; [done|].
      apply andb_true_iff in Hgate as [Hex _]. by apply exists_true. }
    repeat case_decide.
    - apply fetch_git_lands.
    - apply fetch_tarball_lands.
    - apply fetch_zip_lands.
    - apply fetch_local_lands.
    - done. }
  split_and!; [done | done |]. by apply fetch_existing_unforced.
Qed.

End fetch_lands.

(** X11 at the tarball of [mirror]. *)
Lemma fetch_lands_and_settles_witness :
  "/srv/sources/proj" = join "/srv/sources" (Package.name proj_tar)
  ∧ is_Some (fs (@Fetcher.fetch example_platform "/srv/sources" proj_tar false
                   mirror).2 !! "/srv/sources/proj")
  ∧ @Fetcher.fetch example_platform "/srv/sources" proj_tar false
      (@Fetcher.fetch example_platform "/srv/sources" proj_tar false mirror).2
    = (Ok "/srv/sources/proj",
       (@Fetcher.fetch example_platform "/srv/sources" proj_tar false mirror).2).
Proof.
  apply (@fetch_lands_and_settles example_platform "/srv/sources" proj_tar false
           mirror).
  reflexivity.
Defined.

(** ** fetcher.py: refusals, downloads and archives *)

Section fetch_extras.
Context `{!Platform}.

(** X12.  What [fetch] refuses, it refuses before it acts.  When the
    early return is not taken (no directory for the package yet, or the
    fetch is forced): a git, tarball or zip source without a url raises
    the missing-url error, a local source whose path does not exist
    raises the missing-path error, and a source type other than the four
    raises the unknown-type error, each time with the machine exactly as
    it was, so that even a forced fetch has not removed the directory it
    was to replace; and when [git --version] fails, a git source raises
    the git-required error after that one step, with every file as it
    was. *)
Theorem fetch_rejects_before_acting (source_dir : string) (package : Package.t)
    (force : bool) (w : machine) :
  exists_ (join source_dir (Package.name package)) w && negb force = false →
  let source := Package.source package in
  let kind := default "git" (Package.type source) in
  (kind ∈ ["git"; "tarball"; "zip"] → truthy (Package.url source) = None →
   Fetcher.fetch source_dir package force w = (Raise MissingUrl, w))
  ∧ (kind = "local" →
     fs w !! expanduser (default "" (Package.path source)) = None →
     Fetcher.fetch source_dir package force w
     = (Raise (LocalPathMissing
                 (expanduser (default "" (Package.path source)))), w))
  ∧ (kind ∉ ["git"; "tarball"; "zip"; "local"] →
     Fetcher.fetch source_dir package force w
     = (Raise (UnknownSourceType kind), w))
  ∧ (kind = "git" → is_Some (truthy (Package.url source)) →
     exec w (Command ["git"; "--version"] None) = false →
     Fetcher.fetch source_dir package force w
     = (Raise GitRequired, log (Command ["git"; "--version"] None) w)).
Proof.
  intros Hgate. cbv zeta. unfold Fetcher.fetch. cbv zeta. rewrite Hgate.
  split_and!.
  - intros Hkind Hurl.
    unfold Fetcher._fetch_git, Fetcher._fetch_tarball, Fetcher._fetch_zip.
    rewrite Hurl.
    repeat (apply elem_of_cons in Hkind as [->|Hkind]);
      [done.. | by apply elem_of_nil in Hkind].
  - intros -> Hpath. cbn.
    unfold Fetcher._fetch_local. cbv zeta.
    by rewrite (proj2 (exists_false _ _) Hpath).
  - intros Hkind. repeat (rewrite decide_False; [|set_solver]). done.
  - intros -> [url Hurl] Hexec. cbn.
    unfold Fetcher._fetch_git. rewrite Hurl.
    unfold bind, run. rewrite Hexec.
    by destruct (absent w (Command ["git"; "--version"] None)).
Qed.

(** A URL that serves something is downloaded, by [curl] or by the
    built-in client. *)
Lemma download_file_served (url target_path : string) (w : machine) (n : node) :
  remote w !! url = Some n →
  (Fetcher._download_file url target_path w).1 = Ok ()
  ∧ fs (Fetcher._download_file url target_path w).2 = <[target_path := n]> (fs w).
Proof.
  intros Hserved. unfold Fetcher._download_file. cbv zeta. rewrite Hserved.
  by destruct (exec w _).
Qed.

Lemma bind_then {S A B : Type} (m : action S A) (k : A → action S B)
    (s : S) (a : A) (s' : S) :
  m s = (Ok a, s') → bind m k s = k a s'.
Proof. intros Hm. unfold bind. by rewrite Hm. Qed.

Lemma hoist_items_clean (inner moved : list (string * node)) :
  "temp" ∉ inner.*1 → Fetcher.hoist_items inner moved = (Ok (), moved ++ inner).
Proof.
  revert moved. induction inner as [|[item_name item] inner IH]; intros moved Hno.
  { by rewrite app_nil_r. }
  cbn [Fetcher.hoist_items]. rewrite decide_False by set_solver.
  rewrite IH by set_solver. by rewrite <- (assoc_L (++)).
Qed.

Lemma hoist_items_temp (inner moved : list (string * node)) :
  "temp" ∈ inner.*1 → (Fetcher.hoist_items inner moved).1 = Raise OSError.
Proof.
  revert moved. induction inner as [|[item_name item] inner IH]; intros moved Hin.
  { by apply elem_of_nil in Hin. }
  cbn [Fetcher.hoist_items]. case_decide; [done|].
  apply IH. set_solver.
Qed.

(** The state in which [_fetch_tarball] starts to extract, when neither
    the package's directory nor the archive was there. *)
Lemma fetch_tarball_fresh (source_dir : string) (package : Package.t)
    (force : bool) (w : machine) (u : string) (n : node) :
  Package.type (Package.source package) = Some "tarball" →
  truthy (Package.url (Package.source package)) = Some u →
  let target := join source_dir (Package.name package) in
  let archive := join source_dir (Fetcher.archive_name u "source.tar.gz") in
  archive ≠ target →
  fs w !! target = None →
  fs w !! archive = None →
  remote w !! u = Some n →
  let w1 := (Fetcher._download_file u archive w).2 in
  fs w1 = <[archive := n]> (fs w)
  ∧ Fetcher.fetch source_dir package force w
    = ((Fetcher.untar archive target ;; Fetcher.hoist target ;; ret target)
         (set_fs (<[target := Dir []]> (fs w1)) w1)).
Proof.
  intros Hkind Hurl target archive Hne Htarget Harchive Hserved. cbv zeta.
  destruct (download_file_served u archive w n Hserved) as [Hok Hfs1].
  destruct (Fetcher._download_file u archive w) as [o w1] eqn:Hdl.
  cbn [fst snd] in *. subst o.
  split; [done|].
  unfold Fetcher.fetch. cbv zeta. fold target.
  rewrite (proj2 (exists_false _ _) Htarget). cbn [andb].
  rewrite Hkind. cbn [default].
  rewrite decide_False by done. rewrite decide_True by done.
  unfold Fetcher._fetch_tarball. rewrite Hurl. cbv zeta. fold archive.
  rewrite (bind_then _ _ _ () w1).
  2:{ by rewrite (proj2 (exists_false _ _) Harchive). }
  assert (fs w1 !! target = None) as Htarget1.
  { rewrite Hfs1, lookup_insert_ne by done. done. }
  rewrite (bind_then _ _ _ () w1).
  2:{ by rewrite (proj2 (exists_false _ _) Htarget1). }
  unfold bind at 1. cbv beta.
  rewrite (proj2 (exists_false _ _) Htarget1). cbn [negb when].
  unfold bind, mkdir. rewrite Htarget1.
  destruct (Fetcher.untar _ _ _) as [[[]|e] w2]; [|done].
  by destruct (Fetcher.hoist _ _) as [[[]|e] w3].
Qed.

(** X14.  The layout a tarball is extracted to.  Starting without the
    package's directory and without the archive, a fetch of a served
    tarball keeps the archive and fills the directory: with the members
    of the archive as they are, unless the archive consists of a single
    directory, whose entries are then moved up into the package's
    directory.  When one of these entries is itself called temp the
    move fails and the fetch raises. *)
Theorem fetch_tarball_layout (source_dir : string) (package : Package.t)
    (force : bool) (w : machine) (u : string) (members : list (string * node)) :
  Package.type (Package.source package) = Some "tarball" →
  truthy (Package.url (Package.source package)) = Some u →
  let target := join source_dir (Package.name package) in
  let archive := join source_dir (Fetcher.archive_name u "source.tar.gz") in
  archive ≠ target →
  fs w !! target = None →
  fs w !! archive = None →
  remote w !! u = Some (Tarball members) →
  let w1 := (Fetcher._download_file u archive w).2 in
  fs w1 !! archive = Some (Tarball members)
  ∧ match members with
    | [(top, Dir inner)] =>
        if decide ("temp" ∈ inner.*1)
        then (Fetcher.fetch source_dir package force w).1 = Raise OSError
        else Fetcher.fetch source_dir package force w
             = (Ok target, set_fs (<[target := Dir inner]> (fs w1)) w1)
    | _ =>
        Fetcher.fetch source_dir package force w
        = (Ok target, set_fs (<[target := Dir members]> (fs w1)) w1)
    end.
Proof.
  intros Hkind Hurl target archive Hne Htarget Harchive Hserved w1.
  destruct (fetch_tarball_fresh source_dir package force w u (Tarball members))
    as [Hfs1 Hfetch]; try done.
  fold target archive w1 in Hfs1, Hfetch.
  assert (fs w1 !! archive = Some (Tarball members)) as Harch1.
  { by rewrite Hfs1, lookup_insert_eq. }
  split; [done|]. rewrite Hfetch. clear Hfetch.
  unfold bind, Fetcher.untar, Fetcher.hoist, ret. cbn [fs set_fs].
  rewrite lookup_insert_ne by done. rewrite Harch1. cbn [fs set_fs].
  rewrite lookup_insert_eq, insert_insert_eq.
  destruct members as [|[top [| | |inner]] [|m members]]; try done.
  case_decide as Htemp.
  - pose proof (hoist_items_temp inner [] Htemp) as Hraise.
    destruct (Fetcher.hoist_items inner []) as [o entries].
    cbn [fst] in Hraise. by subst o.
  - rewrite hoist_items_clean by done. cbn [app fs set_fs].
    by rewrite insert_insert_eq.
Qed.

(** X15.  A failed extraction leaves a directory that later fetches take
    for the source.  When what the URL serves is not a tarball, the
    fetch raises after it has created the package's directory, which
    stays behind empty, beside the file that was downloaded; the next
    fetch without force finds the directory and returns it as the
    source, without an error and without a step. *)
Theorem fetch_tarball_failed_extraction (source_dir : string)
    (package : Package.t) (w : machine) (u : string) (n : node) :
  Package.type (Package.source package) = Some "tarball" →
  truthy (Package.url (Package.source package)) = Some u →
  let target := join source_dir (Package.name package) in
  let archive := join source_dir (Fetcher.archive_name u "source.tar.gz") in
  archive ≠ target →
  fs w !! target = None →
  fs w !! archive = None →
  remote w !! u = Some n →
  (∀ members, n ≠ Tarball members) →
  let r := Fetcher.fetch source_dir package false w in
  r.1 = Raise OSError
  ∧ fs r.2 !! target = Some (Dir [])
  ∧ fs r.2 !! archive = Some n
  ∧ Fetcher.fetch source_dir package false r.2 = (Ok target, r.2).
Proof.
  intros Hkind Hurl target archive Hne Htarget Harchive Hserved Hnot r.
  destruct (fetch_tarball_fresh source_dir package false w u n)
    as [Hfs1 Hfetch]; try done.
  fold target archive in Hfs1, Hfetch.
  assert (r.1 = Raise OSError
          ∧ fs r.2 !! target = Some (Dir [])
          ∧ fs r.2 !! archive = Some n) as (Hr & Ht & Ha).
  { unfold r. rewrite Hfetch.
    unfold bind, Fetcher.untar. cbn [fs set_fs].
    rewrite lookup_insert_ne by done. rewrite Hfs1, lookup_insert_eq.
    destruct n as [data|members|members|entries]; cbn [fst snd fs set_fs];
      try (by destruct (Hnot members));
      (split_and!; [done | by rewrite lookup_insert_eq |]);
      rewrite lookup_insert_ne by done; by rewrite lookup_insert_eq. }
  split_and!; [done | done | done |].
  apply fetch_existing_unforced. fold target. by rewrite Ht.
Qed.

Lemma files_only_bind {A B : Type} (m : action machine A)
    (k : A → action machine B) :
  files_only m → (∀ a, files_only (k a)) → files_only (bind m k).
Proof.
  intros Hm Hk w. destruct (Hm w) as (o & f & Hmw).
  destruct o as [a|e].
  - destruct (Hk a (set_fs f w)) as (o' & f' & Hkw).
    exists o', f'. intros w0 Hfs. unfold bind. rewrite (Hmw w0 Hfs).
    by rewrite (Hkw (set_fs f w0)).
  - exists (Raise e), f. intros w0 Hfs. unfold bind. by rewrite (Hmw w0 Hfs).
Qed.

Lemma files_only_ret {A : Type} (a : A) : files_only (ret a : action machine A).
Proof. intros w. exists (Ok a), (fs w). intros w0 <-. by destruct w0. Qed.

Lemma files_only_mkdir (path : string) : files_only (mkdir path).
Proof.
  intros w. unfold mkdir.
  destruct (fs w !! path) as [[data|members|members|entries]|] eqn:Hp;
    [exists (Raise OSError), (fs w) | exists (Raise OSError), (fs w)
     | exists (Raise OSError), (fs w) | exists (Ok ()), (fs w)
     | exists (Ok ()), (<[path := Dir []]> (fs w))];
    intros w0 Hfs; rewrite Hfs, Hp; rewrite <- ?Hfs; by destruct w0.
Qed.

Lemma files_only_untar (tarball_path target_dir : string) :
  files_only (Fetcher.untar tarball_path target_dir).
Proof.
  intros w. unfold Fetcher.untar.
  destruct (fs w !! tarball_path) as [[data|members|members|entries]|] eqn:Hp;
    [exists (Raise OSError), (fs w)
     | exists (Ok ()), (<[target_dir := Dir members]> (fs w))
     | exists (Raise OSError), (fs w) | exists (Raise OSError), (fs w)
     | exists (Raise OSError), (fs w)];
    intros w0 Hfs; rewrite Hfs, Hp; rewrite <- ?Hfs; by destruct w0.
Qed.

Lemma files_only_hoist (target_dir : string) :
  files_only (Fetcher.hoist target_dir).
Proof.
  intros w. unfold Fetcher.hoist.
  destruct (fs w !! target_dir)
    as [[data|members|members|[|[top [| | |inner]] [|m members]]]|] eqn:Hp;
    try (exists (Ok ()), (fs w); intros w0 Hfs; rewrite Hfs, Hp;
         rewrite <- ?Hfs; by destruct w0).
  destruct (Fetcher.hoist_items inner []) as [o entries] eqn:Hh.
  exists o, (<[target_dir := Dir entries]> (fs w)).
  intros w0 Hfs. rewrite Hfs, Hp, Hh. by rewrite <- Hfs.
Qed.

(** With the archive in place and no force, [fetch] for a tarball source
    is the early return or the extraction. *)
Lemma fetch_tarball_kept (source_dir : string) (package : Package.t)
    (w : machine) (u : string) :
  Package.type (Package.source package) = Some "tarball" →
  truthy (Package.url (Package.source package)) = Some u →
  let target := join source_dir (Package.name package) in
  let archive := join source_dir (Fetcher.archive_name u "source.tar.gz") in
  is_Some (fs w !! archive) →
  Fetcher.fetch source_dir package false w
  = (if exists_ target w then (Ok target, w)
     else ((mkdir target ;; Fetcher.untar archive target ;;
            Fetcher.hoist target) ;; ret target) w).
Proof.
  intros Hkind Hurl target archive Harchive.
  unfold Fetcher.fetch. cbv zeta. fold target.
  destruct (exists_ target w) eqn:Hex; [done|]. cbn [andb].
  rewrite Hkind. cbn [default].
  rewrite decide_False by done. rewrite decide_True by done.
  unfold Fetcher._fetch_tarball. rewrite Hurl. cbv zeta. fold archive.
  rewrite (bind_then _ _ _ () w).
  2:{ by rewrite (proj2 (exists_true _ _) Harchive). }
  rewrite (bind_then _ _ _ () w).
  2:{ by rewrite Hex. }
  unfold bind at 1 4. cbv beta. by rewrite Hex.
Qed.

(** X16.  An archive that is already in the source directory is used as
    it is.  Without force, a tarball fetch that finds the archive file
    makes no request and runs no command, and its outcome and the files
    it leaves are determined by the files alone: what the URL serves
    now, and whether any tool would run, play no part. *)
Theorem fetch_tarball_uses_kept_archive (source_dir : string)
    (package : Package.t) (w : machine) (u : string) :
  Package.type (Package.source package) = Some "tarball" →
  truthy (Package.url (Package.source package)) = Some u →
  let archive := join source_dir (Fetcher.archive_name u "source.tar.gz") in
  is_Some (fs w !! archive) →
  trace (Fetcher.fetch source_dir package false w).2 = trace w
  ∧ ∀ w2, fs w2 = fs w →
          (Fetcher.fetch source_dir package false w2).1
          = (Fetcher.fetch source_dir package false w).1
          ∧ fs (Fetcher.fetch source_dir package false w2).2
            = fs (Fetcher.fetch source_dir package false w).2.
Proof.
  intros Hkind Hurl archive Harchive.
  set (target := join source_dir (Package.name package)).
  assert (files_only
            (λ w, if exists_ target w then (Ok target, w)
                  else ((mkdir target ;; Fetcher.untar archive target ;;
                         Fetcher.hoist target) ;; ret target) w)) as Hfiles.
  { intros w0. unfold exists_.
    destruct (fs w0 !! target) as [t|] eqn:Ht.
    - exists (Ok target), (fs w0). intros w1 Hfs.
      rewrite Hfs, Ht, bool_decide_eq_true_2 by eauto.
      rewrite <- Hfs. by destruct w1.
    - destruct (files_only_bind
                  (mkdir target ;; Fetcher.untar archive target ;;
                   Fetcher.hoist target) (λ _, ret target)) with (w := w0)
        as (o & f & Hw0).
      + apply files_only_bind; [apply files_only_mkdir|]. intros _.
        apply files_only_bind; [apply files_only_untar|]. intros _.
        apply files_only_hoist.
      + intros _. apply files_only_ret.
      + exists o, f. intros w1 Hfs.
        rewrite Hfs, Ht, bool_decide_eq_false_2 by (by intros [? ?]).
        by apply Hw0. }
  destruct (Hfiles w) as (o & f & Hw).
  assert (∀ w2, fs w2 = fs w →
            Fetcher.fetch source_dir package false w2 = (o, set_fs f w2))
    as Hfetch.
  { intros w2 Hfs. rewrite (fetch_tarball_kept source_dir package w2 u);
      [by apply Hw | done | done | by rewrite Hfs]. }
  split.
  - by rewrite (Hfetch w eq_refl).
  - intros w2 Hfs. by rewrite (Hfetch w2 Hfs), (Hfetch w eq_refl).
Qed.

End fetch_extras.

(** X12 at a source of an unknown type: the forced fetch raises, and the
    copy it was to replace is still there. *)
Lemma fetch_rejects_before_acting_witness :
  @Fetcher.fetch example_platform "/srv/sources" odd true stale_copy
  = (Raise (UnknownSourceType "svn"), stale_copy).
Proof.
  apply (@fetch_rejects_before_acting example_platform "/srv/sources" odd true
           stale_copy).
  - reflexivity.
  - cbn. intros Hin. by repeat (apply elem_of_cons in Hin as [Hin|Hin]);
      [..|apply elem_of_nil in Hin].
Defined.

(** X14 at the tarball of [mirror]. *)
Lemma fetch_tarball_layout_witness :
  (@Fetcher.fetch example_platform "/srv/sources" proj_tar false mirror).1
  = Ok "/srv/sources/proj"
  ∧ fs (@Fetcher.fetch example_platform "/srv/sources" proj_tar false mirror).2
      !! "/srv/sources/proj"
    = Some (Dir [("configure", File "#!/bin/sh"); ("src", Dir [])]).
Proof.
  destruct (@fetch_tarball_layout example_platform "/srv/sources" proj_tar false
              mirror "https://example.org/proj-1.0.tar.gz" project)
    as [_ Hlayout]; [reflexivity | reflexivity | by vm_compute | reflexivity..|].
  cbn [project] in Hlayout. rewrite decide_False in Hlayout.
  - rewrite Hlayout. split; reflexivity.
  - cbn. intros Hin. by repeat (apply elem_of_cons in Hin as [Hin|Hin]);
      [..|apply elem_of_nil in Hin].
Defined.

(** X15 at a server that answers with an error page. *)
Lemma fetch_tarball_failed_extraction_witness :
  (@Fetcher.fetch example_platform "/srv/sources" proj_tar false error_page).1
  = Raise OSError
  ∧ fs (@Fetcher.fetch example_platform "/srv/sources" proj_tar false
          error_page).2 !! "/srv/sources/proj" = Some (Dir [])
  ∧ fs (@Fetcher.fetch example_platform "/srv/sources" proj_tar false
          error_page).2 !! "/srv/sources/proj-1.0.tar.gz"
    = Some (File "<html>Not Found</html>")
  ∧ @Fetcher.fetch example_platform "/srv/sources" proj_tar false
      (@Fetcher.fetch example_platform "/srv/sources" proj_tar false
         error_page).2
    = (Ok "/srv/sources/proj",
       (@Fetcher.fetch example_platform "/srv/sources" proj_tar false
          error_page).2).
Proof.
  apply (@fetch_tarball_failed_extraction example_platform "/srv/sources"
           proj_tar error_page "https://example.org/proj-1.0.tar.gz"
           (File "<html>Not Found</html>"));
    [reflexivity | reflexivity | by vm_compute | reflexivity.. | done].
Defined.

(** X16 at a source directory that holds the archive, on a machine that
    serves nothing. *)
Lemma fetch_tarball_uses_kept_archive_witness :
  trace (@Fetcher.fetch example_platform "/srv/sources" proj_tar false
           offline).2 = trace offline
  ∧ ∀ w2, fs w2 = fs offline →
          (@Fetcher.fetch example_platform "/srv/sources" proj_tar false w2).1
          = (@Fetcher.fetch example_platform "/srv/sources" proj_tar false
               offline).1
          ∧ fs (@Fetcher.fetch example_platform "/srv/sources" proj_tar false
                  w2).2
            = fs (@Fetcher.fetch example_platform "/srv/sources" proj_tar false
                    offline).2.
Proof.
  apply (@fetch_tarball_uses_kept_archive example_platform "/srv/sources"
           proj_tar offline "https://example.org/proj-1.0.tar.gz");
    [reflexivity | reflexivity | by eexists].
Defined.
Section fetch_git_extras.
Context `{!Platform}.

(** X17.  A clone.  For a git source (a source without a type is one),
    when there is no directory for the package yet, or the fetch is
    forced over an existing directory, and every command succeeds, the
    fetch runs [git --version], then [git clone --depth 1] of the url
    into the package's directory, then at most one [git checkout]: of
    the tag if one is given, else of the commit if one is given, else of
    the branch, but only when a branch other than main is named.  For
    the branch main, named or by default, nothing is checked out: the
    clone stays on whatever the remote's default branch is. *)
Theorem fetch_git_fresh_clone (source_dir : string) (package : Package.t)
    (force : bool) (w : machine) (u : string) :
  default "git" (Package.type (Package.source package)) = "git" →
  truthy (Package.url (Package.source package)) = Some u →
  (∀ e, exec w e = true) →
  let source := Package.source package in
  let target := join source_dir (Package.name package) in
  fs w !! target = None
  ∨ (force = true ∧ ∃ old, fs w !! target = Some (Dir old)) →
  let ref := match truthy (Package.tag source), truthy (Package.commit source) with
             | Some t, _ => Some t
             | None, Some c => Some c
             | None, None =>
                 if decide (default "main" (Package.branch source) = "main")
                 then None
                 else Some (default "main" (Package.branch source))
             end in
  ∃ w', Fetcher.fetch source_dir package force w = (Ok target, w')
        ∧ is_Some (fs w' !! target)
        ∧ (∀ path, path ≠ target → fs w' !! path = fs w !! path)
        ∧ trace w'
          = trace w
            ++ [Command ["git"; "--version"] None;
                Command ["git"; "clone"; "--depth"; "1"; u; target] None]
            ++ match ref with
               | Some r => [Command ["git"; "checkout"; r] (Some target)]
               | None => []
               end.
Proof.
  intros Hkind Hurl Hexec source target Hstart ref. subst source.
  set (tree := match remote w !! u with
               | Some (Dir entries) => Dir entries
               | _ => Dir []
               end).
  assert (exists_ target w && negb force = false) as Hgate.
  { destruct Hstart as [Hnone|[-> _]]; [|apply andb_false_r].
    by rewrite (proj2 (exists_false _ _) Hnone). }
  unfold Fetcher.fetch. cbv zeta. fold target. rewrite Hgate, Hkind.
  rewrite decide_True by done.
  unfold Fetcher._fetch_git. rewrite Hurl. cbv zeta.
  set (w1 := log (Command ["git"; "--version"] None) w).
  rewrite (bind_then _ _ _ () w1).
  2:{ unfold run. by rewrite Hexec. }
  set (fresh := (Fetcher.clone u target ;; _ ;; ret target)).
  set (w2 := log (Command ["git"; "clone"; "--depth"; "1"; u; target] None) w1).
  assert (∀ f, ∃ w', fresh (set_fs f w1) = (Ok target, w')
                     ∧ fs w' = <[target := tree]> f
                     ∧ trace w'
                       = trace w2
                         ++ match ref with
                            | Some r =>
                                [Command ["git"; "checkout"; r] (Some target)]
                            | None => []
                            end) as Hfresh.
  { intros f. unfold fresh, ref, Fetcher.clone, Fetcher.checkout, when.
    unfold bind, run, ret, w2, w1. cbn [exec set_fs log fs remote trace].
    rewrite !Hexec.
    destruct (truthy (Package.tag (Package.source package))) as [t|];
      [|destruct (truthy (Package.commit (Package.source package))) as [c|];
        [|destruct (decide (default "main"
                              (Package.branch (Package.source package)) = "main"))
            as [Hb|Hb]]];
      cbn [exec set_fs log fs remote trace negb];
      rewrite ?Hexec, ?(bool_decide_eq_true_2 _ Hb),
        ?(bool_decide_eq_false_2 _ Hb);
      cbn [negb exec set_fs log fs remote trace]; rewrite ?Hexec;
      (eexists; split; [reflexivity|]);
      cbn [exec set_fs log fs remote trace]; split; try done;
      by rewrite ?app_nil_r. }
  assert (trace w2 = trace w
                     ++ [Command ["git"; "--version"] None;
                         Command ["git"; "clone"; "--depth"; "1"; u; target] None])
    as Htrace.
  { cbn. by rewrite <- (assoc_L (++)). }
  destruct Hstart as [Hnone|[-> [old Hold]]].
  - rewrite (proj2 (exists_false target w1) Hnone).
    destruct (Hfresh (fs w)) as (w' & Hrun & Hfs & Htr).
    exists w'. split_and!.
    + rewrite <- Hrun. done.
    + rewrite Hfs, lookup_insert_eq. eauto.
    + intros path Hpath. by rewrite Hfs, lookup_insert_ne.
    + rewrite Htr, Htrace. by rewrite <- (assoc_L (++)).
  - rewrite (proj2 (exists_true target w1)) by (cbn; rewrite Hold; eauto).
    unfold bind at 1, rmtree. cbn [fs log w1]. rewrite Hold.
    destruct (Hfresh (delete target (fs w))) as (w' & Hrun & Hfs & Htr).
    exists w'. split_and!.
    + done.
    + rewrite Hfs, lookup_insert_eq. eauto.
    + intros path Hpath.
      by rewrite Hfs, lookup_insert_ne, lookup_delete_ne.
    + rewrite Htr, Htrace. by rewrite <- (assoc_L (++)).
Qed.

End fetch_git_extras.

(** X17 at a source without a type, with a tag and a branch: the tag is
    checked out. *)
Lemma fetch_git_fresh_clone_witness :
  ∃ w', @Fetcher.fetch example_platform "/srv/sources" lib_tagged false upstream
        = (Ok "/srv/sources/lib", w')
        ∧ is_Some (fs w' !! "/srv/sources/lib")
        ∧ (∀ path, path ≠ "/srv/sources/lib" →
                   fs w' !! path = fs upstream !! path)
        ∧ trace w'
          = trace upstream
            ++ [Command ["git"; "--version"] None;
                Command ["git"; "clone"; "--depth"; "1";
                         "https://example.org/lib.git"; "/srv/sources/lib"] None]
            ++ [Command ["git"; "checkout"; "v1.2"] (Some "/srv/sources/lib")].
Proof.
  apply (@fetch_git_fresh_clone example_platform "/srv/sources" lib_tagged false
           upstream "https://example.org/lib.git");
    [reflexivity | reflexivity | done | by left].
Defined.

(** ** manager.py: what the orchestrator records *)

(** X18.  [remove] only forgets.  It deletes the record of the name, if
    there is one, and touches nothing else: the machine, with every
    installed file and the list of steps, the repository and the
    configuration are the ones before the call, and so is the record of
    every other name.  No command is run and no file is removed. *)
Theorem remove_only_forgets (package_name : string) (m : Manager.t) :
  let m' := Manager.remove package_name m in
  Manager.host m' = Manager.host m
  ∧ Manager.repository m' = Manager.repository m
  ∧ Manager.config m' = Manager.config m
  ∧ Database.get_all_installed (Manager.database m')
    = Database.get_all_installed (Manager.database m) ∖ {[package_name]}
  ∧ ∀ n, n ≠ package_name →
         Database.get_package_info n (Manager.database m')
         = Database.get_package_info n (Manager.database m).
Proof.
  cbv zeta. unfold Manager.remove, Database.remove_package.
  destruct (Database.is_installed package_name (Manager.database m)) eqn:Hin;
    cbn; (split_and!; [done | done | done | |]).
  - unfold Database.get_all_installed. cbn. by rewrite dom_delete_L.
  - intros n Hn. unfold Database.get_package_info. cbn.
    by rewrite lookup_delete_ne.
  - unfold Database.is_installed in Hin. apply bool_decide_eq_false in Hin.
    unfold Database.get_all_installed. set_solver.
  - done.
Qed.

Ltac manager_simpl :=
  cbn [fst snd Manager.host Manager.set_host Manager.set_repository
       Manager.set_database Manager.config Manager.clock Manager.database
       Manager.repository] in *.

Section manager_extras.
Context `{!PySetOrder, !Platform}.

Lemma advances_refl (m : Manager.t) : advances m m.
Proof.
  split_and!; [done | done | done | done | by exists []; rewrite app_nil_r].
Qed.

Lemma advances_trans (m1 m2 m3 : Manager.t) :
  advances m1 m2 → advances m2 m3 → advances m1 m3.
Proof.
  intros (Hc1 & Hk1 & Hr1 & Hd1 & l1 & Hl1) (Hc2 & Hk2 & Hr2 & Hd2 & l2 & Hl2).
  split_and!; [congruence | congruence | | set_solver |].
  - intros n. by rewrite Hr2, Hr1.
  - exists (l1 ++ l2). by rewrite Hl2, Hl1, (assoc_L (++)).
Qed.

Lemma advances_set_repository (r : Repository.t) (m : Manager.t) :
  (∀ n, lookup_result r n = lookup_result (Manager.repository m) n) →
  advances m (Manager.set_repository r m).
Proof.
  intros Hr.
  split_and!; [done | done | done | done | by exists []; rewrite app_nil_r].
Qed.

Lemma advances_set_host (w : machine) (m : Manager.t) :
  (∃ l, trace w = trace (Manager.host m) ++ l) →
  advances m (Manager.set_host w m).
Proof. intros Hl. split_and!; done. Qed.

Lemma advances_find_package (package_spec : string) (m : Manager.t) :
  advances m (Manager.find_package package_spec m).2.
Proof.
  unfold Manager.find_package.
  pose proof (get_package_stable package_spec (Manager.repository m)) as Hst.
  destruct (Repository.get_package package_spec (Manager.repository m))
    as [[p|e] r]; cbn [snd] in *; [by apply advances_set_repository|].
  destruct (is_ValueError e); [|by apply advances_set_repository].
  destruct (Repository.paths r !! package_spec);
    by apply advances_set_repository.
Qed.

Lemma step_trace (e : event) (w : machine) :
  trace (Builder.step e w).2 = trace w ++ [e].
Proof. unfold Builder.step. by case_match. Qed.

(** What [_install_package] leaves, by outcome. *)
Lemma install_package_cases (package_name : string) (force : bool)
    (m : Manager.t) :
  advances m (Manager._install_package package_name force m).2
  ∧ match (Manager._install_package package_name force m).1 with
    | Ok _ =>
        ∃ package l,
          lookup_result (Manager.repository m) package_name = Ok package
          ∧ Manager.database (Manager._install_package package_name force m).2
            = Database.add_package package
                (Manager.install_dir (Manager.config m)) (Manager.clock m)
                (Manager.database m)
          ∧ trace (Manager.host (Manager._install_package package_name force m).2)
            = trace (Manager.host m) ++ l
              ++ [Build (Package.name package); Install (Package.name package)]
          ∧ Forall transfer l
    | Raise _ =>
        Manager.database (Manager._install_package package_name force m).2
        = Manager.database m
    end.
Proof.
  unfold Manager._install_package, bind, Manager.on_repository.
  pose proof (get_package_stable package_name (Manager.repository m)) as Hst.
  pose proof (get_package_fst package_name (Manager.repository m)) as Hfst.
  destruct (Repository.get_package package_name (Manager.repository m))
    as [[package|e] r]; cbn [fst snd] in *.
  2:{ split; [by apply advances_set_repository | done]. }
  unfold Manager.on_host. manager_simpl.
  destruct (confined_fetch (Manager.source_dir (Manager.config m)) package force
              (Manager.host m)) as (_ & _ & (l1 & Hl1 & Ht1)).
  destruct (Fetcher.fetch (Manager.source_dir (Manager.config m)) package force
              (Manager.host m)) as [[dir|e] w1]; manager_simpl.
  2:{ split; [|done]. split_and!; [done | done | done | done | by exists l1]. }
  unfold Builder.build, Builder.install, bind, ret. manager_simpl.
  pose proof (step_trace (Build (Package.name package)) w1) as Hb.
  destruct (Builder.step (Build (Package.name package)) w1) as [[[]|e] w2];
    manager_simpl.
  2:{ split; [|done].
      split_and!; [done | done | done | done |].
      exists (l1 ++ [Build (Package.name package)]). manager_simpl.
      by rewrite Hb, Hl1, (assoc_L (++)). }
  pose proof (step_trace (Install (Package.name package)) w2) as Hi.
  destruct (Builder.step (Install (Package.name package)) w2) as [[[]|e] w3];
    manager_simpl.
  2:{ split; [|done].
      split_and!; [done | done | done | done |].
      exists (l1 ++ [Build (Package.name package); Install (Package.name package)]).
      manager_simpl. rewrite Hi, Hb, Hl1. by rewrite <- !(assoc_L (++)). }
  assert (trace w3 = trace (Manager.host m) ++ l1
                     ++ [Build (Package.name package);
                         Install (Package.name package)]) as Htrace.
  { rewrite Hi, Hb, Hl1. by rewrite <- !(assoc_L (++)). }
  split.
  - split_and!; [done | done | done | | by eexists].
    cbn. unfold Database.get_all_installed, Database.add_package. cbn.
    rewrite dom_insert_L. set_solver.
  - exists package, l1. split_and!; [by rewrite <- Hfst | done | done | done].
Qed.

(** X19.  The record is written last.  [_install_package] writes the
    database when, and only when, the lookup, the fetch, the build and
    the install have all succeeded: then the record is that of the
    package the name resolves to, with the configured install
    directory, and the steps taken are those of the fetch (child
    processes and requests) followed by one build and one install; when
    any of them raises, the database is left as it was. *)
Theorem install_package_records_last (package_name : string) (force : bool)
    (m : Manager.t) :
  let r := Manager._install_package package_name force m in
  Manager.config r.2 = Manager.config m
  ∧ match r.1 with
    | Ok _ =>
        ∃ package l,
          lookup_result (Manager.repository m) package_name = Ok package
          ∧ Manager.database r.2
            = Database.add_package package
                (Manager.install_dir (Manager.config m)) (Manager.clock m)
                (Manager.database m)
          ∧ trace (Manager.host r.2)
            = trace (Manager.host m) ++ l
              ++ [Build (Package.name package); Install (Package.name package)]
          ∧ Forall transfer l
    | Raise _ => Manager.database r.2 = Manager.database m
    end.
Proof.
  cbv zeta.
  destruct (install_package_cases package_name force m) as [Hadv Hcases].
  split; [apply Hadv | exact Hcases].
Qed.

Lemma advances_install_dependency (package : Package.t) (force : bool)
    (dep_name : string) (m : Manager.t) :
  advances m (Manager.install_dependency package force dep_name m).2.
Proof.
  unfold Manager.install_dependency.
  repeat case_match; try apply advances_refl.
  apply install_package_cases.
Qed.

Lemma advances_for_each (body : string → Manager.t → outcome () * Manager.t) :
  (∀ x m, advances m (body x m).2) →
  ∀ xs m, advances m (for_each body xs m).2.
Proof.
  intros Hbody xs. induction xs as [|x xs IH]; intros m; cbn [for_each].
  { apply advances_refl. }
  specialize (Hbody x m). destruct (body x m) as [[[]|e] m']; cbn [snd] in *.
  - eapply advances_trans; [done | apply IH].
  - done.
Qed.

End manager_extras.

(** ** resolver.py: lookups during a traversal *)

Section resolver_extras.
Context `{!PySetOrder, !Platform}.

Lemma for_each_repository_stable
    (body : string → Resolver.frame → outcome () * Resolver.frame) :
  (∀ x st n, lookup_result (Resolver.repository (body x st).2) n
             = lookup_result (Resolver.repository st) n) →
  ∀ xs st n, lookup_result (Resolver.repository (for_each body xs st).2) n
             = lookup_result (Resolver.repository st) n.
Proof.
  intros Hbody xs. induction xs as [|x xs IH]; intros st n; cbn [for_each].
  { done. }
  specialize (Hbody x st). destruct (body x st) as [[[]|e] st']; cbn [snd] in *.
  - by rewrite IH.
  - done.
Qed.

(** Whatever its outcome, [visit] leaves every lookup as it was. *)
Lemma visit_repository_stable (installed : gset string) (limit : nat) :
  ∀ pkg_name st n,
    lookup_result (Resolver.repository
                     (Resolver.visit installed limit pkg_name st).2) n
    = lookup_result (Resolver.repository st) n.
Proof.
  induction limit as [|limit IH]; intros pkg_name st n; [done|].
  rewrite visit_S. do 3 (case_decide; [done|]).
  case_decide; [apply lookup_result_called|].
  pose proof (get_package_stable pkg_name
                (Resolver.repository (Resolver.enter pkg_name st))) as Hst.
  destruct (Repository.get_package pkg_name
              (Resolver.repository (Resolver.enter pkg_name st)))
    as [[package|e] r]; cbn [snd] in *; [|by rewrite Hst].
  pose proof (for_each_repository_stable (Resolver.visit installed limit) IH
                (Package.get_all_dependencies package)
                (Resolver.set_repository r (Resolver.enter pkg_name st)) n)
    as Hloop.
  destruct (for_each (Resolver.visit installed limit)
              (Package.get_all_dependencies package)
              (Resolver.set_repository r (Resolver.enter pkg_name st)))
    as [[[]|e] st2];
    cbn [snd Resolver.repository Resolver.leave Resolver.set_repository] in *;
    by rewrite Hloop, Hst.
Qed.

Lemma resolve_repository_stable (limit : nat) (root : string)
    (installed : option (gset string)) (r : Repository.t) (n : string) :
  lookup_result (Resolver.resolve limit root installed r).2 n
  = lookup_result r n.
Proof.
  unfold Resolver.resolve. cbv zeta.
  match goal with |- context [Resolver.visit ?i ?k _ ?st] =>
    pose proof (visit_repository_stable i k root st n) as Hst;
    destruct (Resolver.visit i k root st) as [[[]|e] st']
  end; exact Hst.
Qed.

Lemma build_graph_repository_stable (packages todo : list string) :
  ∀ k r n,
    lookup_result (Resolver.build_graph packages todo k r).2 n
    = lookup_result r n.
Proof.
  induction todo as [|pkg todo IH]; intros k r n; cbn [Resolver.build_graph];
    [done|].
  pose proof (get_package_stable pkg r n) as Hst.
  destruct (Repository.get_package pkg r) as [[p|e] r']; cbn [snd] in *;
    by rewrite IH.
Qed.

Lemma get_build_order_repository_stable (packages : list string)
    (r r' : Repository.t) (res : outcome (list string)) (n : string) :
  Resolver.get_build_order packages r = Some (res, r') →
  lookup_result r' n = lookup_result r n.
Proof.
  unfold Resolver.get_build_order, Resolver.get_build_order_within.
  pose proof (build_graph_repository_stable packages packages
                (Resolver.empty_tables packages) r n) as Hst.
  destruct (Resolver.build_graph packages packages
              (Resolver.empty_tables packages) r) as [k r1]. cbn [snd] in Hst.
  destruct (Resolver.drain _ _ _ _ _); [|done].
  case_decide; intros [= <- <-]; done.
Qed.

End resolver_extras.

(** ** manager.py: [install], [update] and [build] as a whole *)

Section install_extras.
Context `{!PySetOrder, !Platform}.

(** X20.  Whatever its outcome, [install] removes no record: when the
    call ends, with a result or with an error, every name installed
    before it is installed after it, the configuration is the same, and
    every lookup gives the same result.  When it ends without an error,
    the package it found for its argument either was installed already
    (and the call was not forced), or the package that its name
    resolves to has been recorded.  Nothing is said of a call that does
    not end, as one whose child process blocks. *)
Theorem install_keeps_records (limit : nat) (package_spec : string)
    (force : bool) (m : Manager.t) (o : outcome ()) (m' : Manager.t) :
  Manager.install limit package_spec force m = Some (o, m') →
  Manager.config m' = Manager.config m
  ∧ Database.get_all_installed (Manager.database m)
    ⊆ Database.get_all_installed (Manager.database m')
  ∧ (∀ n, lookup_result (Manager.repository m') n
          = lookup_result (Manager.repository m) n)
  ∧ (o = Ok () →
     ∃ p, (Manager.find_package package_spec m).1 = Ok p
          ∧ ((force = false
              ∧ Package.name p ∈ Database.get_all_installed (Manager.database m)
              ∧ Manager.database m' = Manager.database m)
             ∨ ∃ q, lookup_result (Manager.repository m) (Package.name p) = Ok q
                    ∧ Package.name q
                      ∈ Database.get_all_installed (Manager.database m'))).
Proof.
  revert o m'.
  assert (∀ o m', advances m m' →
            (o = Ok () →
             ∃ p, (Manager.find_package package_spec m).1 = Ok p
                  ∧ ((force = false
                      ∧ Package.name p
                        ∈ Database.get_all_installed (Manager.database m)
                      ∧ Manager.database m' = Manager.database m)
                     ∨ ∃ q, lookup_result (Manager.repository m)
                              (Package.name p) = Ok q
                            ∧ Package.name q
                              ∈ Database.get_all_installed
                                  (Manager.database m'))) →
            Manager.config m' = Manager.config m
            ∧ Database.get_all_installed (Manager.database m)
              ⊆ Database.get_all_installed (Manager.database m')
            ∧ (∀ n, lookup_result (Manager.repository m') n
                    = lookup_result (Manager.repository m) n)
            ∧ (o = Ok () →
               ∃ p, (Manager.find_package package_spec m).1 = Ok p
                    ∧ ((force = false
                        ∧ Package.name p
                          ∈ Database.get_all_installed (Manager.database m)
                        ∧ Manager.database m' = Manager.database m)
                       ∨ ∃ q, lookup_result (Manager.repository m)
                                (Package.name p) = Ok q
                              ∧ Package.name q
                                ∈ Database.get_all_installed
                                    (Manager.database m')))) as Hpack.
  { intros o m' (Hc & _ & Hr & Hd & _) Hok. done. }
  intros o m'. unfold Manager.install.
  pose proof (advances_find_package package_spec m) as Hfind.
  destruct (find_package_frame package_spec m) as [r0 Hframe].
  destruct (Manager.find_package package_spec m) as [[p|e] m1];
    cbn [fst snd] in *.
  2:{ intros [= <- <-]. by apply Hpack. }
  destruct (Database.is_installed (Package.name p) (Manager.database m1)
            && negb force) eqn:Hgate.
  { intros [= <- <-]. apply Hpack; [done|]. intros _.
    exists p. split; [done|]. left.
    apply andb_true_iff in Hgate as [Hin Hforce].
    subst m1. manager_simpl.
    unfold Database.is_installed in Hin. apply bool_decide_eq_true in Hin.
    split_and!; [by destruct force | done | done]. }
  pose proof (resolve_repository_stable limit (Package.name p)
                (Some (Database.get_all_installed (Manager.database m1)))
                (Manager.repository m1)) as Hres.
  destruct (Resolver.resolve limit (Package.name p)
              (Some (Database.get_all_installed (Manager.database m1)))
              (Manager.repository m1)) as [[dependencies|e] r1];
    cbn [snd] in Hres.
  2:{ intros [= <- <-]. apply Hpack; [|done].
      eapply advances_trans; [done|]. by apply advances_set_repository. }
  destruct (Resolver.get_build_order dependencies r1) as [[res r2]|] eqn:Hgbo;
    [|done].
  pose proof (λ n, get_build_order_repository_stable dependencies r1 r2 res n
                     Hgbo) as Hord.
  assert (advances m (Manager.set_repository r2 m1)) as Hadv2.
  { eapply advances_trans; [done|]. apply advances_set_repository.
    intros n. by rewrite Hord, Hres. }
  destruct res as [build_order|e].
  2:{ intros [= <- <-]. by apply Hpack. }
  unfold bind.
  pose proof (advances_for_each (Manager.install_dependency p force)
                (advances_install_dependency p force) build_order
                (Manager.set_repository r2 m1)) as Hloop.
  destruct (for_each (Manager.install_dependency p force) build_order
              (Manager.set_repository r2 m1)) as [[[]|e] m2]; cbn [snd] in Hloop.
  2:{ intros [= <- <-]. apply Hpack; [|done].
      by eapply advances_trans. }
  destruct (install_package_cases (Package.name p) force m2) as [Hadv3 Hcases].
  destruct (Manager._install_package (Package.name p) force m2) as [[[]|e] m3];
    cbn [fst snd] in *.
  2:{ intros [= <- <-]. apply Hpack; [|done].
      eapply advances_trans; [|done]. by eapply advances_trans. }
  intros [= <- <-]. apply Hpack.
  { eapply advances_trans; [|done]. by eapply advances_trans. }
  intros _. exists p. split; [done|]. right.
  destruct Hcases as (q & l & Hq & Hdb & _).
  exists q. split.
  - rewrite <- Hq.
    destruct Hloop as (_ & _ & Hr2 & _). destruct Hadv2 as (_ & _ & Hr1 & _).
    by rewrite Hr2, Hr1.
  - rewrite Hdb. unfold Database.get_all_installed, Database.add_package. cbn.
    rewrite dom_insert_L. set_solver.
Qed.

(** X21.  A forced install of a package that is recorded rebuilds that
    package alone.  The resolution step is given the installed set,
    which contains the package itself, and returns the empty list;
    nothing is resolved and no dependency is looked at, installed or
    missing.  This is the call [update] makes for each package. *)
Theorem install_forced_rebuilds_root_only (limit : nat) (package_spec : string)
    (m m' : Manager.t) (package : Package.t) :
  Manager.find_package package_spec m = (Ok package, m') →
  Package.name package ∈ Database.get_all_installed (Manager.database m) →
  0 < limit →
  Manager.install limit package_spec true m
  = Some (Manager._install_package (Package.name package) true m').
Proof.
  intros Hfind Hin Hlimit.
  destruct (find_package_frame package_spec m) as [r Hr].
  rewrite Hfind in Hr. cbn in Hr. subst m'.
  unfold Manager.install. rewrite Hfind. manager_simpl.
  rewrite andb_false_r.
  destruct limit as [|k]; [lia|].
  unfold Resolver.resolve. cbn [default].
  change (S k + max_lookup_frames) with (S (k + max_lookup_frames)).
  rewrite visit_S.
  rewrite decide_True by done. cbn [Resolver.resolved Resolver.repository].
  cbn. unfold bind. cbn. by destruct m.
Qed.


End install_extras.

(** X20 at the catalog [chain] with libA installed: the call finds libA
    recorded and returns. *)
Lemma install_keeps_records_witness :
  let m := manager_with chain ["libA"] in
  let m' := (@Manager.find_package example_platform "libA" m).2 in
  Manager.config m' = Manager.config m
  ∧ Database.get_all_installed (Manager.database m)
    ⊆ Database.get_all_installed (Manager.database m')
  ∧ (∀ n, @lookup_result example_platform (Manager.repository m') n
          = @lookup_result example_platform (Manager.repository m) n)
  ∧ (Ok () = Ok () →
     ∃ p, (@Manager.find_package example_platform "libA" m).1 = Ok p
          ∧ ((false = false
              ∧ Package.name p ∈ Database.get_all_installed (Manager.database m)
              ∧ Manager.database m' = Manager.database m)
             ∨ ∃ q, @lookup_result example_platform (Manager.repository m)
                      (Package.name p) = Ok q
                    ∧ Package.name q
                      ∈ Database.get_all_installed (Manager.database m'))).
Proof.
  apply (@install_keeps_records insertion_order example_platform 1000 "libA"
           false (manager_with chain ["libA"]) (Ok ())).
  reflexivity.
Defined.

(** X21 at the catalog [chain]: libB is recorded and libA, on which it
    depends, is not; the forced install of libB is the rebuild of libB,
    and libA is still not installed afterwards. *)
Lemma install_forced_rebuilds_root_only_witness :
  @Manager.install insertion_order example_platform 1000 "libB" true
    (manager_with chain ["libB"])
  = Some (@Manager._install_package example_platform "libB" true
            (@Manager.find_package example_platform "libB"
               (manager_with chain ["libB"])).2).
Proof.
  apply (@install_forced_rebuilds_root_only insertion_order example_platform
           1000 "libB" (manager_with chain ["libB"])
           (@Manager.find_package example_platform "libB"
              (manager_with chain ["libB"])).2
           {| Package.name := "libB"; Package.version := "latest";
              Package.source := Package.no_source;
              Package.dependencies := ["libA"];
              Package.build_dependencies := [] |}).
  - reflexivity.
  - by vm_compute.
  - lia.
Defined.

(** ** resolver.py: the two halves together *)

Section build_order_extras.
Context `{!PySetOrder, !Platform}.

(** On a duplicate-free list in which no name reaches itself,
    [get_build_order] returns a list. *)
Lemma get_build_order_acyclic (packages : list string) (r : Repository.t) :
  NoDup packages →
  (∀ c, c ∈ packages → ¬ tc (build_edge r packages) c c) →
  ∃ l r',
    Resolver.get_build_order packages r = Some (Ok l, r')
    ∧ l ≡ₚ packages
    ∧ (∀ pkg dep, build_edge r packages pkg dep → before l dep pkg).
Proof.
  intros Hnd Hacyclic.
  unfold Resolver.get_build_order, Resolver.get_build_order_within.
  destruct (build_graph_spec packages packages Hnd
              (Resolver.empty_tables packages) r) as (_ & Hdeg & Hgraph).
  destruct (Resolver.build_graph packages packages
              (Resolver.empty_tables packages) r) as [k r'].
  cbn [fst snd] in Hdeg, Hgraph.
  assert (∀ d y, y ∈ Resolver.graph k !!! d
                 ↔ y ∈ packages ∧ d ∈ preds r packages y) as Hgraph'.
  { intros d y. rewrite Hgraph, empty_tables_graph, elem_of_nil. tauto. }
  assert (∀ x, x ∈ packages →
               Resolver.in_degree k !!! x
               = Z.of_nat (pending r packages [] x)) as Hdeg'.
  { intros x Hx. rewrite Hdeg, empty_tables_in_degree by done.
    rewrite decide_True by done. rewrite pending_nil. lia. }
  assert (drain_inv r packages (Resolver.in_degree k)
            (filter (λ pkg, Resolver.in_degree k !!! pkg = 0%Z) packages) [])
    as Hinv.
  { split; cbn [app].
    - by apply NoDup_filter.
    - by intros x [_ ?]%list_elem_of_filter.
    - done.
    - intros x Hx. rewrite list_elem_of_filter, Hdeg' by done.
      split; [intros [? _]; lia | intros ->; done].
    - by intros ?? ?%elem_of_nil. }
  destruct (drain_spec r packages (Resolver.graph k) Hgraph' (length packages)
              (Resolver.in_degree k) _ [] Hinv) as (deg & result & -> & Hend).
  { cbn. lia. }
  pose proof (di_nodup _ _ _ _ _ Hend) as Hnd_res. rewrite app_nil_r in Hnd_res.
  assert (result ⊆+ packages) as Hsub.
  { apply NoDup_submseteq; [done|].
    intros x Hx. apply (di_sub _ _ _ _ _ Hend). by rewrite app_nil_r. }
  assert (∀ x, x ∈ packages → x ∈ result) as Hall.
  { intros x Hx. destruct (decide (x ∈ result)) as [|Hxres]; [done|]. exfalso.
    destruct (cycle_of_successors (build_edge r packages)
                (filter (λ y, y ∉ result) packages) x)
      as (c & [_ Hc]%list_elem_of_filter & Hcycle).
    - by apply list_elem_of_filter.
    - intros y [Hyres Hy]%list_elem_of_filter.
      assert (0 < pending r packages result y) as Hpos.
      { pose proof (di_zero _ _ _ _ _ Hend y Hy) as Hzero.
        rewrite app_nil_r in Hzero.
        destruct (pending r packages result y); [|lia].
        exfalso. by apply Hyres, Hzero. }
      apply length_filter_pos_elem_of in Hpos as (d & Hd & Hdres).
      pose proof Hd as [Hdp Hdep]%elem_of_preds.
      exists d. split; [by apply list_elem_of_filter | done].
    - by apply (Hacyclic c). }
  assert (packages ⊆+ result) as Hsup by (by apply NoDup_submseteq).
  assert (length result = length packages) as Hlen.
  { apply submseteq_length in Hsub, Hsup. lia. }
  rewrite decide_False by lia.
  exists result, r'. split_and!; [done | |].
  - apply submseteq_length_Permutation; [done | lia].
  - intros pkg dep (Hpkg & Hdep & Hd).
    apply (di_order _ _ _ _ _ Hend); [by apply Hall | by apply elem_of_preds].
Qed.

(** The element that every other element precedes is the last one. *)
Lemma last_of_before (l : list string) (a : string) :
  NoDup l → a ∈ l → (∀ x, x ∈ l → x ≠ a → before l x a) → last l = Some a.
Proof.
  intros Hnd Ha Hbefore.
  apply list_elem_of_split in Ha as (l1 & l2 & ->).
  destruct l2 as [|y l2]; [by rewrite last_snoc|]. exfalso.
  assert (y ≠ a) as Hya.
  { intros ->. apply NoDup_app in Hnd as (_ & _ & Hnd).
    apply NoDup_cons in Hnd as [Hnot _]. apply Hnot. left. }
  destruct (Hbefore y) as (i & j & Hi & Hj & Hij); [set_solver | done |].
  assert (j = length l1) as ->.
  { eapply NoDup_lookup; [done | done |]. by rewrite list_lookup_middle. }
  assert (i = S (length l1)) as ->; [|lia].
  eapply NoDup_lookup; [done | done |].
  rewrite lookup_app_r by lia.
  by replace (S (length l1) - length l1) with 1 by lia.
Qed.

(** X23.  What [resolve] returns, [get_build_order] accepts.  For every
    stack with room for more nested calls of [visit] than there are
    names that have a manifest ([size (known r) < limit]), the
    list that [resolve] returns is one on which [get_build_order]
    returns a list: a rearrangement of it in which every dependency
    that is not installed still precedes its dependent, and whose last
    element is the root.  So the cycle error of the build order cannot
    occur in [install], and installing the root after the loop over the
    build order, which skips it, installs in build order. *)
Theorem resolve_then_build_order (limit : nat) (root : string)
    (installed : gset string) (r r' : Repository.t) (l : list string) :
  size (known r) < limit →
  Resolver.resolve limit root (Some installed) r = (Ok l, r') →
  ∃ order r'',
    Resolver.get_build_order l r' = Some (Ok order, r'')
    ∧ order ≡ₚ l
    ∧ (∀ a b, a ∈ l → needs r installed a b → before order b a)
    ∧ (root ∉ installed → last order = Some root).
Proof.
  intros Hlimit Hres.
  pose proof (resolve_spec limit root installed r Hlimit) as Hspec.
  pose proof (resolve_repository_stable limit root (Some installed) r) as Hst.
  rewrite Hres in Hspec, Hst. cbn [fst snd] in Hspec, Hst.
  destruct Hspec as (Hnd & Hmem & Hord).
  assert (∀ a b, depends r' a b ↔ depends r a b) as Hdep.
  { intros a b. unfold depends. by rewrite Hst. }
  assert (∀ a b, a ∈ l → needs r installed a b → b ∈ l) as Hclosed.
  { intros a b Ha Hab. apply Hmem. apply Hmem in Ha as [Hroot Hreach].
    split; [done|]. by eapply rtc_r. }
  assert (∀ x, x ∈ l → x ∉ installed) as Hfresh.
  { intros x [Hroot Hreach]%Hmem.
    apply rtc_inv_r in Hreach as [->|(y & _ & [_ Hx])]; done. }
  assert (∀ a b, build_edge r' l a b → needs r installed a b) as Hedge.
  { intros a b (Ha & Hb & Hab). split; [by apply Hdep | by apply Hfresh]. }
  destruct (get_build_order_acyclic l r' Hnd) as (order & r'' & Hgbo & Hperm & Hbo).
  { intros c Hc Hcycle.
    apply (before_irrefl l c Hnd).
    apply (tc_before (build_edge r' l)); [done | | done | done].
    intros a b Ha Hab. apply Hord; [done | by apply Hedge]. }
  assert (NoDup order) as Hnd_order by (by rewrite Hperm).
  exists order, r''. split_and!; [done | done | |].
  - intros a b Ha Hab. apply Hbo. split_and!; [done | by eapply Hclosed |].
    apply Hdep, Hab.
  - intros Hroot.
    assert (root ∈ l) as Hroot_in by (by apply Hmem).
    apply last_of_before; [done | by rewrite Hperm |].
    intros x Hx Hne. rewrite Hperm in Hx.
    apply (tc_before (build_edge r' l)); [done | | by rewrite Hperm |].
    { intros a b _ Hab. by apply Hbo. }
    apply Hmem in Hx as [_ Hreach].
    assert (x = root ∨ tc (build_edge r' l) root x) as [?|?]; [|done..].
    clear Hne. revert x Hreach.
    apply (rtc_ind_r (λ x, x = root ∨ tc (build_edge r' l) root x)); [by left|].
    intros y z Hy Hyz IH. right.
    assert (y ∈ l) as Hy_in by (by apply Hmem).
    assert (build_edge r' l y z) as Hedge_yz.
    { split_and!; [done | by eapply Hclosed | apply Hdep, Hyz]. }
    destruct IH as [->|IH]; [by apply tc_once | by eapply tc_r].
Qed.

End build_order_extras.

(** X23 at the catalog [chain]. *)
Lemma resolve_then_build_order_witness :
  ∃ order r'',
    @Resolver.get_build_order insertion_order example_platform
      ["libA"; "libB"]
      (@Resolver.resolve insertion_order example_platform 1000 "libB"
         (Some ∅) chain).2
    = Some (Ok order, r'')
    ∧ order ≡ₚ ["libA"; "libB"]
    ∧ (∀ a b, a ∈ ["libA"; "libB"] →
              needs (H := example_platform) chain ∅ a b → before order b a)
    ∧ ("libB" ∉ (∅ : gset string) → last order = Some "libB").
Proof.
  apply (@resolve_then_build_order insertion_order example_platform 1000 "libB"
           ∅ chain).
  - vm_compute. lia.
  - reflexivity.
Defined.

(** ** resolver.py: the iteration order, and inputs of any shape *)

Section loaded.
Context `{!PySetOrder, !Platform}.
Variables (installed : gset string) (r0 : Repository.t).



End loaded.



Section any_input.
Context `{!PySetOrder, !Platform}.

Lemma add_edges_none (packages : list string) (pkg_name : string)
    (deps : list string) (k : Resolver.tables) :
  (∀ d, d ∈ deps → d ∉ packages) →
  Resolver.add_edges packages pkg_name deps k = k.
Proof.
  unfold Resolver.add_edges. revert k.
  induction deps as [|d deps IH]; intros k Hdeps; [done|]. cbn [foldl].
  rewrite decide_False by (apply Hdeps; left).
  apply IH. intros. apply Hdeps. by right.
Qed.

Lemma build_graph_no_edges (packages todo : list string) :
  ∀ k r,
    (∀ pkg dep, pkg ∈ todo → dep ∈ packages → ¬ depends r pkg dep) →
    (Resolver.build_graph packages todo k r).1 = k.
Proof.
  induction todo as [|pkg todo IH]; intros k r Hno; cbn [Resolver.build_graph];
    [done|].
  pose proof (get_package_stable pkg r) as Hst.
  pose proof (get_package_fst pkg r) as Hfst.
  assert (∀ r', (∀ n, lookup_result r' n = lookup_result r n) →
                ∀ pkg' dep, pkg' ∈ todo → dep ∈ packages → ¬ depends r' pkg' dep)
    as Hrest.
  { intros r' Hr' pkg' dep Hp Hd (p & Hlook & Hin).
    apply (Hno pkg' dep); [by right | done |].
    exists p. by rewrite <- Hr'. }
  destruct (Repository.get_package pkg r) as [[p|e] r']; cbn [fst snd] in *.
  - rewrite add_edges_none; [by apply IH, Hrest|].
    intros d Hd Hin. apply (Hno pkg d); [left | done |].
    exists p. split; [done|]. by apply elem_of_get_all_dependencies.
  - by apply IH, Hrest.
Qed.

Lemma filter_all {A : Type} (P : A → Prop) `{!∀ x, Decision (P x)}
    (l : list A) :
  (∀ x, x ∈ l → P x) → filter P l = l.
Proof.
  induction l as [|a l IH]; intros Hall; [done|].
  rewrite filter_cons_True by (apply Hall; left).
  f_equal. apply IH. intros. apply Hall. by right.
Qed.

Lemma set_iter_nil : set_iter [] = [].
Proof.
  pose proof (elem_of_set_iter []) as Hiff.
  destruct (set_iter []) as [|x l]; [done|].
  assert (x ∈ @nil string) as Hx by (apply Hiff; left).
  by apply elem_of_nil in Hx.
Qed.

Lemma drain_no_edges (graph : gmap string (list string)) (fuel : nat) :
  (∀ d, graph !!! d = []) →
  ∀ in_degree queue result,
    length queue ≤ fuel →
    Resolver.drain fuel graph in_degree queue result = Some (result ++ queue).
Proof.
  intros Hgraph. induction fuel as [|fuel IH]; intros in_degree queue result Hlen.
  - destruct queue; cbn in *; [by rewrite app_nil_r | lia].
  - destruct queue as [|pkg queue]; cbn [Resolver.drain];
      [by rewrite app_nil_r|].
    rewrite Hgraph, set_iter_nil. cbn [foldl fst snd].
    rewrite IH by (cbn in Hlen; lia). by rewrite <- (assoc_L (++)).
Qed.

(** X25.  [get_build_order] does not check its input: when no name of
    the list depends on another name of the list, it returns the list
    as it was given, in the same order, whatever else the list holds:
    names without a manifest, names whose manifest cannot be read, and
    names that occur more than once. *)
Theorem get_build_order_without_edges (packages : list string)
    (r : Repository.t) :
  (∀ pkg dep, ¬ build_edge r packages pkg dep) →
  ∃ r', Resolver.get_build_order packages r = Some (Ok packages, r').
Proof.
  intros Hno.
  unfold Resolver.get_build_order, Resolver.get_build_order_within.
  pose proof (build_graph_no_edges packages packages
                (Resolver.empty_tables packages) r) as Hk.
  destruct (Resolver.build_graph packages packages
              (Resolver.empty_tables packages) r) as [k r'].
  cbn [fst] in Hk. rewrite Hk.
  2:{ intros pkg dep Hp Hd Hdep. by apply (Hno pkg dep). }
  assert (filter (λ pkg, Resolver.in_degree (Resolver.empty_tables packages)
                           !!! pkg = 0%Z) packages = packages) as ->.
  { apply filter_all. intros x Hx. by apply empty_tables_in_degree. }
  rewrite drain_no_edges; [|apply empty_tables_graph | done].
  cbn [app]. rewrite decide_False by (intros Hne; by apply Hne).
  by exists r'.
Qed.

Lemma foldl_relax_queue (ds : list string) :
  ∀ s x, x ∈ (foldl Resolver.relax s ds).2 → x ∈ s.2 ∨ x ∈ ds.
Proof.
  induction ds as [|d ds IH]; intros s x; cbn [foldl]; [by left|].
  intros [Hx|Hx]%IH; [|right; by right].
  unfold Resolver.relax in Hx. cbn [snd] in Hx.
  case_decide; [|by left].
  apply elem_of_app in Hx as [?| ->%list_elem_of_singleton]; [by left|].
  right. left.
Qed.

Lemma drain_members (packages : list string)
    (graph : gmap string (list string)) (fuel : nat) :
  (∀ d y, y ∈ graph !!! d → y ∈ packages) →
  ∀ in_degree queue result l,
    (∀ x, x ∈ result ++ queue → x ∈ packages) →
    Resolver.drain fuel graph in_degree queue result = Some l →
    ∀ x, x ∈ l → x ∈ packages.
Proof.
  intros Hgraph.
  induction fuel as [|fuel IH]; intros in_degree queue result l Hsub.
  - destruct queue; cbn; [|done]. intros [= <-] x Hx. apply Hsub.
    by rewrite app_nil_r.
  - destruct queue as [|pkg queue]; cbn [Resolver.drain].
    { intros [= <-] x Hx. apply Hsub. by rewrite app_nil_r. }
    apply IH. intros x [[Hx| ->%list_elem_of_singleton]%elem_of_app|Hx]%elem_of_app.
    + apply Hsub. set_solver.
    + apply Hsub. set_solver.
    + apply foldl_relax_queue in Hx as [Hx|Hx]; cbn [snd] in Hx.
      * apply Hsub. set_solver.
      * apply (proj1 (elem_of_set_iter _ _)) in Hx. by eapply Hgraph.
Qed.

(** X26.  [get_build_order] returns on every list of names: duplicates,
    names without a manifest and cycles included, the loop ends within
    as many iterations as the list has elements.  The only error it
    raises is the cycle error; a list it returns has the length of the
    input and holds input names only; and every lookup gives the same
    result afterwards as before. *)
Theorem get_build_order_returns (packages : list string) (r : Repository.t) :
  ∃ res r',
    Resolver.get_build_order packages r = Some (res, r')
    ∧ (∀ n, lookup_result r' n = lookup_result r n)
    ∧ match res with
      | Ok l => length l = length packages ∧ ∀ x, x ∈ l → x ∈ packages
      | Raise e => e = CircularBuildOrder
      end.
Proof.
  destruct (get_build_order_total packages r) as [[res r'] Hgbo].
  exists res, r'. split; [done|].
  split; [intros n; by eapply get_build_order_repository_stable|].
  revert Hgbo.
  unfold Resolver.get_build_order, Resolver.get_build_order_within.
  pose proof (build_graph_members packages packages (λ _ Hy, Hy)
                (Resolver.empty_tables packages) r) as Hmem.
  destruct (Resolver.build_graph packages packages
              (Resolver.empty_tables packages) r) as [k r1].
  cbn [fst] in Hmem.
  destruct (Resolver.drain _ _ _ _ _) as [result|] eqn:Hdrain; [|done].
  case_decide as Hlen; intros [= <- <-]; [done|].
  split; [lia|].
  eapply (drain_members packages); [|  | exact Hdrain].
  - apply Hmem. intros d y. rewrite empty_tables_graph. by intros ?%elem_of_nil.
  - intros x [_ Hx]%list_elem_of_filter. done.
Qed.

End any_input.

(** X25 at the catalog [chain], on a list with a repeated name and a name
    that has no manifest. *)
Lemma get_build_order_without_edges_witness :
  ∃ r', @Resolver.get_build_order insertion_order example_platform
          ["libA"; "ghost"; "libA"] chain
        = Some (Ok ["libA"; "ghost"; "libA"], r').
Proof.
  apply (@get_build_order_without_edges insertion_order example_platform
           ["libA"; "ghost"; "libA"] chain).
  intros pkg dep (Hpkg & Hdep & Hedge). catalog_edge Hedge.
  by repeat (apply elem_of_cons in Hpkg as [Hpkg|Hpkg]);
    [..|apply elem_of_nil in Hpkg].
Defined.

(** ** builder.py: the commands a build runs *)

Lemma attempts_exec (w w' : machine) (steps : list event) :
  exec w' = exec w → attempts w' steps = attempts w steps.
Proof.
  intros He. induction steps as [|e steps IH]; [done|].
  cbn [attempts]. by rewrite He, IH.
Qed.

Lemma attempts_app_ok (w : machine) (s1 s2 : list event) :
  (∀ e, e ∈ s1 → exec w e = true) →
  attempts w (s1 ++ s2) = s1 ++ attempts w s2.
Proof.
  induction s1 as [|e s1 IH]; intros Hall; [done|].
  cbn [app attempts]. rewrite (Hall e) by left.
  rewrite IH; [done|]. intros. apply Hall. by right.
Qed.

Lemma attempts_app_fail (w : machine) (s1 s2 : list event) :
  (∃ e, e ∈ s1 ∧ exec w e = false) →
  attempts w (s1 ++ s2) = attempts w s1.
Proof.
  induction s1 as [|e s1 IH]; intros (e' & Hin & Hf).
  { by apply elem_of_nil in Hin. }
  cbn [app attempts]. destruct (exec w e) eqn:He; [|done].
  rewrite IH; [done|]. exists e'. split; [|done].
  apply elem_of_cons in Hin as [->|?]; [congruence | done].
Qed.

Lemma all_or_some (w : machine) (steps : list event) :
  (∀ e, e ∈ steps → exec w e = true) ∨ (∃ e, e ∈ steps ∧ exec w e = false).
Proof.
  induction steps as [|e steps IH]; [left; by intros ? ?%elem_of_nil|].
  destruct (exec w e) eqn:He.
  - destruct IH as [Hall|(e' & Hin & Hf)].
    + left. intros e' [->|?]%elem_of_cons; eauto.
    + right. exists e'. split; [by right | done].
  - right. exists e. split; [left | done].
Qed.

Lemma takes_ret {A : Type} (a : A) (w : machine) :
  takes (ret a) [] w.
Proof.
  split_and!; [done | done | by rewrite app_nil_r |].
  split; [by intros _ ? ?%elem_of_nil | by exists a].
Qed.

Lemma takes_step {A : Type} (m : action machine A) (e : event) (a : A)
    (argv : list string) (w : machine) :
  m w = (if exec w e then (Ok a, log e w)
         else if absent w e then (Raise FileNotFoundError, log e w)
         else (Raise (CalledProcessError argv), log e w)) →
  takes m [e] w.
Proof.
  intros Hm. unfold takes. rewrite Hm. cbn [attempts].
  destruct (exec w e) eqn:He; cbn [fst snd exec fs trace log].
  - split_and!; [done | done | done |].
    split; [intros _ ? ->%list_elem_of_singleton; done | by exists a].
  - assert (¬ ∀ e', e' ∈ [e] → exec w e' = true) as Hno.
    { intros Hall. rewrite Hall in He by left. done. }
    destruct (absent w e); cbn [fst snd exec fs trace log];
      (split_and!; [done | done | done |]);
      (split; [by intros [? ?] | done]).
Qed.

Lemma takes_run (argv : list string) (cwd : option string) (w : machine) :
  takes (run argv cwd) [Command argv cwd] w.
Proof. by apply (takes_step _ _ () argv). Qed.

Lemma takes_shell (line : string) (cwd : option string) (w : machine) :
  takes (BuildSystems.shell line cwd) [Command ["/bin/sh"; "-c"; line] cwd] w.
Proof. by apply (takes_step _ _ () [line]). Qed.

Lemma takes_bind {A B : Type} (m : action machine A) (k : A → action machine B)
    (s1 s2 : list event) (w : machine) :
  takes m s1 w →
  (∀ a w', m w = (Ok a, w') → takes (k a) s2 w') →
  takes (bind m k) (s1 ++ s2) w.
Proof.
  intros (He & Hf & Ht & Hiff) Hk. unfold takes, bind.
  destruct (m w) as [[a|e] w'] eqn:Hm; cbn [fst snd] in *.
  - assert (∀ e, e ∈ s1 → exec w e = true) as Hall1.
    { apply Hiff. by exists a. }
    destruct (Hk a w' eq_refl) as (He2 & Hf2 & Ht2 & Hiff2).
    rewrite (attempts_exec w w') in Ht2 by done.
    split_and!; [congruence | congruence | |].
    + assert (attempts w s1 = s1) as Hs1.
      { pose proof (attempts_app_ok w s1 [] Hall1) as Hs.
        by rewrite !app_nil_r in Hs. }
      rewrite Ht2, Ht, Hs1. rewrite attempts_app_ok by done.
      by rewrite (assoc_L (++)).
    + rewrite Hiff2. rewrite He. split.
      * intros Hall2 e' [?|?]%elem_of_app; eauto.
      * intros Hall e' Hin. apply Hall, elem_of_app. by right.
  - assert (∃ e, e ∈ s1 ∧ exec w e = false) as Hfail.
    { destruct (all_or_some w s1) as [Hall|?]; [|done].
      apply Hiff in Hall as [? ?]. done. }
    split_and!; [done | done | |].
    + by rewrite attempts_app_fail.
    + split; [by intros [? ?]|]. intros Hall.
      destruct Hfail as (e' & Hin & Hf'). rewrite Hall in Hf'; [done|].
      apply elem_of_app. by left.
Qed.

Lemma takes_when (c : machine → bool) (body : action machine ())
    (steps : list event) (w : machine) :
  takes body steps w →
  takes (λ w, when (c w) body w) (if c w then steps else []) w.
Proof.
  intros Hbody. unfold takes, when.
  destruct (c w); [exact Hbody | apply (takes_ret ())].
Qed.

Lemma takes_run_commands (cwd : string) (cmds : list BuildSystems.command) :
  ∀ w, takes (BuildSystems.run_commands cwd cmds) (command_step cwd <$> cmds) w.
Proof.
  induction cmds as [|cmd cmds IH]; intros w; cbn [BuildSystems.run_commands fmap list_fmap].
  { apply takes_ret. }
  apply (takes_bind _ _ [command_step cwd cmd]); [|intros; apply IH].
  destruct cmd; [apply takes_shell | apply takes_run].
Qed.

Section builder_extras.
Context `{!Platform, !Casing}.

Lemma takes_apply_patches (source_dir : string) (patches : list string) :
  ∀ w, takes (BuildSystems._apply_patches source_dir patches)
         (patch_step source_dir
            <$> filter (λ p, is_Some (fs w !! expanduser p)) patches) w.
Proof.
  unfold BuildSystems._apply_patches.
  induction patches as [|patch patches IH]; intros w.
  { apply (takes_ret ()). }
  rewrite filter_cons.
  assert (∀ s1 s2,
            takes (BuildSystems.apply_patch source_dir patch) s1 w →
            (∀ w', fs w' = fs w →
                   takes (for_each (BuildSystems.apply_patch source_dir) patches)
                     s2 w') →
            takes (for_each (BuildSystems.apply_patch source_dir)
                     (patch :: patches)) (s1 ++ s2) w) as Hcons.
  { intros s1 s2 H1 H2.
    assert (for_each (BuildSystems.apply_patch source_dir) (patch :: patches)
            = (BuildSystems.apply_patch source_dir patch ;;
               for_each (BuildSystems.apply_patch source_dir) patches)) as ->.
    { cbn [for_each]. unfold bind. done. }
    apply takes_bind; [done|]. intros [] w' Hw'. apply H2.
    destruct H1 as (_ & Hfs & _). by rewrite Hw' in Hfs. }
  assert (∀ w', fs w' = fs w →
            takes (for_each (BuildSystems.apply_patch source_dir) patches)
              (patch_step source_dir
                 <$> filter (λ p, is_Some (fs w !! expanduser p)) patches) w')
    as Hrest.
  { intros w' Hfs. rewrite <- Hfs. apply IH. }
  case_decide as Hex.
  - apply (Hcons [patch_step source_dir patch]); [|done].
    apply (takes_step _ _ () ["patch"; "-p1"; "-i"; expanduser patch]).
    unfold BuildSystems.apply_patch, run. cbv zeta.
    by rewrite (proj2 (exists_true _ _) Hex).
  - apply (Hcons []); [|done].
    assert (BuildSystems.apply_patch source_dir patch w = ret () w) as Hskip.
    { unfold BuildSystems.apply_patch. cbv zeta.
      rewrite (proj2 (exists_false _ _)); [done|].
      by apply eq_None_not_Some. }
    unfold takes. rewrite Hskip. apply (takes_ret ()).
Qed.

(** X30.  Patches that are not there are skipped, silently as far as the
    outcome goes.  [_apply_patches] runs [patch -p1 -i] in the source
    directory for the patch files that exist, in the order of the list,
    until one fails; it succeeds exactly when none of these fails, and a
    patch file that does not exist is not an error: a recipe all of
    whose patches are missing is built unpatched.  Which exception a
    failure raises is left open. *)
Theorem apply_patches_skips_missing (source_dir : string)
    (patches : list string) (w : machine) :
  let present := filter (λ p, is_Some (fs w !! expanduser p)) patches in
  let r := BuildSystems._apply_patches source_dir patches w in
  trace r.2 = trace w ++ attempts w (patch_step source_dir <$> present)
  ∧ (r.1 = Ok () ↔ ∀ p, p ∈ present → exec w (patch_step source_dir p) = true).
Proof.
  cbv zeta.
  destruct (takes_apply_patches source_dir patches w)
    as (_ & _ & Ht & Hiff).
  split; [done|]. split.
  - intros Hok p Hp. apply Hiff; [by exists () | by apply list_elem_of_fmap_2].
  - intros Hall. destruct Hiff as [_ [[] Hok]]; [|done].
    intros e (p & -> & Hp)%list_elem_of_fmap. by apply Hall.
Qed.

Lemma bind_value {A B : Type} (m : action machine A) (k : A → action machine B)
    (b : B) (w : machine) :
  (∀ x w' a, (k x w').1 = Ok a → a = b) →
  ∀ a, (bind m k w).1 = Ok a → a = b.
Proof.
  intros Hk a. unfold bind. destruct (m w) as [[x|e] w']; [apply Hk | done].
Qed.

Lemma ret_value {A : Type} (b : A) (w : machine) (a : A) :
  (ret b w).1 = Ok a → a = b.
Proof. by intros [= ->]. Qed.

(** Reading a run of a backend as the result of [build]. *)
Lemma of_outcome_takes (m : action machine string) (steps : list event)
    (build_dir : string) (w : machine) :
  takes m steps w →
  (∀ a, (m w).1 = Ok a → a = build_dir) →
  trace (BuildSystems.of_outcome (m w)).2 = trace w ++ attempts w steps
  ∧ ((BuildSystems.of_outcome (m w)).1 = BuildSystems.Built build_dir
     ↔ ∀ e, e ∈ steps → exec w e = true)
  ∧ (∀ s, (BuildSystems.of_outcome (m w)).1 ≠ BuildSystems.UnknownBuildSystem s).
Proof.
  intros (_ & _ & Ht & Hiff) Hval.
  destruct (m w) as [[a|e] w'] eqn:Hm; cbn [fst snd BuildSystems.of_outcome] in *.
  - rewrite (Hval a eq_refl). split_and!; [done | | done].
    split; [intros _; apply Hiff; by exists a | done].
  - split_and!; [done | | done].
    split; [done|]. intros Hall. apply Hiff in Hall as [? ?]. done.
Qed.

(** The start of [build] when there is no patch to apply. *)
Lemma build_start (build_dir source_dir : string) (w : machine) :
  (mkdir build_dir w).1 = Ok () →
  (mkdir build_dir ;;
   when (bool_decide (@nil string ≠ []))
     (BuildSystems._apply_patches source_dir [])) w
  = (Ok (), (mkdir build_dir w).2)
  ∧ exec (mkdir build_dir w).2 = exec w
  ∧ trace (mkdir build_dir w).2 = trace w.
Proof.
  intros Hok. unfold bind.
  assert (exec (mkdir build_dir w).2 = exec w
          ∧ trace (mkdir build_dir w).2 = trace w) as [He Ht].
  { unfold mkdir. by repeat case_match. }
  destruct (mkdir build_dir w) as [[[]|e] w1]; cbn [fst snd] in *; [|done].
  rewrite bool_decide_eq_false_2 by (by intros Hne). done.
Qed.

(** X27.  Custom build commands replace the build system.  When the
    recipe has build commands (and no patches, and the build directory
    can be created), [build] runs them in the source directory, strings
    through the shell and lists as they are, in order and up to the
    first that fails, and it succeeds exactly when none fails.  The
    build system named in the recipe, known or not, the argument lists
    and the install prefix play no part: no other command is run, and
    the unknown-build-system error is never raised.  Which exception a
    failed command raises is left open. *)
Theorem build_runs_custom_commands (config : BuildSystems.Settings)
    (package : BuildSystems.Recipe) (source_dir build_dir : string)
    (w : machine) :
  BuildSystems.build_commands package ≠ [] →
  BuildSystems.patches package = [] →
  (mkdir build_dir w).1 = Ok () →
  let steps := command_step source_dir <$> BuildSystems.build_commands package in
  let r := BuildSystems.build config package source_dir build_dir w in
  trace r.2 = trace w ++ attempts w steps
  ∧ (r.1 = BuildSystems.Built build_dir ↔ ∀ e, e ∈ steps → exec w e = true)
  ∧ (∀ s, r.1 ≠ BuildSystems.UnknownBuildSystem s).
Proof.
  intros Hcmds Hpatches Hmkdir. cbv zeta.
  destruct (build_start build_dir source_dir w Hmkdir) as (Hstart & He & Ht).
  unfold BuildSystems.build. rewrite Hpatches, Hstart.
  rewrite bool_decide_eq_true_2 by done.
  rewrite <- (attempts_exec w (mkdir build_dir w).2) by done.
  rewrite <- Ht.
  assert (∀ P : event → Prop,
            (∀ e, P e → exec w e = true)
            ↔ (∀ e, P e → exec (mkdir build_dir w).2 e = true)) as Hexec.
  { intros P. by rewrite He. }
  rewrite (Hexec (λ e, e ∈ _)).
  apply of_outcome_takes.
  - unfold BuildSystems._build_custom.
    rewrite <- (app_nil_r (command_step source_dir <$> _)).
    apply takes_bind; [apply takes_run_commands|]. intros; apply takes_ret.
  - unfold BuildSystems._build_custom. apply bind_value.
    intros; by eapply ret_value.
Qed.

(** X28.  A build system that is none of the six is an error for
    [build] and nothing at all for [install].  For a recipe without
    custom commands and patches: [build] creates the build directory
    and then raises the unknown-build-system error, with the name in
    lower case, without running a command; [install], for such a build
    system as well as for python, runs nothing and returns normally. *)
Theorem unknown_build_system (config : BuildSystems.Settings)
    (package : BuildSystems.Recipe) (source_dir build_dir : string)
    (w : machine) :
  BuildSystems.build_commands package = [] →
  BuildSystems.install_commands package = [] →
  BuildSystems.patches package = [] →
  let build_system := lower (BuildSystems.build_system package) in
  build_system ∉ ["autotools"; "cmake"; "make"; "meson"; "cargo"] →
  BuildSystems.install config package source_dir build_dir w = (Ok (), w)
  ∧ (build_system ≠ "python" → fs w !! build_dir = None →
     BuildSystems.build config package source_dir build_dir w
     = (BuildSystems.UnknownBuildSystem build_system,
        set_fs (<[build_dir := Dir []]> (fs w)) w)).
Proof.
  intros Hb Hi Hp build_system Hnot.
  assert (build_system ≠ "autotools" ∧ build_system ≠ "cmake"
          ∧ build_system ≠ "make" ∧ build_system ≠ "meson"
          ∧ build_system ≠ "cargo") as (H1 & H2 & H3 & H4 & H5).
  { split_and!; intros Heq; apply Hnot; rewrite Heq; set_solver. }
  split.
  - unfold BuildSystems.install. rewrite Hi.
    rewrite bool_decide_eq_false_2 by (by intros Hne). cbv zeta.
    fold build_system. by rewrite !decide_False by done.
  - intros H6 Hfresh.
    assert ((mkdir build_dir w).1 = Ok ()
            ∧ (mkdir build_dir w).2 = set_fs (<[build_dir := Dir []]> (fs w)) w)
      as [Hmkdir Hw1].
    { unfold mkdir. by rewrite Hfresh. }
    destruct (build_start build_dir source_dir w Hmkdir) as (Hstart & _ & _).
    unfold BuildSystems.build. rewrite Hp, Hstart, Hb, Hw1.
    rewrite bool_decide_eq_false_2 by (by intros Hne). cbv zeta.
    fold build_system. by rewrite !decide_False by done.
Qed.

(** X29.  The autotools build.  For a recipe without custom commands and
    patches whose build system is autotools in any letter case, [build]
    runs, in the source directory: [autoreconf -fiv] first, but only
    when there is no configure script and there is a configure.ac or a
    configure.in; then [./configure] with the install prefix as its
    first argument, followed by the configure arguments of the recipe
    in their order; then [make] with the make arguments.  The first
    command that fails ends the build, and the build succeeds exactly
    when none fails.  Which exception a failed command raises is left
    open; it is not the unknown-build-system error. *)
Theorem build_autotools_steps (config : BuildSystems.Settings)
    (package : BuildSystems.Recipe) (source_dir build_dir : string)
    (w : machine) :
  BuildSystems.build_commands package = [] →
  BuildSystems.patches package = [] →
  lower (BuildSystems.build_system package) = "autotools" →
  (mkdir build_dir w).1 = Ok () →
  let w1 := (mkdir build_dir w).2 in
  let steps :=
    (if negb (BuildSystems.has_entry source_dir "configure" w1)
        && (BuildSystems.has_entry source_dir "configure.ac" w1
            || BuildSystems.has_entry source_dir "configure.in" w1)
     then [Command ["autoreconf"; "-fiv"] (Some source_dir)] else [])
    ++ [Command (["./configure";
                  "--prefix=" +:+ BuildSystems.install_dir config]
                   ++ BuildSystems.configure_args package) (Some source_dir);
        Command ("make" :: BuildSystems.make_args package) (Some source_dir)] in
  let r := BuildSystems.build config package source_dir build_dir w in
  trace r.2 = trace w ++ attempts w steps
  ∧ (r.1 = BuildSystems.Built build_dir ↔ ∀ e, e ∈ steps → exec w e = true)
  ∧ (∀ s, r.1 ≠ BuildSystems.UnknownBuildSystem s).
Proof.
  intros Hcmds Hpatches Hsystem Hmkdir. cbv zeta.
  destruct (build_start build_dir source_dir w Hmkdir) as (Hstart & He & Ht).
  unfold BuildSystems.build. rewrite Hpatches, Hstart, Hcmds.
  rewrite bool_decide_eq_false_2 by (by intros Hne). cbv zeta.
  rewrite Hsystem. rewrite decide_True by done.
  rewrite <- (attempts_exec w (mkdir build_dir w).2) by done.
  rewrite <- Ht.
  assert (∀ P : event → Prop,
            (∀ e, P e → exec w e = true)
            ↔ (∀ e, P e → exec (mkdir build_dir w).2 e = true)) as Hexec.
  { intros P. by rewrite He. }
  rewrite (Hexec (λ e, e ∈ _)).
  apply of_outcome_takes.
  - unfold BuildSystems._build_autotools.
    apply takes_bind.
    { apply (takes_when
               (λ w, negb (BuildSystems.has_entry source_dir "configure" w)
                     && (BuildSystems.has_entry source_dir "configure.ac" w
                         || BuildSystems.has_entry source_dir "configure.in" w))).
      apply takes_run. }
    intros _ w2 _.
    apply (takes_bind _ _ [_] [_]); [apply takes_run|]. intros _ w3 _.
    rewrite <- (app_nil_r [_]).
    apply takes_bind; [apply takes_run|]. intros; apply takes_ret.
  - unfold BuildSystems._build_autotools.
    do 3 (apply bind_value; intros ? ? ?). by apply ret_value.
Qed.

End builder_extras.
(** X27 at a recipe with two build commands and a build system that does
    not exist. *)
Lemma build_runs_custom_commands_witness :
  let steps := command_step "/tsi/sources/app"
                 <$> BuildSystems.build_commands scripted in
  let r := @BuildSystems.build example_platform example_casing settings
             scripted "/tsi/sources/app" "/tsi/build/app" (machine_with [] []) in
  trace r.2 = trace (machine_with [] []) ++ attempts (machine_with [] []) steps
  ∧ (r.1 = BuildSystems.Built "/tsi/build/app"
     ↔ ∀ e, e ∈ steps → exec (machine_with [] []) e = true)
  ∧ (∀ s, r.1 ≠ BuildSystems.UnknownBuildSystem s).
Proof.
  apply (@build_runs_custom_commands example_platform example_casing settings
           scripted "/tsi/sources/app" "/tsi/build/app" (machine_with [] []));
    [done | reflexivity | reflexivity].
Defined.

(** X28 at a build system called SCons. *)
Lemma unknown_build_system_witness :
  @BuildSystems.install example_casing settings (recipe_of "SCons")
    "/tsi/sources/app" "/tsi/build/app" (machine_with [] [])
  = (Ok (), machine_with [] [])
  ∧ (@lower example_casing "SCons" ≠ "python" →
     fs (machine_with [] []) !! "/tsi/build/app" = None →
     @BuildSystems.build example_platform example_casing settings
       (recipe_of "SCons") "/tsi/sources/app" "/tsi/build/app"
       (machine_with [] [])
     = (BuildSystems.UnknownBuildSystem (@lower example_casing "SCons"),
        set_fs (<["/tsi/build/app" := Dir []]> (fs (machine_with [] [])))
          (machine_with [] []))).
Proof.
  apply (@unknown_build_system example_platform example_casing settings
           (recipe_of "SCons") "/tsi/sources/app" "/tsi/build/app"
           (machine_with [] []));
    [reflexivity | reflexivity | reflexivity |].
  apply (bool_decide_unpack _). by vm_compute.
Defined.

(** X29 at a recipe that spells the build system AutoTools, on a source
    tree that has a configure script. *)
Lemma build_autotools_steps_witness :
  let r := @BuildSystems.build example_platform example_casing settings
             (recipe_of "AutoTools") "/tsi/sources/zlib" "/tsi/build/zlib"
             unpacked in
  let steps :=
    (if negb (BuildSystems.has_entry "/tsi/sources/zlib" "configure"
                (mkdir "/tsi/build/zlib" unpacked).2)
        && (BuildSystems.has_entry "/tsi/sources/zlib" "configure.ac"
              (mkdir "/tsi/build/zlib" unpacked).2
            || BuildSystems.has_entry "/tsi/sources/zlib" "configure.in"
                 (mkdir "/tsi/build/zlib" unpacked).2)
     then [Command ["autoreconf"; "-fiv"] (Some "/tsi/sources/zlib")] else [])
    ++ [Command (["./configure"; "--prefix=" +:+ "/tsi/install"] ++ [])
          (Some "/tsi/sources/zlib");
        Command ("make" :: []) (Some "/tsi/sources/zlib")] in
  trace r.2 = trace unpacked ++ attempts unpacked steps
  ∧ (r.1 = BuildSystems.Built "/tsi/build/zlib"
     ↔ ∀ e, e ∈ steps → exec unpacked e = true)
  ∧ (∀ s, r.1 ≠ BuildSystems.UnknownBuildSystem s).
Proof.
  apply (@build_autotools_steps example_platform example_casing settings
           (recipe_of "AutoTools") "/tsi/sources/zlib" "/tsi/build/zlib"
           unpacked);
    reflexivity.
Defined.

(** What X29 comes to there: two commands, and no [autoreconf]. *)
Lemma build_autotools_example :
  @BuildSystems.build example_platform example_casing settings
    (recipe_of "AutoTools") "/tsi/sources/zlib" "/tsi/build/zlib" unpacked
  = (BuildSystems.Built "/tsi/build/zlib",
     log (Command ["make"] (Some "/tsi/sources/zlib"))
       (log (Command ["./configure"; "--prefix=/tsi/install"]
               (Some "/tsi/sources/zlib"))
          (set_fs (<["/tsi/build/zlib" := Dir []]> (fs unpacked)) unpacked))).
Proof. by vm_compute. Qed.
